(** * Catalog synchronisation of StreamVault Brasil

    A shallow embedding of the catalog pipeline:

    - [backend/src/models/Media.js]            (module [Media])
    - [backend/src/services/tmdbService.js]    (module [TMDBService])
    - [backend/src/jobs/syncCatalog.js]        (module [CatalogSyncer])
    - [services/tmdbService.js], [services/contentAggregator.js] and
      [scripts/syncCatalog.js]                 (modules [ContentAggregator]
                                                and [Scripts])
    - [config/database.js], [createIndexes]    ([Media.createIndexes])
    - the synchronisation loops of the aggregator ([ContentAggregatorSync]),
      the method [updateRating] of the model ([MediaDocument]), [formatWatchProviders] ([WatchProviders]),
      [formatSearchResponse] of the service of the scripts
      ([RootTMDBService]) and [extractAvailableProviders]
      ([AvailableProviders])

    JavaScript numbers that carry ratings and popularity are rationals
    ([Q]); identifiers, counters and timestamps (milliseconds) are
    integers ([Z]).  Text is ASCII. *)

From Stdlib Require Import ZArith QArith String Ascii List Bool Lia.
From stdpp Require Import base option list gmap strings pretty.

Local Open Scope string_scope.
Local Open Scope Z_scope.

(** ** Numbers *)

(** [a >= b] and [a < b], [a > b] on JavaScript numbers. *)
Definition geq (a b : Q) : bool := Qle_bool b a.
Definition lt (a b : Q) : bool := negb (Qle_bool b a).
Definition gt (a b : Q) : bool := negb (Qle_bool a b).

(** ** Strings *)

Definition is_space (c : ascii) : bool :=
  let n := nat_of_ascii c in
  ((9 <=? n)%nat && (n <=? 13)%nat) || (n =? 32)%nat.

Definition is_lower (c : ascii) : bool :=
  let n := nat_of_ascii c in (97 <=? n)%nat && (n <=? 122)%nat.

Definition is_upper (c : ascii) : bool :=
  let n := nat_of_ascii c in (65 <=? n)%nat && (n <=? 90)%nat.

Definition is_digit (c : ascii) : bool :=
  let n := nat_of_ascii c in (48 <=? n)%nat && (n <=? 57)%nat.

Definition lower (c : ascii) : ascii :=
  if is_upper c then ascii_of_nat (nat_of_ascii c + 32) else c.

Fixpoint toLowerCase (s : string) : string :=
  match s with
  | EmptyString => EmptyString
  | String c r => String (lower c) (toLowerCase r)
  end.

(** [s.replace(/[^a-z0-9\s]/g, '')] *)
Fixpoint keep_alnum_space (s : string) : string :=
  match s with
  | EmptyString => EmptyString
  | String c r =>
      if is_lower c || is_digit c || is_space c
      then String c (keep_alnum_space r) else keep_alnum_space r
  end.

(** [s.replace(/\s+/g, '-')]; [run] tells that the previous character
    belonged to the run being replaced. *)
Fixpoint spaces_to_hyphen (run : bool) (s : string) : string :=
  match s with
  | EmptyString => EmptyString
  | String c r =>
      if is_space c
      then (if run then spaces_to_hyphen true r
            else String "-" (spaces_to_hyphen true r))
      else String c (spaces_to_hyphen false r)
  end.

(** [s.replace(/-+/g, '-')] *)
Fixpoint squeeze_hyphens (run : bool) (s : string) : string :=
  match s with
  | EmptyString => EmptyString
  | String c r =>
      if Ascii.eqb c "-"
      then (if run then squeeze_hyphens true r
            else String "-" (squeeze_hyphens true r))
      else String c (squeeze_hyphens false r)
  end.

Fixpoint trim_left (s : string) : string :=
  match s with
  | EmptyString => EmptyString
  | String c r => if is_space c then trim_left r else s
  end.

(** Drops the white space at the end of [s]. *)
Fixpoint trim_right (s : string) : string :=
  match s with
  | EmptyString => EmptyString
  | String c r =>
      match trim_right r with
      | EmptyString => if is_space c then EmptyString else String c EmptyString
      | r' => String c r'
      end
  end.

Definition trim (s : string) : string := trim_right (trim_left s).

(** [TMDBService.generateSlug].  On ASCII text [normalize('NFD')] leaves
    the string as it is and there is no combining mark to remove. *)
Definition generateSlug (title : string) : string :=
  trim (squeeze_hyphens false
          (spaces_to_hyphen false (keep_alnum_space (toLowerCase title)))).

(** A JavaScript string is falsy exactly when it is empty. *)
Definition falsy (s : string) : bool :=
  match s with EmptyString => true | _ => false end.

(** ** The catalog item *)

Inductive MediaType := movie | series | anime | documentary | cartoon.

Global Instance MediaType_eq_dec : EqDecision MediaType.
Proof. solve_decision. Defined.

Definition type_eqb (a b : MediaType) : bool := bool_decide (a = b).

Record Score := { average : Q; count : Z }.

Record Rating := { ageRating : string; tmdb : Score; internal : Score }.

Record Analytics := { views : Z; uniqueViews : Z; totalWatchTime : Z }.

(** The persisted document of [mediaSchema].  Fields that the remote
    detail only fills in and nothing reads (cast, crew, posters, seasons
    and the like) are left out. *)
Record Doc := {
  tmdbId : Z;
  title : string;
  slug : string;
  type : MediaType;
  description : string;
  genre : list string;
  rating : Rating;
  embedUrl : string;
  popularity : Q;
  analytics : Analytics;
  isActive : bool;
  featured : bool;
  trending : bool;
  createdAt : Z;
  updatedAt : Z;
  lastSyncAt : Z
}.

(** The natural key of a document. *)
Definition key (m : Doc) : Z * MediaType := (tmdbId m, type m).

(** ** Documents as values: what a query literal is compared with *)

#[local] Set Warnings "-register-all".

Inductive Json :=
| JNum (q : Q)
| JStr (s : string)
| JBool (b : bool)
| JObj (fields : list (string * Json)).

Fixpoint json_eqb (a b : Json) : bool :=
  match a, b with
  | JNum x, JNum y => Qeq_bool x y
  | JStr x, JStr y => String.eqb x y
  | JBool x, JBool y => Bool.eqb x y
  | JObj xs, JObj ys =>
      (fix fields_eqb (xs ys : list (string * Json)) : bool :=
         match xs, ys with
         | [], [] => true
         | (k, v) :: xs', (k', v') :: ys' =>
             String.eqb k k' && json_eqb v v' && fields_eqb xs' ys'
         | _, _ => false
         end) xs ys
  | _, _ => false
  end.

Definition score_json (s : Score) : Json :=
  JObj [("average", JNum (average s)); ("count", JNum (inject_Z (count s)))].

Definition rating_json (r : Rating) : Json :=
  JObj [("ageRating", JStr (ageRating r));
        ("tmdb", score_json (tmdb r));
        ("internal", score_json (internal r))].

Definition Params := list (string * Json).

(** ** The world the jobs run in *)

(** A call of an operation of [tmdbService]. *)
Inductive Call :=
| PopularMovies (page : Z)
| PopularTVShows (page : Z)
| NowPlayingMovies
| UpcomingMovies
| TopRatedMovies
| TopRatedTVShows
| DiscoverMovies (options : Params)
| DiscoverTVShows (options : Params)
| Trending (mediaType timeWindow : string)
| MovieDetails (tmdbId : Z)
| TVDetails (tmdbId : Z).

Record Stats := {
  totalSynced : Z;
  moviesAdded : Z;
  seriesAdded : Z;
  animesAdded : Z;
  updated : Z;
  errors : Z;
  startTime : option Z;
  endTime : option Z
}.

(** [clock] is what [Date.now()] reads; [collection] is the Media
    collection in natural (insertion) order, a document's [_id] being its
    position: documents are never removed.  [uniqueTmdbIdType] tells
    whether the unique index on [(tmdbId, type)] of [createIndexes]
    exists; the unique index on [slug] is part of the schema.  [calls]
    lists the calls made to [tmdbService], oldest first. *)
Record World := {
  clock : Z;
  collection : list Doc;
  uniqueTmdbIdType : bool;
  stats : Stats;
  isRunning : bool;
  calls : list Call
}.

Definition set_clock (t : Z) (w : World) : World :=
  {| clock := t; collection := collection w;
     uniqueTmdbIdType := uniqueTmdbIdType w; stats := stats w;
     isRunning := isRunning w; calls := calls w |}.

Definition set_collection (c : list Doc) (w : World) : World :=
  {| clock := clock w; collection := c;
     uniqueTmdbIdType := uniqueTmdbIdType w; stats := stats w;
     isRunning := isRunning w; calls := calls w |}.

Definition set_uniqueTmdbIdType (b : bool) (w : World) : World :=
  {| clock := clock w; collection := collection w;
     uniqueTmdbIdType := b; stats := stats w; isRunning := isRunning w;
     calls := calls w |}.

Definition set_stats (s : Stats) (w : World) : World :=
  {| clock := clock w; collection := collection w;
     uniqueTmdbIdType := uniqueTmdbIdType w; stats := s;
     isRunning := isRunning w; calls := calls w |}.

Definition set_isRunning (b : bool) (w : World) : World :=
  {| clock := clock w; collection := collection w;
     uniqueTmdbIdType := uniqueTmdbIdType w; stats := stats w;
     isRunning := b; calls := calls w |}.

Definition log_call (c : Call) (w : World) : World :=
  {| clock := clock w; collection := collection w;
     uniqueTmdbIdType := uniqueTmdbIdType w; stats := stats w;
     isRunning := isRunning w; calls := (calls w ++ [c])%list |}.

(** ** Asynchronous code as a state and exception monad *)

Inductive Error :=
| NetworkError        (* a rejected remote call *)
| ValidationError     (* a required path is missing *)
| DuplicateKey.       (* E11000: a unique index refuses the write *)

Inductive Outcome (A : Type) :=
| Return (a : A)
| Throw (e : Error).
Arguments Return {A} a.
Arguments Throw {A} e.

Definition M (A : Type) : Type := World → Outcome A * World.

Definition ret {A} (a : A) : M A := λ w, (Return a, w).

Definition bind {A B} (m : M A) (k : A → M B) : M B :=
  λ w, match m w with
       | (Return a, w') => k a w'
       | (Throw e, w') => (Throw e, w')
       end.

Declare Scope job_scope.
Delimit Scope job_scope with job.
Bind Scope job_scope with M.
Notation "x <- m ;; k" := (bind m (λ x, k))
  (at level 100, m at next level, right associativity) : job_scope.
Notation "m ;;; k" := (bind m (λ _, k))
  (at level 100, right associativity) : job_scope.
Local Open Scope job_scope.

Definition throw {A} (e : Error) : M A := λ w, (Throw e, w).

Definition gets {A} (f : World → A) : M A := λ w, (Return (f w), w).

Definition modify (f : World → World) : M unit := λ w, (Return tt, f w).

(** [try { m } catch (error) { h error }] *)
Definition try_catch {A} (m : M A) (h : Error → M A) : M A :=
  λ w, match m w with
       | (Throw e, w') => h e w'
       | r => r
       end.

(** [try { m } finally { fin }] *)
Definition try_finally {A} (m : M A) (fin : M unit) : M A :=
  λ w, let '(r, w') := m w in
       match fin w' with
       | (Return _, w'') => (r, w'')
       | (Throw e, w'') => (Throw e, w'')
       end.

(** [await p] for a promise of the service: [None] is a rejection. *)
Definition await {A} (p : option A) : M A :=
  match p with
  | Some a => ret a
  | None => throw NetworkError
  end.

(** [for (const x of xs) { ... }] with the local variables of the
    enclosing function threaded as [s]. *)
Fixpoint for_of {A S} (xs : list A) (s : S) (body : S → A → M S) : M S :=
  match xs with
  | [] => ret s
  | x :: xs' => s' <- body s x ;; for_of xs' s' body
  end.

(** [new Date()] / [Date.now()] *)
Definition now : M Z := gets clock.

(** [await this.delay(ms)] *)
Definition delay (ms : Z) : M unit := modify (λ w, set_clock (clock w + ms) w).

Definition exec {A} (m : M A) (w : World) : World := snd (m w).
Definition result {A} (m : M A) (w : World) : Outcome A := fst (m w).

(** ** The Media model: queries and writes of the collection *)

Module Media.

(** The query conditions the jobs use, one constructor per shape. *)
Inductive Clause :=
| tmdbId_is (n : Z)              (* tmdbId: n *)
| tmdbId_exists                  (* tmdbId: { $exists: true } *)
| tmdbId_in (ns : list Z)        (* tmdbId: { $in: ns } *)
| type_is (t : MediaType)        (* type: t *)
| isActive_is (b : bool)         (* isActive: b *)
| id_in (ids : list nat)         (* _id: { $in: ids } *)
| views_lt (n : Z)               (* 'analytics.views': { $lt: n } *)
| createdAt_lt (t : Z)           (* createdAt: { $lt: t } *)
| lastSyncAt_lt (t : Z)          (* lastSyncAt: { $lt: t } *)
| tmdb_average_lt (q : Q)        (* 'rating.tmdb.average': { $lt: q } *)
| rating_is (v : Json).          (* rating: v, a literal sub-document *)

Definition Filter := list Clause.

Definition holds (c : Clause) (id : nat) (m : Doc) : bool :=
  match c with
  | tmdbId_is n => tmdbId m =? n
  | tmdbId_exists => true
  | tmdbId_in ns => bool_decide (tmdbId m ∈ ns)
  | type_is t => type_eqb (type m) t
  | isActive_is b => Bool.eqb (isActive m) b
  | id_in ids => bool_decide (id ∈ ids)
  | views_lt n => views (analytics m) <? n
  | createdAt_lt t => createdAt m <? t
  | lastSyncAt_lt t => lastSyncAt m <? t
  | tmdb_average_lt q => lt (average (tmdb (rating m))) q
  | rating_is v => json_eqb (rating_json (rating m)) v
  end.

Definition matches (f : Filter) (id : nat) (m : Doc) : bool :=
  forallb (λ c, holds c id m) f.

(** The matching documents with their [_id], in natural order;
    [from] is the [_id] of the head of [c]. *)
Fixpoint find_from (f : Filter) (from : nat) (c : list Doc) : list (nat * Doc) :=
  match c with
  | [] => []
  | m :: c' =>
      if matches f from m
      then (from, m) :: find_from f (S from) c'
      else find_from f (S from) c'
  end.

Definition find_in (f : Filter) (c : list Doc) : list (nat * Doc) :=
  find_from f 0 c.

Definition findOne_in (f : Filter) (c : list Doc) : option (nat * Doc) :=
  head (find_in f c).

(** [$set] on every matching document. *)
Definition updateMany_in (f : Filter) (set : Doc → Doc) (c : list Doc) : list Doc :=
  imap (λ id m, if matches f id m then set m else m) c.

(** A write of [m] is refused when another document ([self] is the
    position being rewritten, if any) has the same slug or, with the
    index of [createIndexes], the same [(tmdbId, type)]. *)
Definition clashes (uniqueKey : bool) (m m' : Doc) : bool :=
  String.eqb (slug m') (slug m) || (uniqueKey && bool_decide (key m' = key m)).

Fixpoint conflict_from (uniqueKey : bool) (self : option nat) (m : Doc)
         (from : nat) (c : list Doc) : bool :=
  match c with
  | [] => false
  | m' :: c' =>
      (negb (bool_decide (self = Some from)) && clashes uniqueKey m m')
      || conflict_from uniqueKey self m (S from) c'
  end.

Definition conflict (uniqueKey : bool) (self : option nat) (m : Doc)
           (c : list Doc) : bool :=
  conflict_from uniqueKey self m 0 c.

(** [required: true] on [title] and [description]; [tmdbId] and [type]
    are always present in a [Doc].  The other checks of the schema
    ([trim] on [title], [enum] on [status], the casting of
    [streamingInfo]) are left out: a record that [save()] accepts is
    [valid], not conversely. *)
Definition valid (m : Doc) : bool :=
  negb (falsy (title m)) && negb (falsy (description m)).

Section Statics.

(** The [slug] package, in lower-case mode, of the pre-save hook. *)
Variable slug_package : string → string.

Definition find (f : Filter) (limit : nat) : M (list (nat * Doc)) :=
  gets (λ w, take limit (find_in f (collection w))).

Definition findOne (f : Filter) : M (option (nat * Doc)) :=
  gets (λ w, findOne_in f (collection w)).

(** [mediaSchema.statics.findByTmdbId] *)
Definition findByTmdbId (tmdbId : Z) (type : MediaType) : M (option (nat * Doc)) :=
  findOne [tmdbId_is tmdbId; type_is type; isActive_is true].

Definition updateMany (f : Filter) (set : Doc → Doc) : M unit :=
  modify (λ w, set_collection (updateMany_in f set (collection w)) w).

(** [Media.findByIdAndUpdate(id, update)]: no validation, no hook. *)
Definition findByIdAndUpdate (id : nat) (set : Doc → Doc) : M unit :=
  c <- gets collection ;;
  uk <- gets uniqueTmdbIdType ;;
  match c !! id with
  | None => ret tt
  | Some m =>
      if conflict uk (Some id) (set m) c then throw DuplicateKey
      else modify (set_collection (<[id := set m]> c))
  end.

(** The two [pre('save')] hooks, as far as the modelled fields go. *)
Definition pre_save (t : Z) (m : Doc) : Doc :=
  {| tmdbId := tmdbId m;
     title := title m;
     slug := if falsy (slug m) && negb (falsy (title m))
             then slug_package (title m) else slug m;
     type := type m;
     description := description m;
     genre := genre m;
     rating := rating m;
     embedUrl := if falsy (embedUrl m)
                 then (if type_eqb (type m) movie
                       then "/embed/movie/" +:+ pretty (tmdbId m)
                       else "/embed/series/" +:+ pretty (tmdbId m))
                 else embedUrl m;
     popularity := popularity m;
     analytics := analytics m;
     isActive := isActive m;
     featured := featured m;
     trending := trending m;
     createdAt := createdAt m;
     updatedAt := t;
     lastSyncAt := lastSyncAt m |}.

(** [new Media(data).save()]: validation, hooks, insertion; returns
    the [_id] of the new document. *)
Definition save (data : Doc) : M nat :=
  if valid data then
    t <- now ;;
    c <- gets collection ;;
    uk <- gets uniqueTmdbIdType ;;
    let m := pre_save t data in
    if conflict uk None m c then throw DuplicateKey
    else (modify (set_collection (c ++ [m])%list) ;;; ret (length c))
  else throw ValidationError.

(** [createIndexes], for the Media collection: building the unique
    index fails, and is only logged, when two documents share a key. *)
Definition createIndexes : M unit :=
  modify (λ w, if bool_decide (NoDup (key <$> collection w))
               then set_uniqueTmdbIdType true w else w).

End Statics.

End Media.

(** ** What the service hands to the jobs *)

(** An entry of a listing ([formatMoviesResponse], [formatTVResponse],
    [formatSearchResponse]). *)
Module Summary.
Record t := {
  tmdbId : Z;
  title : string;
  type : MediaType;
  rating : Score;          (* rating.tmdb *)
  popularity : Q
}.
End Summary.

(** A detail record ([formatMovieDetails], [formatTVDetails]);
    [genreIds] is only filled by [services/tmdbService.js]. *)
Module Details.
Record t := {
  tmdbId : Z;
  title : string;
  type : MediaType;
  description : string;
  genre : list string;
  genreIds : list Z;
  ageRating : string;      (* rating.ageRating *)
  rating : Score;          (* rating.tmdb *)
  popularity : Q
}.
End Details.

(** The operations of [tmdbService] the jobs call, as the answers they
    get: [None] is a rejected promise.  Listings are reduced to their
    [results]. *)
Module tmdbService.
Record t := {
getPopularMovies : Z → option (list Summary.t);
getPopularTVShows : Z → option (list Summary.t);
getNowPlayingMovies : option (list Summary.t);
getUpcomingMovies : option (list Summary.t);
getTopRatedMovies : option (list Summary.t);
getTopRatedTVShows : option (list Summary.t);
discoverMovies : Params → option (list Summary.t);
discoverTVShows : Params → option (list Summary.t);
getTrending : string → string → option (list Summary.t);
getMovieDetails : Z → option Details.t;
getTVDetails : Z → option Details.t
}.
End tmdbService.

(** [await tmdbService.operation(...)]: the call is recorded, then its
    answer awaited. *)
Module Await.
Section Calls.
Variable svc : tmdbService.t.

Definition call {A} (c : Call) (answer : option A) : M A :=
  modify (log_call c) ;;; await answer.

Definition getPopularMovies (page : Z) :=
  call (PopularMovies page) (tmdbService.getPopularMovies svc page).
Definition getPopularTVShows (page : Z) :=
  call (PopularTVShows page) (tmdbService.getPopularTVShows svc page).
Definition getNowPlayingMovies :=
  call NowPlayingMovies (tmdbService.getNowPlayingMovies svc).
Definition getUpcomingMovies :=
  call UpcomingMovies (tmdbService.getUpcomingMovies svc).
Definition getTopRatedMovies :=
  call TopRatedMovies (tmdbService.getTopRatedMovies svc).
Definition getTopRatedTVShows :=
  call TopRatedTVShows (tmdbService.getTopRatedTVShows svc).
Definition discoverMovies (options : Params) :=
  call (DiscoverMovies options) (tmdbService.discoverMovies svc options).
Definition discoverTVShows (options : Params) :=
  call (DiscoverTVShows options) (tmdbService.discoverTVShows svc options).
Definition getTrending (mediaType timeWindow : string) :=
  call (Trending mediaType timeWindow)
       (tmdbService.getTrending svc mediaType timeWindow).
Definition getMovieDetails (tmdbId : Z) :=
  call (MovieDetails tmdbId) (tmdbService.getMovieDetails svc tmdbId).
Definition getTVDetails (tmdbId : Z) :=
  call (TVDetails tmdbId) (tmdbService.getTVDetails svc tmdbId).
End Calls.
End Await.

(** ** The TMDB client: cache, request queue, formatters *)

Module TMDBService.

(** An object of the remote API. *)
Record Raw := {
  id : Z;
  media_type : string;
  title : string;
  name : string;
  overview : string;
  vote_average : Q;
  vote_count : Z;
  popularity : Q;
  genre_ids : list Z;
  genres : list (Z * string);
  origin_country : list string;
  original_language : string;
  content_ratings : option (list (string * string))
}.

Inductive Response :=
| Listing (results : list Raw)
| Object (o : Raw)
| ReleaseDates (results : list (string * list string))
| Other (body : string).

(** The remote API behind [axios.get]: its answer to a request ([None]
    is an error status) and the time the answer takes. *)
Record Remote := {
  respond : string → Params → option Response;
  latency : string → Z
}.

Definition timeout : Z := 10000.
Definition requestDelay : Z := 250.
Definition stdTTL : Z := 3600.

(** [axios.get(url, { params, timeout })]: the answer and how long it
    took to come. *)
Definition axios_get (api : Remote) (endpoint : string) (params : Params)
  : option Response * Z :=
  if timeout <? latency api endpoint then (None, timeout)
  else (respond api endpoint params, latency api endpoint).

(** *** [JSON.stringify] of a parameter object *)

Definition quote : string := String "034" EmptyString.

Fixpoint fraction (digits : nat) (r d : Z) : string :=
  match digits with
  | O => ""
  | S k => if r =? 0 then ""
           else pretty (r * 10 / d) +:+ fraction k (r * 10 mod d) d
  end.

Definition number_to_string (q : Q) : string :=
  let n := Z.abs (Qnum q) in
  let d := Zpos (Qden q) in
  (if Qnum q <? 0 then "-" else "")
  +:+ pretty (n / d)
  +:+ (if n mod d =? 0 then "" else "." +:+ fraction 20 (n mod d) d).

Fixpoint stringify (v : Json) : string :=
  match v with
  | JNum q => number_to_string q
  | JStr s => quote +:+ s +:+ quote
  | JBool b => if b then "true" else "false"
  | JObj fields =>
      "{" +:+
      (fix members (first : bool) (fs : list (string * Json)) : string :=
         match fs with
         | [] => ""
         | (k, x) :: fs' =>
             (if first then "" else ",")
             +:+ quote +:+ k +:+ quote +:+ ":" +:+ stringify x
             +:+ members false fs'
         end) true fields
      +:+ "}"
  end.

Definition cacheKey (endpoint : string) (params : Params) : string :=
  endpoint +:+ "_" +:+ stringify (JObj params).

(** *** State of the client *)

Record Request := { endpoint : string; params : Params; key : string }.

(** [cache] maps a key to the stored value and the instant it expires;
    [outbound] logs every call that left for the remote API, with the
    instant it was issued, latest first. *)
Record State := {
  cache : gmap string (Response * Z);
  requestQueue : list Request;
  isProcessingQueue : bool;
  clock : Z;
  outbound : list (string * Z)
}.

Definition cold : State :=
  {| cache := ∅; requestQueue := []; isProcessingQueue := false;
     clock := 0; outbound := [] |}.

(** [NodeCache.get]: an entry that has expired is not returned. *)
Definition cache_get (k : string) (s : State) : option Response :=
  match cache s !! k with
  | Some (v, expires) => if expires <? clock s then None else Some v
  | None => None
  end.

(** [NodeCache.set] with the standard time to live. *)
Definition cache_set (k : string) (v : Response) (s : State) : State :=
  {| cache := <[k := (v, clock s + stdTTL * 1000)]> (cache s);
     requestQueue := requestQueue s;
     isProcessingQueue := isProcessingQueue s;
     clock := clock s;
     outbound := outbound s |}.

Definition tick (ms : Z) (s : State) : State :=
  {| cache := cache s; requestQueue := requestQueue s;
     isProcessingQueue := isProcessingQueue s;
     clock := clock s + ms; outbound := outbound s |}.

Definition log_outbound (endpoint : string) (s : State) : State :=
  {| cache := cache s; requestQueue := requestQueue s;
     isProcessingQueue := isProcessingQueue s;
     clock := clock s; outbound := (endpoint, clock s) :: outbound s |}.

Definition set_queue (q : list Request) (busy : bool) (s : State) : State :=
  {| cache := cache s; requestQueue := q; isProcessingQueue := busy;
     clock := clock s; outbound := outbound s |}.

(** What [makeRequest] returns at once: a promise that is already
    resolved from the cache, or one that waits at a place in the queue. *)
Inductive Promise :=
| Resolved (v : Response)
| Queued (place : nat).

(** [makeRequest], up to the promise it returns. *)
Definition makeRequest (endpoint : string) (params : Params) (s : State)
  : Promise * State :=
  let k := cacheKey endpoint params in
  match cache_get k s with
  | Some v => (Resolved v, s)
  | None =>
      (Queued (length (requestQueue s)),
       set_queue (requestQueue s ++ [{| endpoint := endpoint; params := params; key := k |}])%list
                 (isProcessingQueue s) s)
  end.

(** The body of the [while] loop of [processQueue] on the requests
    waiting in [queue]: what each one settled to, in queue order. *)
Fixpoint drain (api : Remote) (queue : list Request) (s : State)
  : list (option Response) * State :=
  match queue with
  | [] => ([], s)
  | r :: rest =>
      let s1 := log_outbound (endpoint r) s in
      let '(answer, took) := axios_get api (endpoint r) (params r) in
      let s2 := tick took s1 in
      let s3 := match answer with
                | Some data => cache_set (key r) data s2
                | None => s2
                end in
      let s4 := match rest with
                | [] => s3
                | _ => tick requestDelay s3
                end in
      let '(settled, s5) := drain api rest s4 in
      (answer :: settled, s5)
  end.

(** [processQueue] *)
Definition processQueue (api : Remote) (s : State)
  : list (option Response) * State :=
  if isProcessingQueue s || bool_decide (requestQueue s = []) then ([], s)
  else
    let '(settled, s') := drain api (requestQueue s) (set_queue [] true s) in
    (settled, set_queue [] false s').

Definition settle (settled : list (option Response)) (p : Promise)
  : option Response :=
  match p with
  | Resolved v => Some v
  | Queued place => mjoin (settled !! place)
  end.

(** The calls of [calls] made one after the other without awaiting,
    then all awaited: every promise with what it settled to. *)
Fixpoint makeRequests (calls : list (string * Params)) (s : State)
  : list Promise * State :=
  match calls with
  | [] => ([], s)
  | (e, p) :: calls' =>
      let '(pr, s1) := makeRequest e p s in
      let '(prs, s2) := makeRequests calls' s1 in
      (pr :: prs, s2)
  end.

Definition settle_all (api : Remote) (calls : list (string * Params)) (s : State)
  : list (option Response) * State :=
  let '(promises, s1) := makeRequests calls s in
  let '(settled, s2) := processQueue api s1 in
  (settle settled <$> promises, s2).

(** [await this.makeRequest(endpoint, params)] *)
Definition request (api : Remote) (endpoint : string) (params : Params) (s : State)
  : option Response * State :=
  let '(rs, s') := settle_all api [(endpoint, params)] s in
  (mjoin (head rs), s').

(** [await Promise.all([...])]: rejected as soon as one call is. *)
Definition Promise_all (api : Remote) (calls : list (string * Params)) (s : State)
  : option (list Response) * State :=
  let '(rs, s') := settle_all api calls s in
  (mapM (λ r, r) rs, s').

(** *** Formatters *)

Definition isAnime (item : Raw) : bool :=
  let isJapanese :=
    bool_decide ("JP" ∈ origin_country item)
    || String.eqb (original_language item) "ja" in
  let hasAnimationGenre :=
    bool_decide (16 ∈ genre_ids item)
    || existsb (λ g, fst g =? 16) (genres item) in
  isJapanese && hasAnimationGenre.

Definition tmdb_score (o : Raw) : Score :=
  {| average := vote_average o; count := vote_count o |}.

Definition movie_summary (o : Raw) : Summary.t :=
  {| Summary.tmdbId := id o; Summary.title := title o;
     Summary.type := movie; Summary.rating := tmdb_score o;
     Summary.popularity := popularity o |}.

Definition tv_summary (o : Raw) : Summary.t :=
  {| Summary.tmdbId := id o; Summary.title := name o;
     Summary.type := if isAnime o then anime else series;
     Summary.rating := tmdb_score o;
     Summary.popularity := popularity o |}.

(** [data.results.map(...)] throws on an answer that is no listing. *)
Definition formatMoviesResponse (data : Response) : option (list Summary.t) :=
  match data with
  | Listing results => Some (movie_summary <$> results)
  | _ => None
  end.

Definition formatTVResponse (data : Response) : option (list Summary.t) :=
  match data with
  | Listing results => Some (tv_summary <$> results)
  | _ => None
  end.

(** Entries that are neither a movie nor a show map to [null] and are
    filtered out. *)
Definition formatSearchResponse (data : Response) : option (list Summary.t) :=
  match data with
  | Listing results =>
      Some (omap (λ item,
              if String.eqb (media_type item) "movie" then Some (movie_summary item)
              else if String.eqb (media_type item) "tv" then Some (tv_summary item)
              else None) results)
  | _ => None
  end.

Definition getAgeRating (releaseDates : option (list (string * list string))) : string :=
  match releaseDates with
  | None => "L"
  | Some rs =>
      match List.find (λ r, String.eqb (fst r) "BR") rs with
      | Some (_, certification :: _) =>
          if falsy certification then "L" else certification
      | _ => "L"
      end
  end.

Definition getTVAgeRating (contentRatings : option (list (string * string))) : string :=
  match contentRatings with
  | None => "L"
  | Some rs =>
      match List.find (λ r, String.eqb (fst r) "BR") rs with
      | Some (_, r) => r
      | None => "L"
      end
  end.

(** [releases?.results] *)
Definition release_results (releases : Response) : option (list (string * list string)) :=
  match releases with
  | ReleaseDates rs => Some rs
  | Listing _ => Some []
  | _ => None
  end.

(** [movie.genres.map] throws when the core answer is no object; the
    other five answers are only read through [?.]. *)
Definition formatMovieDetails (answers : list Response) : option Details.t :=
  match answers with
  | [Object o; credits; videos; watchProviders; keywords; releases] =>
      Some {| Details.tmdbId := id o;
              Details.title := title o;
              Details.type := movie;
              Details.description := overview o;
              Details.genre := snd <$> genres o;
              Details.genreIds := [];
              Details.ageRating := getAgeRating (release_results releases);
              Details.rating := tmdb_score o;
              Details.popularity := popularity o |}
  | _ => None
  end.

Definition formatTVDetails (answers : list Response) : option Details.t :=
  match answers with
  | [Object tv; credits; videos; watchProviders; keywords] =>
      Some {| Details.tmdbId := id tv;
              Details.title := name tv;
              Details.type := if isAnime tv then anime else series;
              Details.description := overview tv;
              Details.genre := snd <$> genres tv;
              Details.genreIds := [];
              Details.ageRating := getTVAgeRating (content_ratings tv);
              Details.rating := tmdb_score tv;
              Details.popularity := popularity tv |}
  | _ => None
  end.

(** [{ ...base, ...extra }] *)
Fixpoint assign (base : Params) (k : string) (v : Json) : Params :=
  match base with
  | [] => [(k, v)]
  | (k', v') :: base' =>
      if String.eqb k' k then (k', v) :: base' else (k', v') :: assign base' k v
  end.

Definition spread (base extra : Params) : Params :=
  fold_left (λ acc kv, assign acc (fst kv) (snd kv)) extra base.

(** *** Fetch operations *)

Section Operations.

Variable api : Remote.

Definition fetch {A} (format : Response → option A) (endpoint : string)
           (params : Params) (s : State) : option A * State :=
  let '(r, s') := request api endpoint params s in (r ≫= format, s').

Definition page_param (page : Z) : Params := [("page", JNum (inject_Z page))].

Definition getPopularMovies (page : Z) :=
  fetch formatMoviesResponse "/movie/popular" (page_param page).

Definition getPopularTVShows (page : Z) :=
  fetch formatTVResponse "/tv/popular" (page_param page).

Definition getNowPlayingMovies :=
  fetch formatMoviesResponse "/movie/now_playing" [].

Definition getUpcomingMovies :=
  fetch formatMoviesResponse "/movie/upcoming" [].

Definition getTopRatedMovies (page : Z) :=
  fetch formatMoviesResponse "/movie/top_rated" (page_param page).

Definition getTopRatedTVShows (page : Z) :=
  fetch formatTVResponse "/tv/top_rated" (page_param page).

Definition discover_defaults : Params :=
  [("sort_by", JStr "popularity.desc"); ("include_adult", JBool false)].

Definition discoverMovies (options : Params) :=
  fetch formatMoviesResponse "/discover/movie" (spread discover_defaults options).

Definition discoverTVShows (options : Params) :=
  fetch formatTVResponse "/discover/tv" (spread discover_defaults options).

Definition getTrending (mediaType timeWindow : string) :=
  fetch formatSearchResponse ("/trending/" +:+ mediaType +:+ "/" +:+ timeWindow) [].

Definition movie_calls (tmdbId : Z) : list (string * Params) :=
  let base := "/movie/" +:+ pretty tmdbId in
  [(base, [("append_to_response", JStr "keywords,release_dates")]);
   (base +:+ "/credits", []);
   (base +:+ "/videos", []);
   (base +:+ "/watch/providers", []);
   (base +:+ "/keywords", []);
   (base +:+ "/release_dates", [])].

Definition tv_calls (tmdbId : Z) : list (string * Params) :=
  let base := "/tv/" +:+ pretty tmdbId in
  [(base, [("append_to_response", JStr "keywords,content_ratings")]);
   (base +:+ "/credits", []);
   (base +:+ "/videos", []);
   (base +:+ "/watch/providers", []);
   (base +:+ "/keywords", [])].

Definition getMovieDetails (tmdbId : Z) (s : State) : option Details.t * State :=
  let '(answers, s') := Promise_all api (movie_calls tmdbId) s in
  (answers ≫= formatMovieDetails, s').

Definition getTVDetails (tmdbId : Z) (s : State) : option Details.t * State :=
  let '(answers, s') := Promise_all api (tv_calls tmdbId) s in
  (answers ≫= formatTVDetails, s').

(** The answers a job gets from a client whose cache holds nothing
    that the remote API would not answer now: those of a cold client. *)
Definition service : tmdbService.t :=
  {| tmdbService.getPopularMovies page := fst (getPopularMovies page cold);
     tmdbService.getPopularTVShows page := fst (getPopularTVShows page cold);
     tmdbService.getNowPlayingMovies := fst (getNowPlayingMovies cold);
     tmdbService.getUpcomingMovies := fst (getUpcomingMovies cold);
     tmdbService.getTopRatedMovies := fst (getTopRatedMovies 1 cold);
     tmdbService.getTopRatedTVShows := fst (getTopRatedTVShows 1 cold);
     tmdbService.discoverMovies options := fst (discoverMovies options cold);
     tmdbService.discoverTVShows options := fst (discoverTVShows options cold);
     tmdbService.getTrending mediaType timeWindow := fst (getTrending mediaType timeWindow cold);
     tmdbService.getMovieDetails tmdbId := fst (getMovieDetails tmdbId cold);
     tmdbService.getTVDetails tmdbId := fst (getTVDetails tmdbId cold) |}.

End Operations.

End TMDBService.

(** ** Field updates of documents and counters *)

Definition with_flags (active trend : bool) (t : Z) (m : Doc) : Doc :=
  {| tmdbId := tmdbId m; title := title m; slug := slug m; type := type m;
     description := description m; genre := genre m; rating := rating m;
     embedUrl := embedUrl m; popularity := popularity m;
     analytics := analytics m; isActive := active; featured := featured m;
     trending := trend; createdAt := createdAt m; updatedAt := t;
     lastSyncAt := lastSyncAt m |}.

(** [{ trending: b }] *)
Definition set_trending (b : bool) (m : Doc) : Doc :=
  with_flags (isActive m) b (updatedAt m) m.

(** [{ trending: b, updatedAt: t }] *)
Definition set_trending_at (b : bool) (t : Z) (m : Doc) : Doc :=
  with_flags (isActive m) b t m.

(** [{ isActive: b, updatedAt: t }] *)
Definition set_isActive_at (b : bool) (t : Z) (m : Doc) : Doc :=
  with_flags b (trending m) t m.

Definition with_internal (s : Score) (r : Rating) : Rating :=
  {| ageRating := ageRating r; tmdb := tmdb r; internal := s |}.

(** The document that [data] describes, with [analytics], [createdAt],
    [lastSyncAt], [updatedAt] and [rating.internal] as given. *)
Definition with_kept (a : Analytics) (internal' : Score) (created synced upd : Z)
           (data : Doc) : Doc :=
  {| tmdbId := tmdbId data; title := title data; slug := slug data;
     type := type data; description := description data; genre := genre data;
     rating := with_internal internal' (rating data);
     embedUrl := embedUrl data; popularity := popularity data;
     analytics := a; isActive := isActive data; featured := featured data;
     trending := trending data; createdAt := created; updatedAt := upd;
     lastSyncAt := synced |}.

Definition no_analytics : Analytics :=
  {| views := 0; uniqueViews := 0; totalWatchTime := 0 |}.

Definition add_stats (movies series_ animes upd errs : Z) (s : Stats) : Stats :=
  {| totalSynced := totalSynced s;
     moviesAdded := moviesAdded s + movies;
     seriesAdded := seriesAdded s + series_;
     animesAdded := animesAdded s + animes;
     updated := updated s + upd;
     errors := errors s + errs;
     startTime := startTime s;
     endTime := endTime s |}.

Definition count_error : M unit :=
  modify (λ w, set_stats (add_stats 0 0 0 0 1 (stats w)) w).

Definition day : Z := 24 * 60 * 60 * 1000.

(** [for (let i = 0; i < xs.length; i += size) xs.slice(i, i + size)] *)
Fixpoint slices {A} (fuel : nat) (size : nat) (xs : list A) : list (list A) :=
  match fuel, xs with
  | O, _ | _, [] => []
  | S fuel', _ => take size xs :: slices fuel' size (drop size xs)
  end.

(** ** The catalog job of the backend: [backend/src/jobs/syncCatalog.js] *)

Module CatalogSyncer.

Definition maxPagesPerSync : nat := 20.
Definition minRating : Q := 6.
Definition maxItemsPerGenre : nat := 50.
Definition apiDelay : Z := 250.
Definition batchSize : nat := 10.
Definition priorityGenres_movies : list Z := [28; 35; 18; 53; 878; 27; 12; 14].
Definition priorityGenres_tv : list Z := [18; 35; 80; 10759; 9648; 16].

Section Job.

Variable svc : tmdbService.t.
Variable slug_package : string → string.

(** The object that [convertTMDBToMediaFormat] builds when
    [new Date()] is [t].  [analytics] is absent from it; the value
    here is what the schema defaults give to a new document. *)
Definition mediaFormat (t : Z) (details : Details.t) : Doc :=
  {| tmdbId := Details.tmdbId details;
     title := Details.title details;
     slug := generateSlug (Details.title details);
     type := Details.type details;
     description := Details.description details;
     genre := Details.genre details;
     rating := {| ageRating := Details.ageRating details;
                  tmdb := Details.rating details;
                  internal := {| average := 0; count := 0 |} |};
     embedUrl := if type_eqb (Details.type details) movie
                 then "/embed/movie/" +:+ pretty (Details.tmdbId details)
                 else "/embed/series/" +:+ pretty (Details.tmdbId details);
     popularity := Details.popularity details;
     analytics := no_analytics;
     isActive := true;
     featured := gt (Details.popularity details) 50;
     trending := false;
     createdAt := t;
     updatedAt := t;
     lastSyncAt := t |}.

(** [convertTMDBToMediaFormat] *)
Definition convertTMDBToMediaFormat (details : Details.t) : M Doc :=
  t <- now ;; ret (mediaFormat t details).

Definition fetchDetails (ty : MediaType) (tmdbId : Z) : M Details.t :=
  if type_eqb ty movie
  then Await.getMovieDetails svc tmdbId
  else Await.getTVDetails svc tmdbId.

(** One turn of the loop of [processBatch]: the new value of
    [processed].  [continue] skips the delay at the end of the turn. *)
Definition processItem (ty : MediaType) (processed : Z) (item : Summary.t) : M Z :=
  r <- try_catch
         (exists_ <- Media.findByTmdbId (Summary.tmdbId item) ty ;;
          match exists_ with
          | Some _ => ret (processed, true)
          | None =>
              details <- fetchDetails ty (Summary.tmdbId item) ;;
              mediaData <- convertTMDBToMediaFormat details ;;
              _ <- Media.save slug_package mediaData ;;
              ret (processed + 1, false)
          end)
         (λ _, count_error ;;; ret (processed, false)) ;;
  if snd r then ret (fst r) else (delay 100 ;;; ret (fst r)).

(** [processBatch] *)
Definition processBatch (items : list Summary.t) (ty : MediaType) : M Z :=
  for_of items 0 (processItem ty).

Definition admitted (item : Summary.t) : bool :=
  geq (average (Summary.rating item)) minRating.

Definition is_type (ty : MediaType) (item : Summary.t) : bool :=
  type_eqb (Summary.type item) ty.

(** The page loop shared by [syncPopularMovies] and
    [syncPopularSeries]: [keep] is the test that pushes an entry on
    [batch]. *)
Definition syncPages (getPage : Z → M (list Summary.t))
           (keep : Summary.t → bool) (ty : MediaType) : M Z :=
  for_of (seqZ 1 (Z.of_nat maxPagesPerSync)) 0 (λ added page,
    results <- getPage page ;;
    r <- for_of results ([], added) (λ st item,
           let batch := if keep item then (fst st ++ [item])%list else fst st in
           if (batchSize <=? length batch)%nat
           then (processed <- processBatch batch ty ;;
                 ret ([], snd st + processed))
           else ret (batch, snd st)) ;;
    added' <- (if (0 <? length (fst r))%nat
               then (processed <- processBatch (fst r) ty ;;
                     ret (snd r + processed))
               else ret (snd r)) ;;
    delay apiDelay ;;;
    ret added').

Definition syncPopularMovies : M unit :=
  try_catch
    (moviesAdded <- syncPages (Await.getPopularMovies svc) admitted movie ;;
     nowPlaying <- Await.getNowPlayingMovies svc ;;
     nowPlayingProcessed <-
       processBatch (take 50 (List.filter admitted nowPlaying)) movie ;;
     topRated <- Await.getTopRatedMovies svc ;;
     topRatedProcessed <- processBatch (take 30 topRated) movie ;;
     modify (λ w, set_stats
       (add_stats (moviesAdded + nowPlayingProcessed + topRatedProcessed)
                  0 0 0 0 (stats w)) w))
    (λ _, count_error).

Definition syncPopularSeries : M unit :=
  try_catch
    (seriesAdded <- syncPages (Await.getPopularTVShows svc)
                      (λ item, admitted item && is_type series item) series ;;
     topRated <- Await.getTopRatedTVShows svc ;;
     topRatedProcessed <-
       processBatch (take 30 (List.filter (is_type series) topRated)) series ;;
     modify (λ w, set_stats
       (add_stats 0 (seriesAdded + topRatedProcessed) 0 0 0 (stats w)) w))
    (λ _, count_error).

Definition anime_query : Params :=
  [("with_genres", JNum 16); ("with_origin_country", JStr "JP");
   ("sort_by", JStr "popularity.desc"); ("vote_average.gte", JNum (65 # 10));
   ("page", JNum 1)].

Definition syncPopularAnimes : M unit :=
  try_catch
    (animes <- Await.discoverTVShows svc anime_query ;;
     processed <- processBatch (take 100 (List.filter (is_type anime) animes)) anime ;;
     trendingAnimes <- Await.getTrending svc "tv" "week" ;;
     trendingProcessed <-
       processBatch (take 20 (List.filter (is_type anime) trendingAnimes)) anime ;;
     modify (λ w, set_stats
       (add_stats 0 0 (processed + trendingProcessed) 0 0 (stats w)) w))
    (λ _, count_error).

Definition genre_query (genreId : Z) : Params :=
  [("with_genres", JNum (inject_Z genreId)); ("vote_average.gte", JNum minRating);
   ("sort_by", JStr "popularity.desc"); ("page", JNum 1)].

Definition syncByGenres : M unit :=
  try_catch
    (for_of priorityGenres_movies tt (λ _ genreId,
       movies <- Await.discoverMovies svc (genre_query genreId) ;;
       _ <- processBatch (List.filter admitted (take maxItemsPerGenre movies)) movie ;;
       delay apiDelay) ;;;
     for_of priorityGenres_tv tt (λ _ genreId,
       shows <- Await.discoverTVShows svc (genre_query genreId) ;;
       _ <- processBatch
              (List.filter (λ show, admitted show && is_type series show)
                           (take maxItemsPerGenre shows)) series ;;
       delay apiDelay))
    (λ _, count_error).

Definition brazil_query : Params :=
  [("with_origin_country", JStr "BR"); ("sort_by", JStr "popularity.desc");
   ("vote_average.gte", JNum 5); ("page", JNum 1)].

Definition syncBrazilianContent : M unit :=
  try_catch
    (brazilianMovies <- Await.discoverMovies svc brazil_query ;;
     _ <- processBatch (take 50 brazilianMovies) movie ;;
     brazilianSeries <- Await.discoverTVShows svc brazil_query ;;
     _ <- processBatch (take 30 (List.filter (is_type series) brazilianSeries)) series ;;
     ret tt)
    (λ _, count_error).

(** One turn of the loop of [syncTrendingContent]: the new value of
    [trendingIds]. *)
Definition trendingItem (trendingIds : list nat) (item : Summary.t) : M (list nat) :=
  exists_ <- Media.findByTmdbId (Summary.tmdbId item) (Summary.type item) ;;
  match exists_ with
  | Some (id, _) => ret (trendingIds ++ [id])%list
  | None =>
      processed <- processBatch [item] (Summary.type item) ;;
      if 0 <? processed then
        newMedia <- Media.findByTmdbId (Summary.tmdbId item) (Summary.type item) ;;
        match newMedia with
        | Some (id, _) => ret (trendingIds ++ [id])%list
        | None => ret trendingIds
        end
      else ret trendingIds
  end.

Definition syncTrendingContent : M unit :=
  try_catch
    (Media.updateMany [] (set_trending false) ;;;
     trendingWeek <- Await.getTrending svc "all" "week" ;;
     trendingIds <- for_of (take 50 trendingWeek) [] trendingItem ;;
     t <- now ;;
     Media.updateMany [Media.id_in trendingIds] (set_trending_at true t))
    (λ _, count_error).

(** One turn of the inner loop of [updateExistingContent]; [media] is
    the document as [Media.find] returned it, [id] its [_id]. *)
Definition updateItem (updated : Z) (entry : nat * Doc) : M Z :=
  let '(id, media) := entry in
  try_catch
    (updatedDetails <- fetchDetails (type media) (tmdbId media) ;;
     updateData <- convertTMDBToMediaFormat updatedDetails ;;
     synced <- now ;;
     upd <- now ;;
     Media.findByIdAndUpdate id
       (λ _, with_kept (analytics media) (internal (rating updateData))
                       (createdAt media) synced upd updateData) ;;;
     ret (updated + 1))
    (λ _, ret updated).

Definition updateExistingContent : M unit :=
  try_catch
    (t <- now ;;
     existingMedia <-
       Media.find [Media.tmdbId_exists; Media.lastSyncAt_lt (t - 7 * day)] 200 ;;
     updated <- for_of (slices (length existingMedia) batchSize existingMedia) 0
                  (λ updated batch,
                     updated' <- for_of batch updated updateItem ;;
                     delay (apiDelay * Z.of_nat batchSize) ;;;
                     ret updated') ;;
     modify (λ w, set_stats (add_stats 0 0 0 updated 0 (stats w)) w))
    (λ _, count_error).

Definition obsolete (t : Z) : Media.Filter :=
  [Media.isActive_is true; Media.views_lt 5;
   Media.createdAt_lt (t - 365 * day); Media.tmdb_average_lt 5].

Definition cleanupObsoleteContent : M unit :=
  try_catch
    (cutoff <- now ;;
     t <- now ;;
     Media.updateMany (obsolete cutoff) (set_isActive_at false t))
    (λ _, count_error).

Definition resetStats : M unit :=
  t <- now ;;
  modify (set_stats
    {| totalSynced := 0; moviesAdded := 0; seriesAdded := 0; animesAdded := 0;
       updated := 0; errors := 0; startTime := Some t; endTime := None |}).

Definition stamp_end : M unit :=
  t <- now ;;
  modify (λ w, set_stats
    {| totalSynced := totalSynced (stats w); moviesAdded := moviesAdded (stats w);
       seriesAdded := seriesAdded (stats w); animesAdded := animesAdded (stats w);
       updated := updated (stats w); errors := errors (stats w);
       startTime := startTime (stats w); endTime := Some t |} w).

(** [fullSync]; [sendSyncStats] only reads and logs. *)
Definition fullSync : M unit :=
  running <- gets isRunning ;;
  if running then ret tt
  else
    modify (set_isRunning true) ;;;
    resetStats ;;;
    try_finally
      (try_catch
         (syncPopularMovies ;;;
          syncPopularSeries ;;;
          syncPopularAnimes ;;;
          syncByGenres ;;;
          syncBrazilianContent ;;;
          syncTrendingContent ;;;
          updateExistingContent ;;;
          cleanupObsoleteContent ;;;
          stamp_end)
         (λ _, count_error))
      (modify (set_isRunning false)).

Definition syncNewReleases : M unit :=
  running <- gets isRunning ;;
  if running then ret tt
  else
    modify (set_isRunning true) ;;;
    try_finally
      (try_catch
         (upcomingMovies <- Await.getUpcomingMovies svc ;;
          nowPlayingMovies <- Await.getNowPlayingMovies svc ;;
          _ <- processBatch
                 (take 20 (List.filter (λ m, geq (average (Summary.rating m)) 6)
                                       nowPlayingMovies)) movie ;;
          _ <- processBatch
                 (take 10 (List.filter (λ m, geq (average (Summary.rating m)) 7)
                                       upcomingMovies)) movie ;;
          ret tt)
         (λ _, ret tt))
      (modify (set_isRunning false)).

End Job.

End CatalogSyncer.

(** ** The aggregator of the scripts: [services/contentAggregator.js] *)

Module ContentAggregator.

(** [this.genreMapping] *)
Definition genreMapping (id : Z) : option string :=
  match id with
  | 28 => Some "Acao"
  | 12 => Some "Aventura"
  | 16 => Some "Animacao"
  | 35 => Some "Comedia"
  | 80 => Some "Crime"
  | 99 => Some "Documentario"
  | 18 => Some "Drama"
  | 10751 => Some "Familia"
  | 14 => Some "Fantasia"
  | 36 => Some "Historia"
  | 27 => Some "Terror"
  | 10402 => Some "Musica"
  | 9648 => Some "Misterio"
  | 10749 => Some "Romance"
  | 878 => Some "Ficcao Cientifica"
  | 10770 => Some "Filme para TV"
  | 53 => Some "Thriller"
  | 10752 => Some "Guerra"
  | 37 => Some "Faroeste"
  | 10759 => Some "Acao & Aventura"
  | 10762 => Some "Infantil"
  | 10763 => Some "Noticias"
  | 10764 => Some "Reality"
  | 10765 => Some "Sci-Fi & Fantasy"
  | 10766 => Some "Novela"
  | 10767 => Some "Talk Show"
  | 10768 => Some "Guerra & Politica"
  | _ => None
  end.

(** [mapGenres]: identifiers without an entry are dropped. *)
Definition mapGenres (genreIds : list Z) : list string :=
  omap genreMapping genreIds.

Section Aggregator.

Variable svc : tmdbService.t.
Variable slug_package : string → string.

(** The object that [convertMovieToMediaFormat] ([ty = movie]) and
    [convertTVToMediaFormat] ([ty = series]) build when [new Date()]
    is [t]; the two differ in the fixed [type] and the embed path. *)
Definition mediaFormat (ty : MediaType) (t : Z) (details : Details.t) : Doc :=
  {| tmdbId := Details.tmdbId details;
     title := Details.title details;
     slug := generateSlug (Details.title details);
     type := ty;
     description := Details.description details;
     genre := mapGenres (Details.genreIds details);
     rating := {| ageRating := Details.ageRating details;
                  tmdb := Details.rating details;
                  internal := {| average := 0; count := 0 |} |};
     embedUrl := if type_eqb ty movie
                 then "/embed/movie/" +:+ pretty (Details.tmdbId details)
                 else "/embed/series/" +:+ pretty (Details.tmdbId details);
     popularity := Details.popularity details;
     analytics := no_analytics;
     isActive := true;
     featured := gt (Details.popularity details) 50;
     trending := gt (Details.popularity details) 100;
     createdAt := t;
     updatedAt := t;
     lastSyncAt := t |}.

Definition convertToMediaFormat (ty : MediaType) (details : Details.t) : M Doc :=
  t <- now ;; ret (mediaFormat ty t details).

Definition convertMovieToMediaFormat := convertToMediaFormat movie.
Definition convertTVToMediaFormat := convertToMediaFormat series.

Definition fetchDetails (ty : MediaType) (tmdbId : Z) : M Details.t :=
  if type_eqb ty movie
  then Await.getMovieDetails svc tmdbId
  else Await.getTVDetails svc tmdbId.

(** [processAndSaveMovie] ([ty = movie]) and [processAndSaveTVShow]
    ([ty = series]): the [_id] of the document found or saved, [None]
    for [null].  The record of the source also carries [streamingInfo],
    whose [subtitles] are strings where the schema of
    [backend/src/models/Media.js] has sub-documents; a [Doc] leaves the
    path out, so [Media.save] decides here by the required texts and the
    unique indexes alone, and stores at least what the code stores. *)
Definition processAndSave (ty : MediaType) (tmdbId : Z) : M (option nat) :=
  try_catch
    (existingMedia <- Media.findOne [Media.tmdbId_is tmdbId; Media.type_is ty] ;;
     match existingMedia with
     | Some (id, _) => ret (Some id)
     | None =>
         details <- fetchDetails ty tmdbId ;;
         mediaData <- convertToMediaFormat ty details ;;
         id <- Media.save slug_package mediaData ;;
         ret (Some id)
     end)
    (λ _, ret None).

Definition processAndSaveMovie := processAndSave movie.
Definition processAndSaveTVShow := processAndSave series.

(** One turn of the loop of [updateExistingContent].  The update
    carries no [analytics]: the stored value stays.  As for
    [processAndSave], the [streamingInfo] of the update is left out. *)
Definition updateItem (updated : Z) (entry : nat * Doc) : M Z :=
  let '(id, media) := entry in
  try_catch
    ((if type_eqb (type media) movie || type_eqb (type media) series then
        updatedDetails <- fetchDetails (type media) (tmdbId media) ;;
        updatedData <- convertToMediaFormat (type media) updatedDetails ;;
        Media.findByIdAndUpdate id
          (λ stored, with_kept (analytics stored) (internal (rating media))
                               (createdAt media) (lastSyncAt updatedData)
                               (updatedAt updatedData) updatedData)
      else ret tt) ;;;
     delay 300 ;;;
     ret (updated + 1))
    (λ _, ret updated).

(** [updateExistingContent]: the number of documents counted as
    updated; an exception outside the loop is thrown again. *)
Definition updateExistingContent : M Z :=
  t <- now ;;
  existingMedia <-
    Media.find [Media.tmdbId_exists; Media.lastSyncAt_lt (t - 7 * day)] 100 ;;
  for_of existingMedia 0 updateItem.

End Aggregator.

End ContentAggregator.

(** ** The command-line job: [scripts/syncCatalog.js]

    The script loads its model from [../models/Media]; the paths
    [tmdbId], [type], [trending], [isActive], [rating], [analytics] and
    [createdAt] of its queries are read here as those of
    [backend/src/models/Media.js]. *)

Module Scripts.

Section Job.

Variable svc : tmdbService.t.

(** The literal that the query gives for [rating]:
    [{ 'tmdb.average': { $lt: 5.0 } }]. *)
Definition rating_literal : Json :=
  JObj [("tmdb.average", JObj [("$lt", JNum 5)])].

Definition obsolete (t : Z) : Media.Filter :=
  [Media.isActive_is true; Media.views_lt 10;
   Media.createdAt_lt (t - 365 * day); Media.rating_is rating_literal].

Definition cleanupObsoleteContent : M unit :=
  try_catch
    (cutoff <- now ;;
     t <- now ;;
     Media.updateMany (obsolete cutoff) (set_isActive_at false t))
    (λ _, count_error).

Definition syncTrendingContent : M unit :=
  running <- gets isRunning ;;
  if running then ret tt
  else
    modify (set_isRunning true) ;;;
    try_finally
      (try_catch
         (Media.updateMany [] (set_trending false) ;;;
          trendingMovies <- Await.getPopularMovies svc 1 ;;
          t <- now ;;
          Media.updateMany
            [Media.tmdbId_in (Summary.tmdbId <$> take 20 trendingMovies);
             Media.type_is movie]
            (set_trending_at true t) ;;;
          trendingSeries <- Await.getPopularTVShows svc 1 ;;
          t' <- now ;;
          Media.updateMany
            [Media.tmdbId_in (Summary.tmdbId <$> take 20 trendingSeries);
             Media.type_is series]
            (set_trending_at true t'))
         (λ _, ret tt))
      (modify (set_isRunning false)).

Definition updateExistingContent : M unit :=
  try_catch
    (updated <- ContentAggregator.updateExistingContent svc ;;
     modify (λ w, set_stats (add_stats 0 0 0 updated 0 (stats w)) w))
    (λ _, count_error).

End Job.

End Scripts.

(** ** The aggregator: the synchronisation loops

    [syncCatalog], [syncMovies], [syncTVShows] and [syncNewReleases] of
    [services/contentAggregator.js]. *)

Module ContentAggregatorSync.

Section Sync.

Variable svc : tmdbService.t.
Variable slug_package : string → string.

Definition genre_options (genreId : Z) (minRating : Q) : Params :=
  [("with_genres", JNum (inject_Z genreId)); ("vote_average.gte", JNum minRating);
   ("page", JNum 1)].

(** The body shared by [syncMovies] ([ty = movie]) and [syncTVShows]
    ([ty = series]), which differ in the listings they read and in the
    function that saves. *)
Definition syncListings (ty : MediaType) (getPopular : Z → M (list Summary.t))
           (discover : Params → M (list Summary.t))
           (maxPages : Z) (genres : list Z) (minRating : Q) : M Z :=
  total <- for_of (seqZ 1 maxPages) 0 (λ total page,
             popular <- getPopular page ;;
             total' <- for_of popular total (λ total item,
                         if geq (average (Summary.rating item)) minRating
                         then (_ <- ContentAggregator.processAndSave svc slug_package ty
                                      (Summary.tmdbId item) ;;
                               ret (total + 1))
                         else ret total) ;;
             delay 200 ;;;
             ret total') ;;
  if (0 <? length genres)%nat
  then for_of genres total (λ total genreId,
         listing <- discover (genre_options genreId minRating) ;;
         total' <- for_of (take 20 listing) total (λ total item,
                     _ <- ContentAggregator.processAndSave svc slug_package ty
                            (Summary.tmdbId item) ;;
                     ret (total + 1)) ;;
         delay 200 ;;;
         ret total')
  else ret total.

Definition syncMovies : Z → list Z → Q → M Z :=
  syncListings movie (Await.getPopularMovies svc) (Await.discoverMovies svc).

Definition syncTVShows : Z → list Z → Q → M Z :=
  syncListings series (Await.getPopularTVShows svc) (Await.discoverTVShows svc).

(** [syncCatalog(options)]: the value of [totalSynced]. *)
Definition syncCatalog (includeMovies includeTVShows : bool)
           (maxPages : Z) (genres : list Z) (minRating : Q) : M Z :=
  totalSynced <- (if includeMovies
                  then (n <- syncMovies maxPages genres minRating ;; ret (0 + n))
                  else ret 0) ;;
  if includeTVShows
  then (n <- syncTVShows maxPages genres minRating ;; ret (totalSynced + n))
  else ret totalSynced.

(** One turn of a loop of [syncNewReleases]. *)
Definition releaseItem (threshold : Q) (newReleases : Z) (item : Summary.t) : M Z :=
  existing <- Media.findOne [Media.tmdbId_is (Summary.tmdbId item); Media.type_is movie] ;;
  n <- (if negb (bool_decide (is_Some existing))
           && geq (average (Summary.rating item)) threshold
        then (_ <- ContentAggregator.processAndSaveMovie svc slug_package
                     (Summary.tmdbId item) ;;
              ret (newReleases + 1))
        else ret newReleases) ;;
  delay 200 ;;;
  ret n.

Definition syncNewReleases : M Z :=
  upcomingMovies <- Await.getUpcomingMovies svc ;;
  nowPlayingMovies <- Await.getNowPlayingMovies svc ;;
  newReleases <- for_of (take 20 nowPlayingMovies) 0 (releaseItem 6) ;;
  for_of (take 10 upcomingMovies) newReleases (releaseItem 7).

End Sync.

End ContentAggregatorSync.

(** ** Engagement of a document

    The method [updateRating] of [backend/src/models/Media.js]. *)

Module MediaDocument.

(** An entry of [analytics.ratings]. *)
Record RatingEntry := { userId : string; rating : Q }.

(** An entry of [analytics.viewHistory]; [viewer] is [None] for a
    view without a user. *)
Record View := { viewer : option string; duration : Q; quality : string }.

(** The paths of [analytics] and [rating.internal] of a document. *)
Record t := {
  ratings : list RatingEntry;
  viewHistory : list View;
  views : Z;
  uniqueViews : Z;
  totalWatchTime : Q;
  averageWatchTime : Q;
  internal : Score
}.





End MediaDocument.

(** ** Where a title can be watched

    [formatWatchProviders] of the service of the backend. *)

Module WatchProviders.

Record Provider := { provider_id : Z; provider_name : string }.

(** [watchProviders.results?.BR] *)
Record t := {
  flatrate : option (list Provider);
  rent : option (list Provider);
  buy : option (list Provider)
}.

(** [this.providerMapping] of the service of the backend. *)
Definition providerMapping (id : Z) : option string :=
  match id with
  | 8 => Some "Netflix"
  | 119 => Some "Amazon Prime Video"
  | 337 => Some "Disney+"
  | 384 => Some "HBO Max"
  | 307 => Some "Globoplay"
  | 619 => Some "Paramount+"
  | 350 => Some "Apple TV+"
  | 283 => Some "Crunchyroll"
  | 26 => Some "Telecine Play"
  | 531 => Some "Paramount+ Amazon Channel"
  | 1899 => Some "Max Amazon Channel"
  | _ => None
  end.

(** [this.providerMapping[p.provider_id] || p.provider_name] *)
Definition label (p : Provider) : string :=
  match providerMapping (provider_id p) with
  | Some n => n
  | None => provider_name p
  end.

(** [[...new Set(xs)]]: the first occurrence of every value, in order;
    [seen] holds the values already in the set. *)
Fixpoint Set_spread (seen xs : list string) : list string :=
  match xs with
  | [] => []
  | x :: xs' =>
      if bool_decide (x ∈ seen) then Set_spread seen xs'
      else x :: Set_spread (x :: seen) xs'
  end.

(** [x || []] *)
Definition or_empty {A} (x : option (list A)) : list A := default [] x.

Definition allProviders (providers : t) : list Provider :=
  (or_empty (flatrate providers) ++ or_empty (rent providers)
   ++ or_empty (buy providers))%list.

Definition formatWatchProviders (providers : option t) : list string :=
  match providers with
  | None => []
  | Some p => Set_spread [] (label <$> allProviders p)
  end.

End WatchProviders.

(** ** The service of the scripts: search listings

    [formatSearchResponse] of [services/tmdbService.js]. *)

Module RootTMDBService.

(** An entry of the listing that [formatSearchResponse] returns:
    [type] is a string there, and an entry that is neither a movie nor
    a show has no [title]. *)
Record SearchItem := {
  tmdbId : Z;
  type : string;
  title : option string;
  popularity : Q
}.

Definition baseItem (item : TMDBService.Raw) : SearchItem :=
  {| tmdbId := TMDBService.id item;
     type := TMDBService.media_type item;
     title := None;
     popularity := TMDBService.popularity item |}.

Definition formatSearchItem (item : TMDBService.Raw) : SearchItem :=
  if String.eqb (TMDBService.media_type item) "movie"
  then {| tmdbId := tmdbId (baseItem item);
          type := type (baseItem item);
          title := Some (TMDBService.title item);
          popularity := popularity (baseItem item) |}
  else if String.eqb (TMDBService.media_type item) "tv"
       then {| tmdbId := tmdbId (baseItem item);
               type := "series";
               title := Some (TMDBService.name item);
               popularity := popularity (baseItem item) |}
       else baseItem item.

Definition formatSearchResponse (data : TMDBService.Response) : option (list SearchItem) :=
  match data with
  | TMDBService.Listing results =>
      Some (List.filter (λ item, negb (String.eqb (type item) "person"))
                        (formatSearchItem <$> results))
  | _ => None
  end.

End RootTMDBService.

(** ** The aggregator: [extractAvailableProviders] *)

Module AvailableProviders.

Record Provider := { providerId : Z; providerName : string }.

Record t := {
  flatrate : option (list Provider);
  rent : option (list Provider)
}.

(** [this.providerMapping] of the aggregator. *)
Definition providerMapping (id : Z) : option string :=
  match id with
  | 8 => Some "Netflix"
  | 119 => Some "Amazon Prime Video"
  | 337 => Some "Disney+"
  | 384 => Some "HBO Max"
  | 307 => Some "Globoplay"
  | 619 => Some "Paramount+"
  | 350 => Some "Apple TV+"
  | 283 => Some "Crunchyroll"
  | 26 => Some "Telecine"
  | _ => None
  end.

Definition providerName_of (p : Provider) : string :=
  match providerMapping (providerId p) with
  | Some n => n
  | None => providerName p
  end.

(** One turn of the [forEach] over [watchProviders.rent]. *)
Definition pushRent (providers : list string) (p : Provider) : list string :=
  if bool_decide (providerName_of p ∈ providers) then providers
  else (providers ++ [providerName_of p +:+ " (Aluguel)"])%list.

Definition extractAvailableProviders (watchProviders : option t) : list string :=
  match watchProviders with
  | None => []
  | Some wp =>
      let providers := match flatrate wp with
                       | Some ps => providerName_of <$> ps
                       | None => []
                       end in
      match rent wp with
      | Some ps => fold_left pushRent ps providers
      | None => providers
      end
  end.

End AvailableProviders.

(** ** Operations of the backend job, and the states they reach *)

Inductive Operation :=
| FullSync
| SyncNewReleases
| SyncTrending
| UpdateExisting
| CleanupObsolete.

Definition run (svc : tmdbService.t) (slug_package : string → string)
           (op : Operation) : M unit :=
  match op with
  | FullSync => CatalogSyncer.fullSync svc slug_package
  | SyncNewReleases => CatalogSyncer.syncNewReleases svc slug_package
  | SyncTrending => CatalogSyncer.syncTrendingContent svc slug_package
  | UpdateExisting => CatalogSyncer.updateExistingContent svc
  | CleanupObsolete => CatalogSyncer.cleanupObsoleteContent
  end.

(** The states reached from [w0] by running operations, whatever the
    service answers at each of them. *)
Inductive reachable (slug_package : string → string) (w0 : World) : World → Prop :=
| reach_start : reachable slug_package w0 w0
| reach_run w svc op :
    reachable slug_package w0 w →
    reachable slug_package w0 (exec (run svc slug_package op) w).

Definition unique_keys (w : World) : Prop := NoDup (key <$> collection w).

(** The active document that [findByTmdbId] returns from [c]. *)
Definition lookup_key (c : list Doc) (tmdbId : Z) (ty : MediaType) : option (nat * Doc) :=
  Media.findOne_in [Media.tmdbId_is tmdbId; Media.type_is ty; Media.isActive_is true] c.

(** The answer of the detail call that [fetchDetails] makes. *)
Definition details_of (svc : tmdbService.t) (ty : MediaType) (tmdbId : Z) : option Details.t :=
  if type_eqb ty movie then tmdbService.getMovieDetails svc tmdbId
  else tmdbService.getTVDetails svc tmdbId.

Definition details_call (ty : MediaType) (tmdbId : Z) : Call :=
  if type_eqb ty movie then MovieDetails tmdbId else TVDetails tmdbId.

(** The document [processBatch] tries to save for [details] at instant [t]. *)
Definition candidate (slug_package : string → string) (t : Z) (details : Details.t) : Doc :=
  Media.pre_save slug_package t (CatalogSyncer.mediaFormat t details).

(** [save] refuses the candidate: a required text is empty or a unique
    index is violated. *)
Definition refused (slug_package : string → string) (uniqueKey : bool)
           (c : list Doc) (details : Details.t) : bool :=
  negb (Media.valid (candidate slug_package 0 details))
  || Media.conflict uniqueKey None (candidate slug_package 0 details) c.

(** Nothing that [processBatch] does for the entry can add a document:
    an active document is found, or the detail call fails, or the
    candidate is refused. *)
Definition settled (svc : tmdbService.t) (slug_package : string → string)
           (uniqueKey : bool) (c : list Doc) (ty : MediaType) (tmdbId : Z) : Prop :=
  is_Some (lookup_key c tmdbId ty)
  ∨ details_of svc ty tmdbId = None
  ∨ ∃ d, details_of svc ty tmdbId = Some d ∧ refused slug_package uniqueKey c d = true.

(** The listing and the detail calls agree on the key of an entry. *)
Definition consistent (svc : tmdbService.t) (items : list Summary.t) : Prop :=
  ∀ item d, item ∈ items →
    details_of svc (Summary.type item) (Summary.tmdbId item) = Some d →
    Details.tmdbId d = Summary.tmdbId item ∧ Details.type d = Summary.type item.

(** Instants at which the calls logged in [outbound] were issued, oldest
    first. *)
Definition issue_times (s : TMDBService.State) : list Z :=
  snd <$> rev (TMDBService.outbound s).

(** Every two consecutive instants of [ts] are at least [gap] apart. *)
Fixpoint spaced (gap : Z) (ts : list Z) : Prop :=
  match ts with
  | t1 :: ((t2 :: _) as rest) => t1 + gap <= t2 ∧ spaced gap rest
  | _ => True
  end.

(** ** Notions the properties are stated with *)

Definition preserves {A} (I : World → Prop) (m : M A) : Prop :=
  ∀ w, I w → I (exec m w).

Definition indexed (w : World) : Prop :=
  uniqueTmdbIdType w = true ∧ unique_keys w.

(** The world after a turn that ended in the [catch] clause: the detail
    call is logged, the error counted, and the turn's delay has passed. *)
Definition skipped (c : Call) (w : World) : World :=
  let w1 := log_call c w in
  let w2 := set_stats (add_stats 0 0 0 0 1 (stats w1)) w1 in
  set_clock (clock w2 + 100) w2.

(** The world after a turn that saved [m]. *)
Definition added (c : Call) (m : Doc) (w : World) : World :=
  let w1 := log_call c w in
  let w2 := set_collection (collection w1 ++ [m])%list w1 in
  set_clock (clock w2 + 100) w2.

Module Sample.

Definition no_stats : Stats :=
  {| totalSynced := 0; moviesAdded := 0; seriesAdded := 0; animesAdded := 0;
     updated := 0; errors := 0; startTime := None; endTime := None |}.

Definition details (id : Z) (name : string) (avg pop : Q) : Details.t :=
  {| Details.tmdbId := id; Details.title := name; Details.type := movie;
     Details.description := "A film"; Details.genre := ["Drama"];
     Details.genreIds := [18]; Details.ageRating := "L";
     Details.rating := {| average := avg; count := 100 |};
     Details.popularity := pop |}.

Definition summary (id : Z) (name : string) (avg : Q) : Summary.t :=
  {| Summary.tmdbId := id; Summary.title := name; Summary.type := movie;
     Summary.rating := {| average := avg; count := 100 |};
     Summary.popularity := 10 |}.

(** A stored movie: created at instant 0, last synchronised then. *)
Definition stored (id : Z) (name : string) (avg : Q) (active : bool) : Doc :=
  {| tmdbId := id; title := name; slug := generateSlug name; type := movie;
     description := "A film"; genre := ["Drama"];
     rating := {| ageRating := "L";
                  tmdb := {| average := avg; count := 100 |};
                  internal := {| average := 42 # 10; count := 10 |} |};
     embedUrl := "/embed/movie/" +:+ pretty id; popularity := 10;
     analytics := {| views := 2; uniqueViews := 2; totalWatchTime := 0 |};
     isActive := active; featured := false; trending := false;
     createdAt := 0; updatedAt := 0; lastSyncAt := 0 |}.

Definition world (t : Z) (c : list Doc) (index : bool) : World :=
  {| clock := t; collection := c; uniqueTmdbIdType := index;
     stats := no_stats; isRunning := false; calls := [] |}.

(** A service with one popular movie, number 2, called "Foo", while
    movie number 1 is now called "Bar"; every other listing is empty. *)
Definition renamed : tmdbService.t :=
  {| tmdbService.getPopularMovies page :=
       if page =? 1 then Some [summary 2 "Foo" (75 # 10)] else Some [];
     tmdbService.getPopularTVShows _ := Some [];
     tmdbService.getNowPlayingMovies := Some [];
     tmdbService.getUpcomingMovies := Some [];
     tmdbService.getTopRatedMovies := Some [];
     tmdbService.getTopRatedTVShows := Some [];
     tmdbService.discoverMovies _ := Some [];
     tmdbService.discoverTVShows _ := Some [];
     tmdbService.getTrending _ _ := Some [];
     tmdbService.getMovieDetails id :=
       if id =? 1 then Some (details 1 "Bar" (75 # 10) 10)
       else if id =? 2 then Some (details 2 "Foo" (75 # 10) 10)
       else None;
     tmdbService.getTVDetails _ := None |}.

(** A service whose only popular movie is number 1, now called "Bar";
    every other listing is empty. *)
Definition relisted : tmdbService.t :=
  {| tmdbService.getPopularMovies page :=
       if page =? 1 then Some [summary 1 "Bar" (75 # 10)] else Some [];
     tmdbService.getPopularTVShows _ := Some [];
     tmdbService.getNowPlayingMovies := Some [];
     tmdbService.getUpcomingMovies := Some [];
     tmdbService.getTopRatedMovies := Some [];
     tmdbService.getTopRatedTVShows := Some [];
     tmdbService.discoverMovies _ := Some [];
     tmdbService.discoverTVShows _ := Some [];
     tmdbService.getTrending _ _ := Some [];
     tmdbService.getMovieDetails id :=
       if id =? 1 then Some (details 1 "Bar" (75 # 10) 10) else None;
     tmdbService.getTVDetails _ := None |}.

(** Ten days after instant 0, with movie number 1 stored as "Foo",
    deactivated, in a collection on which [createIndexes] never ran. *)
Definition retired_foo : World :=
  world (10 * day) [stored 1 "Foo" (75 # 10) false] false.

(** Ten days after instant 0, with movie number 1 stored as "Foo". *)
Definition stale_foo : World :=
  world (10 * day) [stored 1 "Foo" (75 # 10) true] true.

(** A service that lists movie number 550, rated 7.5, popularity 150,
    as popular, and knows its details. *)
Definition fight_club : tmdbService.t :=
  {| tmdbService.getPopularMovies page :=
       if page =? 1 then Some [summary 550 "Fight Club" (75 # 10)] else Some [];
     tmdbService.getPopularTVShows _ := Some [];
     tmdbService.getNowPlayingMovies := Some [];
     tmdbService.getUpcomingMovies := Some [];
     tmdbService.getTopRatedMovies := Some [];
     tmdbService.getTopRatedTVShows := Some [];
     tmdbService.discoverMovies _ := Some [];
     tmdbService.discoverTVShows _ := Some [];
     tmdbService.getTrending _ _ := Some [];
     tmdbService.getMovieDetails id :=
       if id =? 550 then Some (details 550 "Fight Club" (75 # 10) 150) else None;
     tmdbService.getTVDetails _ := None |}.

(** A service whose weekly trending listing has movie number 550, whose
    details it knows, and movie number 7, whose detail calls fail; movie
    number 550 is also its only popular movie. *)
Definition weekly : tmdbService.t :=
  {| tmdbService.getPopularMovies page :=
       if page =? 1 then Some [summary 550 "Fight Club" (75 # 10)] else Some [];
     tmdbService.getPopularTVShows _ := Some [];
     tmdbService.getNowPlayingMovies := Some [];
     tmdbService.getUpcomingMovies := Some [];
     tmdbService.getTopRatedMovies := Some [];
     tmdbService.getTopRatedTVShows := Some [];
     tmdbService.discoverMovies _ := Some [];
     tmdbService.discoverTVShows _ := Some [];
     tmdbService.getTrending _ _ :=
       Some [summary 550 "Fight Club" (75 # 10); summary 7 "Lost" (75 # 10)];
     tmdbService.getMovieDetails id :=
       if id =? 550 then Some (details 550 "Fight Club" (75 # 10) 150) else None;
     tmdbService.getTVDetails _ := None |}.

Definition raw (n : Z) (name : string) : TMDBService.Raw :=
  {| TMDBService.id := n; TMDBService.media_type := "movie";
     TMDBService.title := name; TMDBService.name := "";
     TMDBService.overview := "A film"; TMDBService.vote_average := 75 # 10;
     TMDBService.vote_count := 100; TMDBService.popularity := 10;
     TMDBService.genre_ids := [18]; TMDBService.genres := [(18, "Drama")];
     TMDBService.origin_country := ["US"]; TMDBService.original_language := "en";
     TMDBService.content_ratings := None |}.

(** A remote API that knows movies 1, 2 and 3, answers in 20 ms, and
    fails on the credits of movie 2. *)
Definition flaky : TMDBService.Remote :=
  {| TMDBService.respond endpoint _ :=
       if String.eqb endpoint "/movie/2/credits" then None
       else if String.eqb endpoint "/movie/1" then Some (TMDBService.Object (raw 1 "Foo"))
       else if String.eqb endpoint "/movie/2" then Some (TMDBService.Object (raw 2 "Bar"))
       else if String.eqb endpoint "/movie/3" then Some (TMDBService.Object (raw 3 "Baz"))
       else Some (TMDBService.Other "");
     TMDBService.latency _ := 20 |}.

End Sample.

(** Every document of [c0] is still at its place in [w], in relation [R]
    with what it was. *)
Definition kept (R : Doc → Doc → Prop) (c0 : list Doc) (w : World) : Prop :=
  ∀ id m, c0 !! id = Some m → ∃ m', collection w !! id = Some m' ∧ R m m'.

(** What the job of the backend keeps. *)
Definition kept_by_job (m m' : Doc) : Prop :=
  createdAt m' = createdAt m ∧ analytics m' = analytics m
  ∧ (m' = m ∨ isActive m' = true).

(** What the aggregator keeps. *)
Definition kept_by_aggregator (m m' : Doc) : Prop :=
  createdAt m' = createdAt m ∧ analytics m' = analytics m
  ∧ internal (rating m') = internal (rating m)
  ∧ (m' = m ∨ isActive m' = true).

(** The three conditions of the cleanup of the backend, on an active
    document, at instant [t]. *)
Definition obsolete_at (t : Z) (m : Doc) : bool :=
  isActive m
  && (views (analytics m) <? 5)
  && (createdAt m <? t - 365 * day)
  && lt (average (tmdb (rating m))) 5.

(** The calls that a detail fetch makes together. *)
Definition sub_fetches (ty : MediaType) (tmdbId : Z) : list (string * Params) :=
  if type_eqb ty movie then TMDBService.movie_calls tmdbId
  else TMDBService.tv_calls tmdbId.

(** No request waits and [processQueue] is not running. *)
Definition idle (s : TMDBService.State) : Prop :=
  TMDBService.requestQueue s = [] ∧ TMDBService.isProcessingQueue s = false.

(** The requests that [makeRequest] queues for [calls]: those that the
    cache of [s] does not answer. *)
Definition misses (s : TMDBService.State) (calls : list (string * Params))
  : list TMDBService.Request :=
  omap (λ call,
          match TMDBService.cache_get (TMDBService.cacheKey (fst call) (snd call)) s with
          | Some _ => None
          | None => Some {| TMDBService.endpoint := fst call;
                            TMDBService.params := snd call;
                            TMDBService.key := TMDBService.cacheKey (fst call) (snd call) |}
          end) calls.

(** The state of an idle client after a request that its cache did not
    answer: the call is logged, the time of the answer has passed, and
    an answer that came is cached. *)
Definition after_request (api : TMDBService.Remote) (e : string) (p : Params)
           (s : TMDBService.State) : TMDBService.State :=
  let answered :=
    TMDBService.tick (snd (TMDBService.axios_get api e p))
      (TMDBService.log_outbound e (TMDBService.set_queue [] true s)) in
  TMDBService.set_queue [] false
    match fst (TMDBService.axios_get api e p) with
    | Some data => TMDBService.cache_set (TMDBService.cacheKey e p) data answered
    | None => answered
    end.

(** No document of [c] is flagged as trending. *)
Definition untrended (c : list Doc) : Prop :=
  ∀ id m, c !! id = Some m → trending m = false.

(** [id] is the record that [findByTmdbId] returns from [c] for an entry
    of [items]. *)
Definition matched (c : list Doc) (items : list Summary.t) (id : nat) : Prop :=
  ∃ item m, item ∈ items
            ∧ lookup_key c (Summary.tmdbId item) (Summary.type item) = Some (id, m).

(** What holds between the turns of the loop of [syncTrendingContent],
    [done] being the entries already seen and [ids] the value of
    [trendingIds]. *)
Definition trend_inv (svc : tmdbService.t) (slug_package : string → string)
           (uk : bool) (c : list Doc) (done : list Summary.t)
           (ids : list nat) : Prop :=
  (∀ id, id ∈ ids ↔ matched c done id)
  ∧ (∀ item, item ∈ done →
       settled svc slug_package uk c (Summary.type item) (Summary.tmdbId item))
  ∧ untrended c.

(** ** Notions of the further properties *)

(** The page loop without batches: every page is one [processBatch] on
    the entries of the page that [keep] retains. *)
Definition syncPages_unbatched (svc : tmdbService.t) (slug_package : string → string)
           (getPage : Z → M (list Summary.t)) (keep : Summary.t → bool)
           (ty : MediaType) : M Z :=
  for_of (seqZ 1 (Z.of_nat CatalogSyncer.maxPagesPerSync)) 0 (λ added page,
    results <- getPage page ;;
    processed <- CatalogSyncer.processBatch svc slug_package (List.filter keep results) ty ;;
    delay CatalogSyncer.apiDelay ;;;
    ret (added + processed)).

(** The fields of [m] that a change of flags leaves alone. *)
Definition same_content (m m' : Doc) : Prop :=
  key m' = key m ∧ title m' = title m ∧ slug m' = slug m
  ∧ rating m' = rating m ∧ analytics m' = analytics m
  ∧ createdAt m' = createdAt m ∧ lastSyncAt m' = lastSyncAt m
  ∧ trending m' = trending m.

Definition untouched_if_recent (cutoff : Z) (m m' : Doc) : Prop :=
  cutoff <= lastSyncAt m → m' = m.

(** [m] only appends documents, and [post a n] holds of its value [a]
    and of the number [n] of documents it appended. *)
Definition grows {A} (m : M A) (post : A → nat → Prop) : Prop :=
  ∀ w, ∃ l, collection (exec m w) = (collection w ++ l)%list
            ∧ ∀ a, result m w = Return a → post a (length l).

(** The detail calls answer with the identifier they were asked for. *)
Definition answers_for_id (svc : tmdbService.t) : Prop :=
  ∀ ty id d, details_of svc ty id = Some d → Details.tmdbId d = id.

(** Every character of [s] passes [p]. *)
Fixpoint all_chars (p : ascii → bool) (s : string) : bool :=
  match s with
  | EmptyString => true
  | String c r => p c && all_chars p r
  end.

(** A character of a slug: lower-case letter, digit or hyphen. *)
Definition slug_char (c : ascii) : bool :=
  is_lower c || is_digit c || Ascii.eqb c "-".

(** No hyphen of [s] follows another; [prev] tells that a hyphen stands
    right before [s]. *)
Fixpoint single_hyphens (prev : bool) (s : string) : bool :=
  match s with
  | EmptyString => true
  | String c r =>
      if Ascii.eqb c "-" then negb prev && single_hyphens true r
      else single_hyphens false r
  end.

Definition word_char (c : ascii) : bool := is_lower c || is_digit c || is_space c.

(** The value of the parameter [k] of [ps]. *)
Definition param (k : string) (ps : Params) : option Json :=
  snd <$> List.find (λ kv, String.eqb (fst kv) k) ps.

(** What a call made on [s] settles to: the cached answer, or the
    answer of the remote API. *)
Definition expected (api : TMDBService.Remote) (s : TMDBService.State)
           (call : string * Params) : option TMDBService.Response :=
  match TMDBService.cache_get (TMDBService.cacheKey (fst call) (snd call)) s with
  | Some v => Some v
  | None => fst (TMDBService.axios_get api (fst call) (snd call))
  end.

Definition answer_of (api : TMDBService.Remote) (r : TMDBService.Request)
  : option TMDBService.Response :=
  fst (TMDBService.axios_get api (TMDBService.endpoint r) (TMDBService.params r)).

Definition listed_kind (item : TMDBService.Raw) : bool :=
  String.eqb (TMDBService.media_type item) "movie"
  || String.eqb (TMDBService.media_type item) "tv".

(** An entry of a search listing that is no person. *)
Definition not_a_person (item : TMDBService.Raw) : bool :=
  negb (String.eqb (TMDBService.media_type item) "person").

(** * Properties *)

(** ** The monad *)

Lemma exec_bind {A B} (m : M A) (k : A → M B) w :
  exec (bind m k) w =
  match result m w with
  | Return a => exec (k a) (exec m w)
  | Throw _ => exec m w
  end.
Proof. unfold exec, result, bind. destruct (m w) as [[a|e] w']; reflexivity. Qed.

Lemma result_bind {A B} (m : M A) (k : A → M B) w :
  result (bind m k) w =
  match result m w with
  | Return a => result (k a) (exec m w)
  | Throw e => Throw e
  end.
Proof. unfold exec, result, bind. destruct (m w) as [[a|e] w']; reflexivity. Qed.

Lemma run_bind_return {A B} (m : M A) (k : A → M B) w a w' :
  m w = (Return a, w') → bind m k w = k a w'.
Proof. intros H. unfold bind. rewrite H. reflexivity. Qed.

Lemma run_bind_throw {A B} (m : M A) (k : A → M B) w e w' :
  m w = (Throw e, w') → bind m k w = (Throw e, w').
Proof. intros H. unfold bind. rewrite H. reflexivity. Qed.

Lemma for_of_app {A S} (xs ys : list A) (s : S) body w :
  for_of (xs ++ ys)%list s body w
  = bind (for_of xs s body) (λ s', for_of ys s' body) w.
Proof.
  revert s w. induction xs as [|x xs IH]; intros s w; simpl.
  - reflexivity.
  - unfold bind. destruct (body s x w) as [[s'|e] w']; [|reflexivity].
    rewrite IH. reflexivity.
Qed.

(** *** Invariants of a job *)

Lemma preserves_ret {A} I (a : A) : preserves I (ret a).
Proof. intros w H. exact H. Qed.

Lemma preserves_throw {A} I e : preserves I (@throw A e).
Proof. intros w H. exact H. Qed.

Lemma preserves_gets {A} I (f : World → A) : preserves I (gets f).
Proof. intros w H. exact H. Qed.

Lemma preserves_await {A} I (p : option A) : preserves I (await p).
Proof. destruct p; intros w H; exact H. Qed.

Lemma preserves_modify I f : (∀ w, I w → I (f w)) → preserves I (modify f).
Proof. intros Hf w H. apply Hf, H. Qed.

Lemma preserves_bind {A B} I (m : M A) (k : A → M B) :
  preserves I m → (∀ a, preserves I (k a)) → preserves I (bind m k).
Proof.
  intros Hm Hk w H. rewrite exec_bind.
  destruct (result m w); [apply Hk|]; apply Hm, H.
Qed.

Lemma preserves_try_catch {A} I (m : M A) h :
  preserves I m → (∀ e, preserves I (h e)) → preserves I (try_catch m h).
Proof.
  intros Hm Hh w H. specialize (Hm w H). unfold exec, try_catch in *.
  destruct (m w) as [[a|e] w']; simpl in *; [exact Hm|].
  apply (Hh e w' Hm).
Qed.

Lemma preserves_try_finally {A} I (m : M A) fin :
  preserves I m → preserves I fin → preserves I (try_finally m fin).
Proof.
  intros Hm Hf w H. specialize (Hm w H). unfold exec, try_finally in *.
  destruct (m w) as [r w']; simpl in *. specialize (Hf w' Hm).
  unfold exec in Hf. destruct (fin w') as [[u|e] w'']; exact Hf.
Qed.

Lemma preserves_for_of {A S} I (xs : list A) (s : S) body :
  (∀ s x, x ∈ xs → preserves I (body s x)) → preserves I (for_of xs s body).
Proof.
  revert s. induction xs as [|x xs IH]; intros s Hb; simpl.
  - apply preserves_ret.
  - apply preserves_bind.
    + apply Hb. left.
    + intros s'. apply IH. intros s0 y Hy. apply Hb. right. exact Hy.
Qed.

Lemma preserves_call {A} I c (answer : option A) :
  (∀ w, I w → I (log_call c w)) → preserves I (Await.call c answer).
Proof.
  intros Hc. apply preserves_bind.
  - apply preserves_modify, Hc.
  - intros _. apply preserves_await.
Qed.

(** Splits a job along its control structure; [leaf] closes the
    primitive steps. *)
Ltac split_job leaf :=
  repeat first
    [ leaf
    | match goal with
      | |- preserves _ (ret _) => apply preserves_ret
      | |- preserves _ (throw _) => apply preserves_throw
      | |- preserves _ (gets _) => apply preserves_gets
      | |- preserves _ (await _) => apply preserves_await
      | |- preserves _ (for_of _ _ _) => apply preserves_for_of; intros
      | |- preserves _ (bind _ _) => apply preserves_bind; [|intros]
      | |- preserves _ (try_catch _ _) => apply preserves_try_catch; [|intros]
      | |- preserves _ (try_finally _ _) => apply preserves_try_finally
      | |- preserves _ (let _ := _ in _) => cbv zeta
      | |- preserves _ (if ?b then _ else _) => destruct b
      | |- preserves _ (match ?x with _ => _ end) => destruct x
      end ].

(** ** The collection *)

Lemma find_from_elem f from c id m :
  (id, m) ∈ Media.find_from f from c ↔
  ∃ j, id = (from + j)%nat ∧ c !! j = Some m ∧ Media.matches f id m = true.
Proof.
  revert from. induction c as [|m0 c IH]; intros from; simpl.
  - split; [intros H; inversion H | intros (j & _ & H & _); destruct j; discriminate].
  - destruct (Media.matches f from m0) eqn:Hm.
    + rewrite elem_of_cons, IH. split.
      * intros [[= -> ->] | (j & -> & Hj & Hf)].
        -- exists 0%nat. rewrite Nat.add_0_r. auto.
        -- exists (S j). rewrite Nat.add_succ_r. auto.
      * intros ([|j] & -> & Hj & Hf); simpl in Hj.
        -- left. rewrite Nat.add_0_r. congruence.
        -- right. exists j. rewrite Nat.add_succ_r in *. auto.
    + rewrite IH. split.
      * intros (j & -> & Hj & Hf). exists (S j). rewrite Nat.add_succ_r. auto.
      * intros ([|j] & -> & Hj & Hf); simpl in Hj.
        -- rewrite Nat.add_0_r in Hf. congruence.
        -- exists j. rewrite Nat.add_succ_r in *. auto.
Qed.

Lemma find_from_app f from c l :
  Media.find_from f from (c ++ l)
  = (Media.find_from f from c ++ Media.find_from f (from + length c) l)%list.
Proof.
  revert from. induction c as [|m0 c IH]; intros from; simpl.
  - rewrite Nat.add_0_r. reflexivity.
  - rewrite IH, Nat.add_succ_r. destruct (Media.matches f from m0); reflexivity.
Qed.

Lemma find_in_lookup f c id m :
  (id, m) ∈ Media.find_in f c → c !! id = Some m ∧ Media.matches f id m = true.
Proof.
  unfold Media.find_in. rewrite find_from_elem. intros (j & -> & Hj & Hm). auto.
Qed.

Lemma findOne_in_Some f c id m :
  Media.findOne_in f c = Some (id, m) →
  c !! id = Some m ∧ Media.matches f id m = true.
Proof.
  unfold Media.findOne_in. intros H. apply find_in_lookup.
  destruct (Media.find_in f c) as [|x l]; simpl in H; [discriminate|].
  injection H as ->. left.
Qed.

Lemma findOne_in_None f c :
  Media.findOne_in f c = None ↔
  ∀ id m, c !! id = Some m → Media.matches f id m = false.
Proof.
  unfold Media.findOne_in, Media.find_in. split.
  - intros H id m Hc. destruct (Media.matches f id m) eqn:Hm; [|reflexivity].
    assert (Hin : (id, m) ∈ Media.find_from f 0 c)
      by (apply find_from_elem; exists id; auto).
    destruct (Media.find_from f 0 c); [inversion Hin | discriminate].
  - intros H. destruct (Media.find_from f 0 c) as [|[id m] l] eqn:E; [reflexivity|].
    assert (Hin : (id, m) ∈ Media.find_from f 0 c) by (rewrite E; left).
    apply find_from_elem in Hin as (j & -> & Hj & Hm). simpl in Hm.
    rewrite (H _ _ Hj) in Hm. discriminate.
Qed.

(** Documents added at the end do not change what [findOne] returns
    when it returns something. *)
Lemma findOne_in_app f c l x :
  Media.findOne_in f c = Some x → Media.findOne_in f (c ++ l) = Some x.
Proof.
  unfold Media.findOne_in, Media.find_in. rewrite find_from_app.
  destruct (Media.find_from f 0 c); [discriminate | auto].
Qed.

Lemma findOne_in_app_None f c l :
  Media.findOne_in f c = None →
  Media.findOne_in f (c ++ l) = head (Media.find_from f (length c) l).
Proof.
  unfold Media.findOne_in, Media.find_in. rewrite find_from_app.
  destruct (Media.find_from f 0 c); [reflexivity | discriminate].
Qed.

Lemma updateMany_in_lookup f set c id :
  Media.updateMany_in f set c !! id
  = (λ m, if Media.matches f id m then set m else m) <$> c !! id.
Proof. unfold Media.updateMany_in. apply list_lookup_imap. Qed.

Lemma updateMany_in_length f set c :
  length (Media.updateMany_in f set c) = length c.
Proof. unfold Media.updateMany_in. apply length_imap. Qed.

Lemma updateMany_in_fmap {B} (g : Doc → B) f set c :
  (∀ m, g (set m) = g m) → g <$> Media.updateMany_in f set c = g <$> c.
Proof.
  intros Hg. apply list_eq. intros id.
  rewrite !list_lookup_fmap, updateMany_in_lookup.
  destruct (c !! id) as [m|]; simpl; [|reflexivity].
  destruct (Media.matches f id m); [rewrite Hg|]; reflexivity.
Qed.

Lemma conflict_from_true uk self m from c :
  Media.conflict_from uk self m from c = true ↔
  ∃ j m', c !! j = Some m' ∧ self ≠ Some (from + j)%nat
          ∧ Media.clashes uk m m' = true.
Proof.
  revert from. induction c as [|m0 c IH]; intros from; simpl.
  - split; [discriminate | intros (j & m' & H & _); destruct j; discriminate].
  - rewrite orb_true_iff, andb_true_iff, negb_true_iff, bool_decide_eq_false, IH.
    split.
    + intros [[Hs Hc] | (j & m' & Hj & Hs & Hc)].
      * exists 0%nat, m0. rewrite Nat.add_0_r. auto.
      * exists (S j), m'. rewrite Nat.add_succ_r. auto.
    + intros ([|j] & m' & Hj & Hs & Hc); simpl in Hj.
      * left. rewrite Nat.add_0_r in Hs. split; congruence.
      * right. exists j, m'. rewrite Nat.add_succ_r in Hs. auto.
Qed.

Lemma conflict_true uk self m c :
  Media.conflict uk self m c = true ↔
  ∃ j m', c !! j = Some m' ∧ self ≠ Some j ∧ Media.clashes uk m m' = true.
Proof. unfold Media.conflict. rewrite conflict_from_true. reflexivity. Qed.

Lemma conflict_false uk self m c :
  Media.conflict uk self m c = false ↔
  ∀ j m', c !! j = Some m' → self ≠ Some j → Media.clashes uk m m' = false.
Proof.
  rewrite <- not_true_iff_false, conflict_true. split.
  - intros H j m' Hj Hs. apply not_true_iff_false. intros Hc. apply H. eauto.
  - intros H (j & m' & Hj & Hs & Hc). rewrite (H _ _ Hj Hs) in Hc. discriminate.
Qed.

(** A conflict stays when documents are added at the end. *)
Lemma conflict_app uk m c l :
  Media.conflict uk None m c = true → Media.conflict uk None m (c ++ l) = true.
Proof.
  rewrite !conflict_true. intros (j & m' & Hj & Hs & Hc).
  exists j, m'. split; [|auto]. apply lookup_app_l_Some, Hj.
Qed.

(** Only the slug and the key of the written document matter. *)
Lemma conflict_ext uk self m1 m2 c :
  slug m1 = slug m2 → key m1 = key m2 →
  Media.conflict uk self m1 c = Media.conflict uk self m2 c.
Proof.
  intros Hs Hk. unfold Media.conflict. generalize 0%nat.
  induction c as [|m0 c IH]; intros from; simpl; [reflexivity|].
  rewrite IH. unfold Media.clashes. rewrite Hs, Hk. reflexivity.
Qed.

Lemma clashes_key m m' : Media.clashes true m m' = false → key m' ≠ key m.
Proof.
  unfold Media.clashes. rewrite orb_false_iff. simpl.
  intros [_ H]. apply bool_decide_eq_false in H. exact H.
Qed.

Lemma NoDup_insert_fresh {A} (l : list A) i y :
  NoDup l → (∀ j x, l !! j = Some x → j ≠ i → x ≠ y) → NoDup (<[i := y]> l).
Proof.
  intros Hl Hy. apply NoDup_alt. intros j1 j2 x H1 H2.
  destruct (decide (j1 = i)) as [->|N1], (decide (j2 = i)) as [->|N2].
  - reflexivity.
  - rewrite list_lookup_insert_ne in H2 by auto.
    apply list_lookup_insert_Some in H1 as [(_ & <- & _) | (N & _)]; [|congruence].
    destruct (Hy _ _ H2 N2 eq_refl).
  - rewrite list_lookup_insert_ne in H1 by auto.
    apply list_lookup_insert_Some in H2 as [(_ & <- & _) | (N & _)]; [|congruence].
    destruct (Hy _ _ H1 N1 eq_refl).
  - rewrite list_lookup_insert_ne in H1, H2 by auto.
    eapply NoDup_lookup; eauto.
Qed.

(** ** Uniqueness of [(tmdbId, type)] under the unique index *)

Create HintDb indexed_db.

Lemma save_indexed sp data : preserves indexed (Media.save sp data).
Proof.
  intros w [Hi Hu]. unfold Media.save, exec, bind, now, gets, modify, ret, throw.
  destruct (Media.valid data); simpl; [|split; assumption].
  rewrite Hi.
  destruct (Media.conflict true None (Media.pre_save sp (clock w) data) (collection w))
    eqn:Hc; simpl; [split; assumption|].
  split; [exact Hi|]. unfold unique_keys in *. simpl.
  rewrite fmap_app. apply NoDup_app. split; [exact Hu|]. split; [|apply NoDup_singleton].
  intros k Hk Hk'. apply list_elem_of_singleton in Hk'. subst k.
  apply list_elem_of_fmap in Hk as (m' & Hkey & Hm').
  apply list_elem_of_lookup in Hm' as [j Hj].
  rewrite conflict_false in Hc. specialize (Hc j m' Hj ltac:(discriminate)).
  apply clashes_key in Hc. congruence.
Qed.

Lemma findByIdAndUpdate_indexed id set :
  preserves indexed (Media.findByIdAndUpdate id set).
Proof.
  intros w [Hi Hu]. unfold Media.findByIdAndUpdate, exec, bind, gets, modify, ret, throw.
  simpl. destruct (collection w !! id) as [m|] eqn:Hm; simpl; [|split; assumption].
  rewrite Hi.
  destruct (Media.conflict true (Some id) (set m) (collection w)) eqn:Hc; simpl;
    [split; assumption|].
  split; [exact Hi|]. unfold unique_keys in *. simpl.
  rewrite list_fmap_insert. apply NoDup_insert_fresh; [exact Hu|].
  intros j k Hj Hne Hk. rewrite list_lookup_fmap in Hj.
  destruct (collection w !! j) as [m'|] eqn:Hm'; simpl in Hj; [|discriminate].
  injection Hj as <-. rewrite conflict_false in Hc.
  specialize (Hc j m' Hm' ltac:(congruence)). apply clashes_key in Hc. congruence.
Qed.

Lemma updateMany_indexed f set :
  (∀ m, key (set m) = key m) → preserves indexed (Media.updateMany f set).
Proof.
  intros Hk w [Hi Hu]. split; [exact Hi|]. unfold unique_keys in *. simpl.
  rewrite updateMany_in_fmap; auto.
Qed.

Lemma modify_indexed f :
  (∀ w, collection (f w) = collection w) →
  (∀ w, uniqueTmdbIdType (f w) = uniqueTmdbIdType w) →
  preserves indexed (modify f).
Proof.
  intros Hc Hi w [H1 H2]. unfold exec, modify, indexed, unique_keys. simpl.
  rewrite Hc, Hi. split; assumption.
Qed.

Lemma call_indexed {A} c (answer : option A) : preserves indexed (Await.call c answer).
Proof. apply preserves_call. intros w H. exact H. Qed.

#[local] Hint Resolve save_indexed findByIdAndUpdate_indexed call_indexed : indexed_db.
#[local] Hint Extern 1 (preserves indexed (Media.updateMany _ _)) =>
  apply updateMany_indexed; intros; reflexivity : indexed_db.
#[local] Hint Extern 1 (preserves indexed (modify _)) =>
  apply modify_indexed; intros; reflexivity : indexed_db.
#[local] Hint Extern 1 (preserves indexed (delay _)) =>
  apply modify_indexed; intros; reflexivity : indexed_db.
#[local] Hint Extern 1 (preserves indexed count_error) =>
  apply modify_indexed; intros; reflexivity : indexed_db.
#[local] Hint Extern 1 (preserves indexed (Media.findByTmdbId _ _)) =>
  apply preserves_gets : indexed_db.
#[local] Hint Extern 1 (preserves indexed (Media.find _ _)) =>
  apply preserves_gets : indexed_db.

Ltac indexed_leaf := solve [auto with indexed_db].

Section Indexed.

Variable svc : tmdbService.t.
Variable sp : string → string.

Lemma fetchDetails_indexed ty id : preserves indexed (CatalogSyncer.fetchDetails svc ty id).
Proof.
  unfold CatalogSyncer.fetchDetails, Await.getMovieDetails, Await.getTVDetails.
  split_job indexed_leaf.
Qed.
Hint Resolve fetchDetails_indexed : indexed_db.

Lemma processItem_indexed ty p item :
  preserves indexed (CatalogSyncer.processItem svc sp ty p item).
Proof.
  unfold CatalogSyncer.processItem, CatalogSyncer.convertTMDBToMediaFormat, now.
  split_job indexed_leaf.
Qed.
Hint Resolve processItem_indexed : indexed_db.

Lemma processBatch_indexed items ty :
  preserves indexed (CatalogSyncer.processBatch svc sp items ty).
Proof. unfold CatalogSyncer.processBatch. split_job indexed_leaf. Qed.
Hint Resolve processBatch_indexed : indexed_db.

Lemma syncPages_indexed getPage keep ty :
  (∀ page, preserves indexed (getPage page)) →
  preserves indexed (CatalogSyncer.syncPages svc sp getPage keep ty).
Proof. intros H. unfold CatalogSyncer.syncPages. split_job indexed_leaf. Qed.

Lemma syncPopularMovies_indexed : preserves indexed (CatalogSyncer.syncPopularMovies svc sp).
Proof.
  unfold CatalogSyncer.syncPopularMovies, Await.getNowPlayingMovies,
    Await.getTopRatedMovies.
  split_job ltac:(first [indexed_leaf | apply syncPages_indexed; intros;
                           unfold Await.getPopularMovies]).
Qed.

Lemma syncPopularSeries_indexed : preserves indexed (CatalogSyncer.syncPopularSeries svc sp).
Proof.
  unfold CatalogSyncer.syncPopularSeries, Await.getTopRatedTVShows.
  split_job ltac:(first [indexed_leaf | apply syncPages_indexed; intros;
                           unfold Await.getPopularTVShows]).
Qed.

Lemma syncPopularAnimes_indexed : preserves indexed (CatalogSyncer.syncPopularAnimes svc sp).
Proof.
  unfold CatalogSyncer.syncPopularAnimes, Await.discoverTVShows, Await.getTrending.
  split_job indexed_leaf.
Qed.

Lemma syncByGenres_indexed : preserves indexed (CatalogSyncer.syncByGenres svc sp).
Proof.
  unfold CatalogSyncer.syncByGenres, Await.discoverTVShows, Await.discoverMovies.
  split_job indexed_leaf.
Qed.

Lemma syncBrazilianContent_indexed :
  preserves indexed (CatalogSyncer.syncBrazilianContent svc sp).
Proof.
  unfold CatalogSyncer.syncBrazilianContent, Await.discoverTVShows, Await.discoverMovies.
  split_job indexed_leaf.
Qed.

Lemma syncTrendingContent_indexed :
  preserves indexed (CatalogSyncer.syncTrendingContent svc sp).
Proof.
  unfold CatalogSyncer.syncTrendingContent, CatalogSyncer.trendingItem,
    Await.getTrending, now.
  split_job indexed_leaf.
Qed.

Lemma updateExistingContent_indexed :
  preserves indexed (CatalogSyncer.updateExistingContent svc).
Proof.
  unfold CatalogSyncer.updateExistingContent, CatalogSyncer.updateItem,
    CatalogSyncer.convertTMDBToMediaFormat, now.
  split_job indexed_leaf.
Qed.

Lemma cleanupObsoleteContent_indexed :
  preserves indexed CatalogSyncer.cleanupObsoleteContent.
Proof.
  unfold CatalogSyncer.cleanupObsoleteContent, now. split_job indexed_leaf.
Qed.

Hint Resolve syncPopularMovies_indexed syncPopularSeries_indexed
  syncPopularAnimes_indexed syncByGenres_indexed syncBrazilianContent_indexed
  syncTrendingContent_indexed updateExistingContent_indexed
  cleanupObsoleteContent_indexed : indexed_db.

Lemma fullSync_indexed : preserves indexed (CatalogSyncer.fullSync svc sp).
Proof.
  unfold CatalogSyncer.fullSync, CatalogSyncer.resetStats, CatalogSyncer.stamp_end, now.
  split_job indexed_leaf.
Qed.

Lemma syncNewReleases_indexed : preserves indexed (CatalogSyncer.syncNewReleases svc sp).
Proof.
  unfold CatalogSyncer.syncNewReleases, Await.getUpcomingMovies,
    Await.getNowPlayingMovies.
  split_job indexed_leaf.
Qed.

Lemma run_indexed op : preserves indexed (run svc sp op).
Proof.
  destruct op; simpl;
    auto using fullSync_indexed, syncNewReleases_indexed with indexed_db.
Qed.

End Indexed.

Lemma createIndexes_indexed w :
  unique_keys w → indexed (exec Media.createIndexes w).
Proof.
  intros H. unfold exec, Media.createIndexes, modify. simpl.
  rewrite bool_decide_eq_true_2 by exact H. split; [reflexivity | exact H].
Qed.

(** ** One turn of [processBatch] *)

Section Turn.

Variable svc : tmdbService.t.
Variable sp : string → string.

Lemma fetchDetails_run ty id w :
  CatalogSyncer.fetchDetails svc ty id w
  = match details_of svc ty id with
    | Some d => (Return d, log_call (details_call ty id) w)
    | None => (Throw NetworkError, log_call (details_call ty id) w)
    end.
Proof.
  unfold CatalogSyncer.fetchDetails, details_of, details_call,
    Await.getMovieDetails, Await.getTVDetails, Await.call, bind, modify, await.
  destruct (type_eqb ty movie);
    [destruct (tmdbService.getMovieDetails svc id)
    |destruct (tmdbService.getTVDetails svc id)]; reflexivity.
Qed.

Lemma refused_at t uk c d :
  refused sp uk c d
  = negb (Media.valid (candidate sp t d))
    || Media.conflict uk None (candidate sp t d) c.
Proof.
  unfold refused. f_equal. apply conflict_ext; reflexivity.
Qed.

Lemma save_run data w :
  Media.save sp data w
  = if Media.valid data then
      if Media.conflict (uniqueTmdbIdType w) None
           (Media.pre_save sp (clock w) data) (collection w)
      then (Throw DuplicateKey, w)
      else (Return (length (collection w)),
            set_collection (collection w ++ [Media.pre_save sp (clock w) data])%list w)
    else (Throw ValidationError, w).
Proof.
  unfold Media.save, bind, now, gets, ret, modify, throw.
  destruct (Media.valid data); [|reflexivity].
  destruct (Media.conflict _ _ _ _); reflexivity.
Qed.

Lemma processItem_run ty p item w :
  CatalogSyncer.processItem svc sp ty p item w
  = match lookup_key (collection w) (Summary.tmdbId item) ty with
    | Some _ => (Return p, w)
    | None =>
        let c := details_call ty (Summary.tmdbId item) in
        match details_of svc ty (Summary.tmdbId item) with
        | None => (Return p, skipped c w)
        | Some d =>
            if refused sp (uniqueTmdbIdType w) (collection w) d
            then (Return p, skipped c w)
            else (Return (p + 1), added c (candidate sp (clock w) d) w)
        end
    end.
Proof.
  unfold CatalogSyncer.processItem, try_catch, Media.findByTmdbId, Media.findOne.
  unfold bind at 1 2. unfold gets at 1. fold (lookup_key (collection w) (Summary.tmdbId item) ty).
  destruct (lookup_key (collection w) (Summary.tmdbId item) ty) as [x|]; [reflexivity|].
  unfold bind at 1. rewrite fetchDetails_run.
  destruct (details_of svc ty (Summary.tmdbId item)) as [d|]; [|reflexivity].
  rewrite (refused_at (clock w)).
  change (Media.valid (candidate sp (clock w) d))
    with (Media.valid (CatalogSyncer.mediaFormat (clock w) d)).
  unfold CatalogSyncer.convertTMDBToMediaFormat.
  unfold bind at 1 2. unfold now, gets, ret at 1.
  unfold bind at 1. rewrite save_run.
  change (clock (log_call (details_call ty (Summary.tmdbId item)) w)) with (clock w).
  change (collection (log_call (details_call ty (Summary.tmdbId item)) w))
    with (collection w).
  change (uniqueTmdbIdType (log_call (details_call ty (Summary.tmdbId item)) w))
    with (uniqueTmdbIdType w).
  fold (candidate sp (clock w) d).
  destruct (Media.valid (CatalogSyncer.mediaFormat (clock w) d));
    cbn [negb orb]; [|reflexivity].
  destruct (Media.conflict (uniqueTmdbIdType w) None (candidate sp (clock w) d)
              (collection w)); reflexivity.
Qed.

Lemma processBatch_cons ty item items w :
  CatalogSyncer.processBatch svc sp (item :: items) ty w
  = bind (CatalogSyncer.processItem svc sp ty 0 item)
         (λ p, for_of items p (CatalogSyncer.processItem svc sp ty)) w.
Proof. reflexivity. Qed.

End Turn.

(** ** Entries that are settled stay settled, and add nothing *)

Section Settled.

Variable svc : tmdbService.t.
Variable sp : string → string.

Lemma candidate_clashes uk t t' d :
  Media.clashes uk (candidate sp t d) (candidate sp t' d) = true.
Proof.
  unfold Media.clashes. apply orb_true_iff. left.
  apply String.eqb_eq. reflexivity.
Qed.

Lemma refused_app uk c l d :
  refused sp uk c d = true → refused sp uk (c ++ l) d = true.
Proof.
  unfold refused. rewrite !orb_true_iff. intros [H|H]; [left; exact H|right].
  apply conflict_app, H.
Qed.

Lemma refused_own uk c t d :
  refused sp uk (c ++ [candidate sp t d]) d = true.
Proof.
  unfold refused. apply orb_true_iff. right. apply conflict_true.
  exists (length c), (candidate sp t d). split; [|split].
  - rewrite lookup_app_r, Nat.sub_diag by lia. reflexivity.
  - discriminate.
  - apply candidate_clashes.
Qed.

Lemma settled_app uk c l ty id :
  settled svc sp uk c ty id → settled svc sp uk (c ++ l) ty id.
Proof.
  intros [[x Hx] | [H | (d & Hd & Hr)]].
  - left. exists x. unfold lookup_key in *. apply findOne_in_app, Hx.
  - right. left. exact H.
  - right. right. exists d. split; [exact Hd | apply refused_app, Hr].
Qed.

(** A turn only adds documents at the end, and leaves its entry settled. *)
Lemma processItem_effect ty p item w :
  let w' := exec (CatalogSyncer.processItem svc sp ty p item) w in
  uniqueTmdbIdType w' = uniqueTmdbIdType w
  ∧ ∃ l, collection w' = (collection w ++ l)%list
         ∧ settled svc sp (uniqueTmdbIdType w) (collection w') ty (Summary.tmdbId item).
Proof.
  unfold exec. rewrite processItem_run.
  destruct (lookup_key (collection w) (Summary.tmdbId item) ty) as [x|] eqn:Hl; simpl.
  - split; [reflexivity|]. exists []. rewrite app_nil_r. split; [reflexivity|].
    left. rewrite Hl. eauto.
  - destruct (details_of svc ty (Summary.tmdbId item)) as [d|] eqn:Hd; simpl.
    + destruct (refused sp (uniqueTmdbIdType w) (collection w) d) eqn:Hr; simpl.
      * split; [reflexivity|]. exists []. rewrite app_nil_r. split; [reflexivity|].
        right. right. eauto.
      * split; [reflexivity|]. eexists. split; [reflexivity|].
        right. right. exists d. split; [exact Hd | apply refused_own].
    + split; [reflexivity|]. exists []. rewrite app_nil_r. split; [reflexivity|].
      right. left. exact Hd.
Qed.

(** A turn for a settled entry adds nothing and counts nothing as
    processed. *)
Lemma processItem_settled ty p item w :
  settled svc sp (uniqueTmdbIdType w) (collection w) ty (Summary.tmdbId item) →
  collection (exec (CatalogSyncer.processItem svc sp ty p item) w) = collection w
  ∧ result (CatalogSyncer.processItem svc sp ty p item) w = Return p.
Proof.
  intros Hs. unfold exec, result. rewrite processItem_run.
  destruct (lookup_key (collection w) (Summary.tmdbId item) ty) as [x|] eqn:Hl;
    [split; reflexivity|].
  destruct Hs as [[x Hx] | [H | (d & Hd & Hr)]].
  - congruence.
  - rewrite H. split; reflexivity.
  - rewrite Hd, Hr. split; reflexivity.
Qed.

(** A turn never throws. *)
Lemma processItem_returns ty p item w :
  ∃ p', result (CatalogSyncer.processItem svc sp ty p item) w = Return p'.
Proof.
  unfold result. rewrite processItem_run.
  destruct (lookup_key _ _ _); [eauto|].
  destruct (details_of _ _ _); [|eauto].
  destruct (refused _ _ _ _); eauto.
Qed.

Lemma for_of_processItem_effect ty items p w :
  let w' := exec (for_of items p (CatalogSyncer.processItem svc sp ty)) w in
  uniqueTmdbIdType w' = uniqueTmdbIdType w
  ∧ ∃ l, collection w' = (collection w ++ l)%list
         ∧ ∀ item, item ∈ items →
             settled svc sp (uniqueTmdbIdType w) (collection w') ty (Summary.tmdbId item).
Proof.
  revert p w. induction items as [|item items IH]; intros p w; simpl.
  - split; [reflexivity|]. exists []. rewrite app_nil_r. split; [reflexivity|].
    intros item H. inversion H.
  - rewrite exec_bind.
    destruct (processItem_effect ty p item w) as (Hu & l & Hc & Hs).
    destruct (processItem_returns ty p item w) as [p' Hp].
    rewrite Hp.
    destruct (IH p' (exec (CatalogSyncer.processItem svc sp ty p item) w))
      as (Hu' & l' & Hc' & Hs').
    split; [congruence|]. exists (l ++ l')%list. split.
    + rewrite Hc', Hc, app_assoc. reflexivity.
    + intros x Hx. apply elem_of_cons in Hx as [->|Hx].
      * rewrite Hc'. apply settled_app. exact Hs.
      * rewrite <- Hu. apply Hs', Hx.
Qed.

End Settled.

Section Again.

Variable svc : tmdbService.t.
Variable sp : string → string.

Lemma for_of_processItem_settled ty items p w :
  (∀ item, item ∈ items →
     settled svc sp (uniqueTmdbIdType w) (collection w) ty (Summary.tmdbId item)) →
  collection (exec (for_of items p (CatalogSyncer.processItem svc sp ty)) w)
  = collection w
  ∧ result (for_of items p (CatalogSyncer.processItem svc sp ty)) w = Return p.
Proof.
  revert w. induction items as [|item items IH]; intros w Hs; simpl.
  - split; reflexivity.
  - rewrite exec_bind, result_bind.
    destruct (processItem_settled svc sp ty p item w) as [Hc Hr];
      [apply Hs; left|].
    rewrite Hr.
    destruct (processItem_effect svc sp ty p item w) as (Hu & _).
    destruct (IH (exec (CatalogSyncer.processItem svc sp ty p item) w)) as [Hc' Hr'].
    + intros x Hx. rewrite Hu, Hc. apply Hs. right. exact Hx.
    + split; [congruence | exact Hr'].
Qed.

End Again.

(** ** Sample data *)

(** ** The properties of the specification *)

(** C2, as the code has it.  From a collection in which [(tmdbId, type)]
    is unique and on which [createIndexes] has built its unique index,
    every state reached by running [fullSync], [syncNewReleases],
    [syncTrendingContent], [updateExistingContent] and
    [cleanupObsoleteContent], in any order and whatever the service
    answers, has at most one document per [(tmdbId, type)]. *)
Theorem unique_key_invariant (sp : string → string) (w0 w : World) :
  unique_keys w0 →
  reachable sp (exec Media.createIndexes w0) w →
  unique_keys w.
Proof.
  intros H0 Hr. cut (indexed w); [intros [_ H]; exact H|].
  induction Hr as [|w svc op _ IH].
  - apply createIndexes_indexed, H0.
  - apply run_indexed, IH.
Qed.

Lemma unique_key_invariant_witness :
  unique_keys Sample.stale_foo
  ∧ unique_keys (exec (run Sample.renamed generateSlug FullSync)
                      (exec Media.createIndexes Sample.stale_foo)).
Proof.
  assert (H : unique_keys Sample.stale_foo).
  { apply (bool_decide_unpack _). vm_compute. exact I. }
  split; [exact H|].
  apply (unique_key_invariant generateSlug Sample.stale_foo); [exact H|].
  apply reach_run, reach_start.
Defined.

(** C2 fails on a collection without the index, which no code of the
    pipeline builds.  Movie number 1 is stored once, deactivated, as
    "Foo"; the service lists it as popular under the name "Bar".
    [fullSync] looks for an active record, finds none, and stores a
    second record for the key. *)
Lemma unique_key_counterexample :
  let w := exec (run Sample.relisted generateSlug FullSync) Sample.retired_foo in
  unique_keys Sample.retired_foo
  ∧ reachable generateSlug Sample.retired_foo w
  ∧ (λ m, (key m, title m, isActive m)) <$> collection w
    = [((1, movie), "Foo", false); ((1, movie), "Bar", true)]
  ∧ ¬ unique_keys w.
Proof.
  intros w.
  assert (Hk : key <$> collection w = [(1, movie); (1, movie)])
    by (vm_compute; reflexivity).
  split; [apply (bool_decide_unpack _); vm_compute; exact I|].
  split; [apply reach_run, reach_start|].
  split; [vm_compute; reflexivity|].
  unfold unique_keys. rewrite Hk. intros Hnd.
  apply NoDup_cons in Hnd as [Hnotin _]. apply Hnotin. left.
Qed.

(** C3, as the code has it.  Running [processBatch] a second time on the
    same entries, with the service answering as before, adds no document
    and counts none as processed: an entry for which an active document
    exists is skipped before any detail call and any insert, and an entry
    whose detail call failed or whose document was refused fails or is
    refused again. *)
Theorem processBatch_again (svc : tmdbService.t) (sp : string → string)
        (items : list Summary.t) (ty : MediaType) (w : World) :
  let w1 := exec (CatalogSyncer.processBatch svc sp items ty) w in
  collection (exec (CatalogSyncer.processBatch svc sp items ty) w1) = collection w1
  ∧ result (CatalogSyncer.processBatch svc sp items ty) w1 = Return 0
  ∧ ∀ item p w',
      is_Some (lookup_key (collection w') (Summary.tmdbId item) ty) →
      CatalogSyncer.processItem svc sp ty p item w' = (Return p, w').
Proof.
  intros w1. unfold CatalogSyncer.processBatch in *.
  destruct (for_of_processItem_effect svc sp ty items 0 w) as (Hu & l & Hc & Hs).
  fold w1 in Hu, Hc, Hs.
  destruct (for_of_processItem_settled svc sp ty items 0 w1) as [H1 H2].
  { intros item Hi. rewrite Hu. apply Hs, Hi. }
  split; [exact H1|]. split; [exact H2|].
  intros item p w' [x Hx]. rewrite processItem_run, Hx. reflexivity.
Qed.

(** C3 fails for [fullSync]: the first run refuses movie number 2, whose
    slug is taken by movie number 1, then refreshes movie number 1, whose
    slug changes; the second run inserts movie number 2. *)
Lemma fullSync_twice_counterexample :
  let job := CatalogSyncer.fullSync Sample.renamed generateSlug in
  let w1 := exec job Sample.stale_foo in
  let w2 := exec job w1 in
  length (collection w1) = 1%nat ∧ length (collection w2) = 2%nat.
Proof. vm_compute. split; reflexivity. Qed.

(** ** What a refresh keeps of the stored documents *)

Lemma kept_start (R : Doc → Doc → Prop) w : (∀ m, R m m) → kept R (collection w) w.
Proof. intros HR id m Hm. exists m. auto. Qed.

Lemma modify_kept R c0 f :
  (∀ w, collection (f w) = collection w) → preserves (kept R c0) (modify f).
Proof.
  intros Hf w H id m Hm. unfold exec, modify. simpl. rewrite Hf. apply H, Hm.
Qed.

Lemma call_kept {A} R c0 c (answer : option A) :
  preserves (kept R c0) (Await.call c answer).
Proof. apply preserves_call. intros w H. exact H. Qed.

Lemma findByIdAndUpdate_kept R c0 id set m0 :
  c0 !! id = Some m0 →
  (∀ cur, R m0 cur → R m0 (set cur)) →
  preserves (kept R c0) (Media.findByIdAndUpdate id set).
Proof.
  intros H0 Hset w H. unfold Media.findByIdAndUpdate, exec, bind, gets, modify, ret, throw.
  simpl. destruct (collection w !! id) as [cur|] eqn:Hcur; simpl; [|exact H].
  destruct (Media.conflict _ _ _ _); simpl; [exact H|].
  intros j m Hm. simpl. destruct (decide (j = id)) as [->|Hne].
  - assert (m = m0) as -> by congruence.
    destruct (H _ _ H0) as (m' & Hm' & HR).
    assert (m' = cur) as -> by congruence.
    exists (set cur). split; [|apply Hset, HR].
    apply list_lookup_insert_eq. eapply lookup_lt_Some, Hcur.
  - rewrite list_lookup_insert_ne by auto. apply H, Hm.
Qed.

Lemma preserves_convert {B} I d (k : Doc → M B) :
  (∀ t, preserves I (k (CatalogSyncer.mediaFormat t d))) →
  preserves I (bind (CatalogSyncer.convertTMDBToMediaFormat d) k).
Proof. intros H w Hw. apply (H (clock w) w Hw). Qed.

Lemma preserves_convert_aggregator {B} I ty d (k : Doc → M B) :
  (∀ t, preserves I (k (ContentAggregator.mediaFormat ty t d))) →
  preserves I (bind (ContentAggregator.convertToMediaFormat ty d) k).
Proof. intros H w Hw. apply (H (clock w) w Hw). Qed.

Lemma slices_elem {A} fuel size (xs batch : list A) x :
  batch ∈ slices fuel size xs → x ∈ batch → x ∈ xs.
Proof.
  revert xs. induction fuel as [|fuel IH]; intros xs Hb Hx; simpl in Hb.
  - destruct xs; inversion Hb.
  - destruct xs as [|y ys]; [inversion Hb|].
    apply elem_of_cons in Hb as [->|Hb].
    + apply elem_of_take in Hx as (i & Hi & _). eapply list_elem_of_lookup_2, Hi.
    + eapply (subseteq_drop size), IH; eauto.
Qed.

Section Refresh.

Variable svc : tmdbService.t.

Ltac kept_leaf :=
  first
    [ apply call_kept
    | apply modify_kept; intros; reflexivity
    | apply preserves_convert; intros
    | apply preserves_convert_aggregator; intros ].

Lemma job_updateItem_kept c0 p id media :
  c0 !! id = Some media →
  preserves (kept kept_by_job c0) (CatalogSyncer.updateItem svc p (id, media)).
Proof.
  intros H0. unfold CatalogSyncer.updateItem, CatalogSyncer.fetchDetails,
    Await.getMovieDetails, Await.getTVDetails, now.
  split_job kept_leaf.
  all: eapply findByIdAndUpdate_kept; [exact H0|];
    intros cur _; repeat split; right; reflexivity.
Qed.

Lemma aggregator_updateItem_kept c0 p id media :
  c0 !! id = Some media →
  preserves (kept kept_by_aggregator c0) (ContentAggregator.updateItem svc p (id, media)).
Proof.
  intros H0. unfold ContentAggregator.updateItem, ContentAggregator.fetchDetails,
    Await.getMovieDetails, Await.getTVDetails, delay.
  split_job kept_leaf.
  all: eapply findByIdAndUpdate_kept; [exact H0|];
    intros cur (_ & Ha & _); repeat split; [exact Ha | right; reflexivity].
Qed.

Lemma job_updateExistingContent_kept w :
  kept kept_by_job (collection w) (exec (CatalogSyncer.updateExistingContent svc) w).
Proof.
  set (existingMedia :=
         take 200 (Media.find_in
           [Media.tmdbId_exists; Media.lastSyncAt_lt (clock w - 7 * day)] (collection w))).
  change (exec (CatalogSyncer.updateExistingContent svc) w)
    with (exec (try_catch
      (updated <- for_of (slices (length existingMedia) CatalogSyncer.batchSize existingMedia) 0
                    (λ updated batch,
                       updated' <- for_of batch updated (CatalogSyncer.updateItem svc) ;;
                       delay (CatalogSyncer.apiDelay * Z.of_nat CatalogSyncer.batchSize) ;;;
                       ret updated') ;;
       modify (λ w, set_stats (add_stats 0 0 0 updated 0 (stats w)) w))
      (λ _, count_error)) w).
  cut (preserves (kept kept_by_job (collection w))
    (try_catch
      (updated <- for_of (slices (length existingMedia) CatalogSyncer.batchSize existingMedia) 0
                    (λ updated batch,
                       updated' <- for_of batch updated (CatalogSyncer.updateItem svc) ;;
                       delay (CatalogSyncer.apiDelay * Z.of_nat CatalogSyncer.batchSize) ;;;
                       ret updated') ;;
       modify (λ w, set_stats (add_stats 0 0 0 updated 0 (stats w)) w))
      (λ _, count_error))).
  { intros H. apply H, kept_start. intros m. repeat split. left. reflexivity. }
  unfold count_error, delay. split_job kept_leaf.
  match goal with
  | Hb : ?b ∈ slices _ _ _, Hx : ?x ∈ ?b |- _ =>
      pose proof (slices_elem _ _ _ _ _ Hb Hx) as Hin; destruct x as [id media]
  end.
  apply job_updateItem_kept.
  apply elem_of_take in Hin as (i & Hin & _).
  apply list_elem_of_lookup_2 in Hin. apply find_in_lookup in Hin as [Hin _]. exact Hin.
Qed.

Lemma aggregator_updateExistingContent_kept w :
  kept kept_by_aggregator (collection w)
       (exec (ContentAggregator.updateExistingContent svc) w).
Proof.
  set (existingMedia :=
         take 100 (Media.find_in
           [Media.tmdbId_exists; Media.lastSyncAt_lt (clock w - 7 * day)] (collection w))).
  change (exec (ContentAggregator.updateExistingContent svc) w)
    with (exec (for_of existingMedia 0 (ContentAggregator.updateItem svc)) w).
  cut (preserves (kept kept_by_aggregator (collection w))
         (for_of existingMedia 0 (ContentAggregator.updateItem svc))).
  { intros H. apply H, kept_start. intros m. repeat split. left. reflexivity. }
  split_job kept_leaf.
  match goal with
  | Hx : ?x ∈ existingMedia |- _ => destruct x as [id media]; rename Hx into Hin
  end.
  apply aggregator_updateItem_kept.
  apply elem_of_take in Hin as (i & Hin & _).
  apply list_elem_of_lookup_2 in Hin. apply find_in_lookup in Hin as [Hin _]. exact Hin.
Qed.

End Refresh.

(** C1, as the code has it.  For every stored item, whether
    [updateExistingContent] rewrites it or not, the record found
    afterwards has the item's [createdAt] and [analytics]; the aggregator
    also keeps [rating.internal].  [isActive] is not carried over: a
    record that was rewritten has [isActive = true]. *)
Theorem updateExistingContent_keeps (svc : tmdbService.t) (w : World)
        (id : nat) (m : Doc) :
  collection w !! id = Some m →
  (∃ m', collection (exec (CatalogSyncer.updateExistingContent svc) w) !! id = Some m'
         ∧ createdAt m' = createdAt m
         ∧ analytics m' = analytics m
         ∧ (m' = m ∨ isActive m' = true))
  ∧ (∃ m', collection (exec (ContentAggregator.updateExistingContent svc) w) !! id = Some m'
           ∧ createdAt m' = createdAt m
           ∧ analytics m' = analytics m
           ∧ internal (rating m') = internal (rating m)
           ∧ (m' = m ∨ isActive m' = true)).
Proof.
  intros Hm. split.
  - destruct (job_updateExistingContent_kept svc w id m Hm) as (m' & H1 & H2).
    exists m'. split; [exact H1 | exact H2].
  - destruct (aggregator_updateExistingContent_kept svc w id m Hm) as (m' & H1 & H2).
    exists m'. split; [exact H1 | exact H2].
Qed.

Lemma updateExistingContent_keeps_witness :
  let w := Sample.world (10 * day) [Sample.stored 1 "Foo" (75 # 10) false] true in
  collection w !! 0%nat = Some (Sample.stored 1 "Foo" (75 # 10) false)
  ∧ ∃ m', collection (exec (CatalogSyncer.updateExistingContent Sample.renamed) w) !! 0%nat
          = Some m'
          ∧ createdAt m' = 0.
Proof.
  intros w. split; [reflexivity|].
  destruct (updateExistingContent_keeps Sample.renamed w 0%nat
              (Sample.stored 1 "Foo" (75 # 10) false) eq_refl)
    as [(m' & H1 & H2 & _) _].
  exists m'. split; [exact H1 | exact H2].
Defined.

(** C1 fails on [isActive] in both versions, and the job of the backend
    also resets [rating.internal]: an item that was deactivated, with an
    internal rating of 4.2 over 10 votes, is active after the refresh and,
    in the backend, rated 0 over 0 votes. *)
Lemma updateExistingContent_counterexample :
  let m := Sample.stored 1 "Foo" (75 # 10) false in
  let w := Sample.world (10 * day) [m] true in
  let job := exec (CatalogSyncer.updateExistingContent Sample.renamed) w in
  let aggregator := exec (ContentAggregator.updateExistingContent Sample.renamed) w in
  isActive m = false
  ∧ internal (rating m) = {| average := 42 # 10; count := 10 |}
  ∧ isActive <$> collection job !! 0%nat = Some true
  ∧ internal ∘ rating <$> collection job !! 0%nat = Some {| average := 0; count := 0 |}
  ∧ isActive <$> collection aggregator !! 0%nat = Some true.
Proof. vm_compute. repeat split; reflexivity. Qed.

(** ** Cleanup *)

Lemma job_obsolete_matches t id m :
  Media.matches (CatalogSyncer.obsolete t) id m = obsolete_at t m.
Proof.
  unfold Media.matches, CatalogSyncer.obsolete, obsolete_at. simpl.
  rewrite andb_true_r. destruct (isActive m); simpl; [|reflexivity].
  rewrite andb_assoc. reflexivity.
Qed.

(** The job of the backend deactivates exactly the active documents that
    meet the three conditions together, and changes no other document. *)
Lemma job_cleanup_exact w id m :
  collection w !! id = Some m →
  collection (exec CatalogSyncer.cleanupObsoleteContent w) !! id
  = Some (if obsolete_at (clock w) m then set_isActive_at false (clock w) m else m).
Proof.
  intros Hm.
  change (collection (exec CatalogSyncer.cleanupObsoleteContent w))
    with (Media.updateMany_in (CatalogSyncer.obsolete (clock w))
            (set_isActive_at false (clock w)) (collection w)).
  rewrite updateMany_in_lookup, Hm. cbn [fmap option_fmap option_map].
  rewrite job_obsolete_matches. reflexivity.
Qed.

(** No stored rating equals the literal of the query of the script. *)
Lemma rating_literal_no_match r :
  json_eqb (rating_json r) Scripts.rating_literal = false.
Proof. reflexivity. Qed.

Lemma scripts_obsolete_matches t id m :
  Media.matches (Scripts.obsolete t) id m = false.
Proof.
  unfold Media.matches, Scripts.obsolete. simpl.
  change (json_eqb (rating_json (rating m)) Scripts.rating_literal) with false.
  rewrite !andb_false_r. reflexivity.
Qed.

(** The cleanup of the script changes no document. *)
Lemma scripts_cleanup_nothing w :
  collection (exec Scripts.cleanupObsoleteContent w) = collection w.
Proof.
  change (collection (exec Scripts.cleanupObsoleteContent w))
    with (Media.updateMany_in (Scripts.obsolete (clock w))
            (set_isActive_at false (clock w)) (collection w)).
  apply list_eq. intros id. rewrite updateMany_in_lookup.
  destruct (collection w !! id) as [m|]; cbn [fmap option_fmap option_map];
    [|reflexivity].
  rewrite scripts_obsolete_matches. reflexivity.
Qed.

(** C4.  An active item with 2 views, created 400 days ago, rated 4.0: the
    three conditions hold and the job of the backend deactivates it, but
    [cleanupObsoleteContent] of [scripts/syncCatalog.js] leaves it active,
    as it leaves every item: its query compares the whole [rating]
    sub-document with the literal [{ 'tmdb.average': { $lt: 5.0 } }]. *)
Theorem scripts_cleanup_leaves_obsolete_active :
  let m := Sample.stored 7 "Old" 4 true in
  let w := Sample.world (400 * day) [m] true in
  views (analytics m) = 2
  ∧ obsolete_at (clock w) m = true
  ∧ isActive <$> collection (exec CatalogSyncer.cleanupObsoleteContent w) !! 0%nat
    = Some false
  ∧ isActive <$> collection (exec Scripts.cleanupObsoleteContent w) !! 0%nat
    = Some true.
Proof.
  intros m w. split; [reflexivity|]. split; [reflexivity|]. split.
  - rewrite (job_cleanup_exact w 0%nat m eq_refl). reflexivity.
  - rewrite scripts_cleanup_nothing. reflexivity.
Qed.

(** ** Lookup of a deactivated item *)

Lemma key_filter_matches n ty id m :
  Media.matches [Media.tmdbId_is n; Media.type_is ty; Media.isActive_is true] id m
  = bool_decide (key m = (n, ty)) && isActive m.
Proof.
  unfold Media.matches, key. simpl. rewrite andb_true_r, andb_assoc. f_equal.
  - unfold type_eqb.
    destruct (Z.eqb_spec (tmdbId m) n) as [->|Hn]; simpl.
    + destruct (decide (type m = ty)) as [->|Hn].
      * rewrite !bool_decide_eq_true_2; auto.
      * rewrite !bool_decide_eq_false_2; congruence.
    + symmetry. apply bool_decide_eq_false_2. congruence.
  - destruct (isActive m); reflexivity.
Qed.




(** Without the index of [createIndexes] the same turn adds a second
    record for the key when the slug of the new record is free. *)
Lemma processBatch_duplicates_without_index :
  let w := Sample.world (10 * day) [Sample.stored 1 "Foo" (75 # 10) false] false in
  let w' := exec (CatalogSyncer.processBatch Sample.renamed generateSlug
                    [Sample.summary 1 "Bar" (75 # 10)] movie) w in
  key <$> collection w' = [(1, movie); (1, movie)].
Proof. vm_compute. reflexivity. Qed.

(** ** A newly created item *)

Section Created.

Variable svc : tmdbService.t.
Variable sp : string → string.

Lemma aggregator_fetchDetails_run ty id w :
  ContentAggregator.fetchDetails svc ty id w
  = match details_of svc ty id with
    | Some d => (Return d, log_call (details_call ty id) w)
    | None => (Throw NetworkError, log_call (details_call ty id) w)
    end.
Proof. apply fetchDetails_run. Qed.

Lemma processAndSave_run ty id w :
  ContentAggregator.processAndSave svc sp ty id w
  = match Media.findOne_in [Media.tmdbId_is id; Media.type_is ty] (collection w) with
    | Some (i, _) => (Return (Some i), w)
    | None =>
        let w1 := log_call (details_call ty id) w in
        match details_of svc ty id with
        | None => (Return None, w1)
        | Some d =>
            let m := Media.pre_save sp (clock w)
                       (ContentAggregator.mediaFormat ty (clock w) d) in
            if Media.valid (ContentAggregator.mediaFormat ty (clock w) d)
               && negb (Media.conflict (uniqueTmdbIdType w) None m (collection w))
            then (Return (Some (length (collection w))),
                  set_collection (collection w ++ [m])%list w1)
            else (Return None, w1)
        end
    end.
Proof.
  unfold ContentAggregator.processAndSave, try_catch, Media.findOne.
  unfold bind at 1. unfold gets at 1.
  destruct (Media.findOne_in _ (collection w)) as [[i x]|]; [reflexivity|].
  unfold bind at 1. rewrite aggregator_fetchDetails_run.
  destruct (details_of svc ty id) as [d|]; [|reflexivity].
  unfold ContentAggregator.convertToMediaFormat.
  unfold bind at 1 2. unfold now, gets, ret at 1.
  unfold bind at 1. rewrite save_run.
  change (clock (log_call (details_call ty id) w)) with (clock w).
  change (collection (log_call (details_call ty id) w)) with (collection w).
  change (uniqueTmdbIdType (log_call (details_call ty id) w)) with (uniqueTmdbIdType w).
  destruct (Media.valid (ContentAggregator.mediaFormat ty (clock w) d));
    cbn [andb]; [|reflexivity].
  destruct (Media.conflict _ _ _ _); reflexivity.
Qed.

Lemma lookup_key_absent c n ty :
  Media.findOne_in [Media.tmdbId_is n; Media.type_is ty] c = None →
  lookup_key c n ty = None.
Proof.
  unfold lookup_key. rewrite !findOne_in_None. intros H id m Hm.
  specialize (H id m Hm). unfold Media.matches in *. simpl in *.
  rewrite andb_true_r in H. rewrite andb_assoc, H. reflexivity.
Qed.

End Created.

(** C9.  For a movie of a listing that passes the rating threshold of
    6.0 and of which no record is stored, [processBatch] either stores
    nothing or creates one item, and the item it creates has
    [isActive = true], [trending = false] and [lastSyncAt] at the instant
    of its creation.  It creates the item when the details arrive and the
    collection accepts the record. *)
Theorem created_item_flags (svc : tmdbService.t) (sp : string → string)
        (w : World) (item : Summary.t) :
  CatalogSyncer.admitted item = true →
  Media.findOne_in [Media.tmdbId_is (Summary.tmdbId item); Media.type_is movie]
                   (collection w) = None →
  let c' := collection (exec (CatalogSyncer.processBatch svc sp
                                (List.filter CatalogSyncer.admitted [item]) movie) w) in
  (c' = collection w
   ∨ ∃ m, c' = (collection w ++ [m])%list
          ∧ isActive m = true ∧ trending m = false
          ∧ lastSyncAt m = clock w ∧ createdAt m = clock w)
  ∧ ∀ d, tmdbService.getMovieDetails svc (Summary.tmdbId item) = Some d →
         refused sp (uniqueTmdbIdType w) (collection w) d = false →
         ∃ m, c' = (collection w ++ [m])%list
              ∧ tmdbId m = Details.tmdbId d
              ∧ isActive m = true ∧ trending m = false
              ∧ lastSyncAt m = clock w ∧ createdAt m = clock w.
Proof.
  intros Hadm Habsent c'.
  assert (Hc : c' = match tmdbService.getMovieDetails svc (Summary.tmdbId item) with
                    | Some d =>
                        if refused sp (uniqueTmdbIdType w) (collection w) d
                        then collection w
                        else (collection w ++ [candidate sp (clock w) d])%list
                    | None => collection w
                    end).
  { unfold c'. simpl. rewrite Hadm. unfold exec, CatalogSyncer.processBatch. simpl.
    unfold bind. rewrite processItem_run, (lookup_key_absent _ _ _ Habsent).
    unfold details_of. simpl.
    destruct (tmdbService.getMovieDetails svc (Summary.tmdbId item)) as [d|];
      [|reflexivity].
    destruct (refused sp (uniqueTmdbIdType w) (collection w) d); reflexivity. }
  split.
  - rewrite Hc.
    destruct (tmdbService.getMovieDetails svc (Summary.tmdbId item)) as [d|];
      [|left; reflexivity].
    destruct (refused sp (uniqueTmdbIdType w) (collection w) d); [left; reflexivity|].
    right. exists (candidate sp (clock w) d). repeat split; reflexivity.
  - intros d Hd Hacc. rewrite Hc, Hd, Hacc.
    exists (candidate sp (clock w) d). repeat split; reflexivity.
Qed.

Lemma created_item_flags_witness :
  let w := Sample.world 1000 [] true in
  let item := Sample.summary 550 "Fight Club" (75 # 10) in
  CatalogSyncer.admitted item = true
  ∧ ∃ m, collection (exec (CatalogSyncer.processBatch Sample.fight_club generateSlug
                             (List.filter CatalogSyncer.admitted [item]) movie) w)
         = [m]
         ∧ tmdbId m = 550
         ∧ isActive m = true ∧ trending m = false ∧ lastSyncAt m = 1000.
Proof.
  intros w item. split; [reflexivity|].
  destruct (created_item_flags Sample.fight_club generateSlug w item eq_refl eq_refl)
    as [_ H].
  destruct (H (Sample.details 550 "Fight Club" (75 # 10) 150) eq_refl eq_refl)
    as (m & H1 & H2 & H3 & H4 & H5 & _).
  exists m. repeat split; assumption.
Defined.

(** The scenario of the specification, through [syncPopularMovies]: the
    movie is created active, not trending, synchronised at the instant
    of its creation. *)
Example syncPopularMovies_creates_fight_club :
  let w := exec (CatalogSyncer.syncPopularMovies Sample.fight_club generateSlug)
                (Sample.world 1000 [] true) in
  (λ m, (tmdbId m, isActive m, trending m, lastSyncAt m - createdAt m))
    <$> collection w = [(550, true, false, 0)].
Proof. vm_compute. reflexivity. Qed.

(** ** The client: a detail fetch fails when a sub-fetch fails *)

Lemma mapM_rejected {A} (rs : list (option A)) :
  None ∈ rs → mapM (λ r, r) rs = None.
Proof.
  induction rs as [|r rs IH]; intros H; [inversion H|].
  apply elem_of_cons in H as [<-|H]; [reflexivity|].
  simpl. destruct r; [|reflexivity]. simpl. rewrite (IH H). reflexivity.
Qed.

Lemma Promise_all_rejected api calls s :
  None ∈ fst (TMDBService.settle_all api calls s) →
  fst (TMDBService.Promise_all api calls s) = None.
Proof.
  unfold TMDBService.Promise_all.
  destruct (TMDBService.settle_all api calls s) as [rs s']. simpl.
  apply mapM_rejected.
Qed.

Lemma getMovieDetails_rejected api id s :
  None ∈ fst (TMDBService.settle_all api (TMDBService.movie_calls id) s) →
  fst (TMDBService.getMovieDetails api id s) = None.
Proof.
  intros H. apply Promise_all_rejected in H. unfold TMDBService.getMovieDetails.
  destruct (TMDBService.Promise_all api (TMDBService.movie_calls id) s) as [a s'].
  simpl in *. rewrite H. reflexivity.
Qed.

Lemma getTVDetails_rejected api id s :
  None ∈ fst (TMDBService.settle_all api (TMDBService.tv_calls id) s) →
  fst (TMDBService.getTVDetails api id s) = None.
Proof.
  intros H. apply Promise_all_rejected in H. unfold TMDBService.getTVDetails.
  destruct (TMDBService.Promise_all api (TMDBService.tv_calls id) s) as [a s'].
  simpl in *. rewrite H. reflexivity.
Qed.

Lemma for_of_processItem_returns svc sp ty items p w :
  ∃ n, result (for_of items p (CatalogSyncer.processItem svc sp ty)) w = Return n.
Proof.
  revert p w. induction items as [|item items IH]; intros p w; simpl.
  - eauto.
  - rewrite result_bind. destruct (processItem_returns svc sp ty p item w) as [p' ->].
    apply IH.
Qed.

Lemma run_split {A} (m : M A) w : m w = (result m w, exec m w).
Proof. unfold result, exec. destruct (m w). reflexivity. Qed.

(** C6.  When one of the calls that a detail fetch makes together is
    rejected, the fetch is rejected.  When that happens for an item in
    the middle of a batch, for which no active record is stored, the
    batch goes on with the items after it from a world in which nothing
    was stored for the item and one more error is counted. *)
Theorem failed_detail_fetch_skips_item (api : TMDBService.Remote)
        (sp : string → string) (pre post : list Summary.t) (item : Summary.t)
        (ty : MediaType) (w : World) :
  let svc := TMDBService.service api in
  let w1 := exec (CatalogSyncer.processBatch svc sp pre ty) w in
  let w2 := skipped (details_call ty (Summary.tmdbId item)) w1 in
  None ∈ fst (TMDBService.settle_all api (sub_fetches ty (Summary.tmdbId item))
                TMDBService.cold) →
  lookup_key (collection w1) (Summary.tmdbId item) ty = None →
  details_of svc ty (Summary.tmdbId item) = None
  ∧ (∃ n, result (CatalogSyncer.processBatch svc sp pre ty) w = Return n
          ∧ CatalogSyncer.processBatch svc sp (pre ++ item :: post) ty w
            = for_of post n (CatalogSyncer.processItem svc sp ty) w2)
  ∧ collection w2 = collection w1
  ∧ errors (stats w2) = errors (stats w1) + 1.
Proof.
  intros svc w1 w2 Hfail Hl.
  assert (Hd : details_of svc ty (Summary.tmdbId item) = None).
  { unfold details_of, sub_fetches in *. destruct (type_eqb ty movie).
    - apply getMovieDetails_rejected, Hfail.
    - apply getTVDetails_rejected, Hfail. }
  split; [exact Hd|]. split; [|split; reflexivity].
  destruct (for_of_processItem_returns svc sp ty pre 0 w) as [n Hn].
  exists n. split; [exact Hn|].
  unfold CatalogSyncer.processBatch in *. rewrite for_of_app.
  unfold bind at 1. rewrite (run_split (for_of pre 0 _) w), Hn.
  fold w1. simpl. unfold bind at 1.
  rewrite processItem_run, Hl, Hd. reflexivity.
Qed.

Lemma failed_detail_fetch_skips_item_witness :
  let svc := TMDBService.service Sample.flaky in
  let w := Sample.world 1000 [] true in
  let batch := [Sample.summary 1 "Foo" (75 # 10); Sample.summary 2 "Bar" (75 # 10);
                Sample.summary 3 "Baz" (75 # 10)] in
  let w' := exec (CatalogSyncer.processBatch svc generateSlug batch movie) w in
  None ∈ fst (TMDBService.settle_all Sample.flaky (sub_fetches movie 2) TMDBService.cold)
  ∧ details_of svc movie 2 = None
  ∧ tmdbId <$> collection w' = [1; 3]
  ∧ errors (stats w') = 1.
Proof.
  intros svc w batch w'.
  assert (Hfail : None ∈ fst (TMDBService.settle_all Sample.flaky (sub_fetches movie 2)
                                TMDBService.cold)).
  { vm_compute. right. left. }
  destruct (failed_detail_fetch_skips_item Sample.flaky generateSlug
              [Sample.summary 1 "Foo" (75 # 10)] [Sample.summary 3 "Baz" (75 # 10)]
              (Sample.summary 2 "Bar" (75 # 10)) movie w Hfail)
    as (Hd & _ & _).
  { vm_compute. reflexivity. }
  split; [exact Hfail|]. split; [exact Hd|]. vm_compute. split; reflexivity.
Defined.

(** ** The client: queue and cache *)

Lemma set_queue_same s :
  TMDBService.set_queue (TMDBService.requestQueue s) (TMDBService.isProcessingQueue s) s = s.
Proof. destruct s. reflexivity. Qed.

Lemma misses_frame q b s calls :
  misses (TMDBService.set_queue q b s) calls = misses s calls.
Proof. reflexivity. Qed.

Lemma makeRequests_state calls s :
  snd (TMDBService.makeRequests calls s)
  = TMDBService.set_queue (TMDBService.requestQueue s ++ misses s calls)
      (TMDBService.isProcessingQueue s) s.
Proof.
  revert s. induction calls as [|[e p] calls IH]; intros s; simpl.
  - rewrite app_nil_r. symmetry. apply set_queue_same.
  - unfold TMDBService.makeRequest.
    destruct (TMDBService.cache_get (TMDBService.cacheKey e p) s) as [v|] eqn:Hc.
    + specialize (IH s). destruct (TMDBService.makeRequests calls s) as [prs s2].
      simpl in *. exact IH.
    + match goal with |- context [TMDBService.makeRequests calls ?s1] =>
        specialize (IH s1); destruct (TMDBService.makeRequests calls s1) as [prs s2]
      end.
      simpl in *. rewrite IH, <- app_assoc. reflexivity.
Qed.

Lemma took_nonneg api e p :
  0 <= TMDBService.latency api e → 0 <= snd (TMDBService.axios_get api e p).
Proof.
  intros H. unfold TMDBService.axios_get.
  destruct (TMDBService.timeout <? TMDBService.latency api e); simpl; [|apply H].
  unfold TMDBService.timeout. lia.
Qed.

Lemma spaced_cons gap t ts :
  spaced gap ts → (∀ t', head ts = Some t' → t + gap <= t') → spaced gap (t :: ts).
Proof.
  intros Hs Hh. destruct ts as [|t' ts]; simpl; [exact I|].
  split; [apply Hh; reflexivity | exact Hs].
Qed.

(** The loop of [processQueue] issues the waiting requests in queue
    order, the first at once and each of the others at least
    [requestDelay] after the one before. *)
Lemma drain_outbound api queue s :
  (∀ e, 0 <= TMDBService.latency api e) →
  ∃ ts, length ts = length queue
        ∧ rev (TMDBService.outbound (snd (TMDBService.drain api queue s)))
          = (rev (TMDBService.outbound s)
             ++ zip (TMDBService.endpoint <$> queue) ts)%list
        ∧ spaced TMDBService.requestDelay ts
        ∧ ∀ t, head ts = Some t → t = TMDBService.clock s.
Proof.
  intros Hlat. revert s. induction queue as [|r rest IH]; intros s.
  - exists []. simpl. rewrite app_nil_r. repeat split. intros t H. discriminate.
  - simpl.
    pose proof (took_nonneg api (TMDBService.endpoint r) (TMDBService.params r) (Hlat _)) as Ht.
    destruct (TMDBService.axios_get api (TMDBService.endpoint r) (TMDBService.params r))
      as [answer took]. simpl in Ht.
    match goal with |- context [TMDBService.drain api rest ?s4] =>
      destruct (IH s4) as (ts & Hlen & Hout & Hsp & Hhd);
      assert (Hclock : rest ≠ [] →
                TMDBService.clock s4 = TMDBService.clock s + took + TMDBService.requestDelay)
        by (intros Hne; destruct rest; [congruence|]; destruct answer; reflexivity);
      assert (Houtb : TMDBService.outbound s4
                = (TMDBService.endpoint r, TMDBService.clock s) :: TMDBService.outbound s)
        by (destruct rest, answer; reflexivity);
      destruct (TMDBService.drain api rest s4) as [settled s5]
    end.
    exists (TMDBService.clock s :: ts). simpl in *. split; [congruence|]. split; [|split].
    + rewrite Hout, Houtb. simpl. rewrite <- app_assoc. reflexivity.
    + apply spaced_cons; [exact Hsp|]. intros t' Hh. rewrite (Hhd _ Hh).
      rewrite Hclock; [lia|]. intros ->. destruct ts; simpl in *; discriminate.
    + intros t [= <-]. reflexivity.
Qed.

Lemma settle_all_state api calls s :
  idle s →
  snd (TMDBService.settle_all api calls s)
  = match misses s calls with
    | [] => s
    | queue => TMDBService.set_queue [] false
                 (snd (TMDBService.drain api queue (TMDBService.set_queue [] true s)))
    end.
Proof.
  intros [Hq Hb]. unfold TMDBService.settle_all.
  pose proof (makeRequests_state calls s) as Hs.
  destruct (TMDBService.makeRequests calls s) as [promises s1]. simpl in Hs. subst s1.
  rewrite Hq, Hb, app_nil_l. unfold TMDBService.processQueue.
  cbn [TMDBService.isProcessingQueue TMDBService.requestQueue TMDBService.set_queue orb].
  destruct (misses s calls) as [|r queue] eqn:Hm.
  - rewrite bool_decide_eq_true_2 by reflexivity. cbn [snd].
    rewrite <- Hq, <- Hb. apply set_queue_same.
  - rewrite bool_decide_eq_false_2 by discriminate.
    change (TMDBService.set_queue [] true (TMDBService.set_queue (r :: queue) false s))
      with (TMDBService.set_queue [] true s).
    destruct (TMDBService.drain api (r :: queue) (TMDBService.set_queue [] true s))
      as [settled s2].
    reflexivity.
Qed.

(** C7, as the code has it.  The calls made together on an idle client
    that its cache does not answer are issued in the order in which they
    were made, each at least [requestDelay] (250 ms) after the one before. *)
Theorem queued_calls_are_spaced (api : TMDBService.Remote)
        (calls : list (string * Params)) (s : TMDBService.State) :
  idle s →
  (∀ e, 0 <= TMDBService.latency api e) →
  ∃ ts, length ts = length (misses s calls)
        ∧ rev (TMDBService.outbound (snd (TMDBService.settle_all api calls s)))
          = (rev (TMDBService.outbound s)
             ++ zip (TMDBService.endpoint <$> misses s calls) ts)%list
        ∧ spaced TMDBService.requestDelay ts.
Proof.
  intros Hidle Hlat. rewrite (settle_all_state api calls s Hidle).
  destruct (misses s calls) as [|r queue].
  - exists []. simpl. rewrite app_nil_r. repeat split.
  - destruct (drain_outbound api (r :: queue) (TMDBService.set_queue [] true s) Hlat)
      as (ts & Hlen & Hout & Hsp & _).
    exists ts. split; [exact Hlen|]. split; [exact Hout | exact Hsp].
Qed.

Lemma queued_calls_are_spaced_witness :
  idle TMDBService.cold
  ∧ ∃ ts, length ts = 6%nat
          ∧ rev (TMDBService.outbound
                   (snd (TMDBService.settle_all Sample.flaky (TMDBService.movie_calls 1)
                           TMDBService.cold)))
            = zip (fst <$> TMDBService.movie_calls 1) ts
          ∧ spaced 250 ts.
Proof.
  assert (Hidle : idle TMDBService.cold) by (split; reflexivity).
  split; [exact Hidle|].
  destruct (queued_calls_are_spaced Sample.flaky (TMDBService.movie_calls 1)
              TMDBService.cold Hidle) as (ts & H1 & H2 & H3).
  { intros e. simpl. lia. }
  exists ts. split; [exact H1|]. split; [exact H2 | exact H3].
Defined.

(** C7 fails for calls that are awaited one after the other: the second
    is issued when the first is answered, here 20 ms after the first was
    issued. *)
Lemma awaited_calls_counterexample :
  let s1 := snd (TMDBService.request Sample.flaky "/movie/1" [] TMDBService.cold) in
  let s2 := snd (TMDBService.request Sample.flaky "/movie/3" [] s1) in
  rev (TMDBService.outbound s2) = [("/movie/1", 0); ("/movie/3", 20)]
  ∧ ¬ spaced TMDBService.requestDelay (issue_times s2).
Proof.
  split; [vm_compute; reflexivity|].
  intros H. vm_compute in H. destruct H as [H _]. apply H. reflexivity.
Qed.

(** ** The cache *)


Lemma request_miss api e p s :
  idle s →
  TMDBService.cache_get (TMDBService.cacheKey e p) s = None →
  TMDBService.request api e p s
  = (fst (TMDBService.axios_get api e p), after_request api e p s).
Proof.
  intros [Hq Hb] Hc.
  unfold TMDBService.request, TMDBService.settle_all, TMDBService.makeRequests,
    TMDBService.makeRequest. rewrite Hc, Hq, Hb, app_nil_l.
  unfold TMDBService.processQueue, after_request.
  cbn [TMDBService.isProcessingQueue TMDBService.requestQueue TMDBService.set_queue orb].
  rewrite bool_decide_eq_false_2 by discriminate.
  cbn [TMDBService.drain TMDBService.endpoint TMDBService.params TMDBService.key length].
  destruct (TMDBService.axios_get api e p) as [[data|] took]; reflexivity.
Qed.

Lemma idle_after_request api e p s dt :
  idle (TMDBService.tick dt (after_request api e p s)).
Proof. split; reflexivity. Qed.



(** ** The trending pass *)

Section Trending.

Variable svc : tmdbService.t.
Variable sp : string → string.

Lemma trendingItem_run ids item w :
  CatalogSyncer.trendingItem svc sp ids item w
  = match lookup_key (collection w) (Summary.tmdbId item) (Summary.type item) with
    | Some (i, _) => (Return (ids ++ [i])%list, w)
    | None =>
        let c := details_call (Summary.type item) (Summary.tmdbId item) in
        match details_of svc (Summary.type item) (Summary.tmdbId item) with
        | None => (Return ids, skipped c w)
        | Some d =>
            if refused sp (uniqueTmdbIdType w) (collection w) d
            then (Return ids, skipped c w)
            else
              let w' := added c (candidate sp (clock w) d) w in
              (Return match lookup_key (collection w') (Summary.tmdbId item)
                              (Summary.type item) with
                      | Some (i, _) => (ids ++ [i])%list
                      | None => ids
                      end, w')
        end
    end.
Proof.
  unfold CatalogSyncer.trendingItem, Media.findByTmdbId, Media.findOne.
  unfold bind at 1. unfold gets at 1.
  fold (lookup_key (collection w) (Summary.tmdbId item) (Summary.type item)).
  destruct (lookup_key (collection w) (Summary.tmdbId item) (Summary.type item))
    as [[i x]|] eqn:Hl; [reflexivity|].
  unfold bind at 1. unfold CatalogSyncer.processBatch. simpl for_of.
  unfold bind at 1. rewrite processItem_run, Hl.
  destruct (details_of svc (Summary.type item) (Summary.tmdbId item)) as [d|];
    [|reflexivity].
  destruct (refused sp (uniqueTmdbIdType w) (collection w) d); [reflexivity|].
  cbn [ret]. change (0 <? 0 + 1) with true. cbn iota.
  unfold bind, gets.
  match goal with |- context [Media.findOne_in ?f (collection ?w1)] =>
    fold (lookup_key (collection w1) (Summary.tmdbId item) (Summary.type item));
    destruct (lookup_key (collection w1) (Summary.tmdbId item) (Summary.type item))
      as [[i x]|]
  end; reflexivity.
Qed.

End Trending.

Section TrendingLoop.

Variable svc : tmdbService.t.
Variable sp : string → string.

Lemma lookup_key_new c m n ty x :
  lookup_key c n ty = None →
  lookup_key (c ++ [m]) n ty = Some x →
  x = (length c, m) ∧ key m = (n, ty).
Proof.
  unfold lookup_key. intros Hn Hs. rewrite (findOne_in_app_None _ _ _ Hn) in Hs.
  cbn [Media.find_from] in Hs.
  destruct (Media.matches [Media.tmdbId_is n; Media.type_is ty; Media.isActive_is true]
              (length c) m) eqn:Hm; simpl in Hs; [|discriminate].
  injection Hs as <-. split; [reflexivity|].
  rewrite key_filter_matches in Hm. apply andb_true_iff in Hm as [Hk _].
  apply bool_decide_eq_true in Hk. exact Hk.
Qed.

Lemma matched_app c l done id : matched c done id → matched (c ++ l) done id.
Proof.
  intros (item & m & Hi & Hl). exists item, m. split; [exact Hi|].
  unfold lookup_key in *. apply findOne_in_app, Hl.
Qed.

Lemma matched_snoc c done item id :
  matched c (done ++ [item]) id ↔
  matched c done id
  ∨ ∃ m, lookup_key c (Summary.tmdbId item) (Summary.type item) = Some (id, m).
Proof.
  unfold matched. split.
  - intros (it & m & Hi & Hl). apply elem_of_app in Hi as [Hi|Hi].
    + left. eauto.
    + apply list_elem_of_singleton in Hi. subst it. right. eauto.
  - intros [(it & m & Hi & Hl) | (m & Hl)].
    + exists it, m. split; [apply elem_of_app; left; exact Hi | exact Hl].
    + exists item, m. split; [apply elem_of_app; right; left | exact Hl].
Qed.

Lemma trend_inv_same uk c done ids item :
  trend_inv svc sp uk c done ids →
  lookup_key c (Summary.tmdbId item) (Summary.type item) = None →
  settled svc sp uk c (Summary.type item) (Summary.tmdbId item) →
  trend_inv svc sp uk c (done ++ [item]) ids.
Proof.
  intros (H2 & H3 & H1) Hl Hs. split; [|split; [|exact H1]].
  - intros id. rewrite matched_snoc, H2. split; [auto|].
    intros [H|(m & Hm)]; [exact H | congruence].
  - intros it Hi. apply elem_of_app in Hi as [Hi|Hi]; [apply H3, Hi|].
    apply list_elem_of_singleton in Hi. subst it. exact Hs.
Qed.

Lemma trendingItem_step uk done ids item w :
  uniqueTmdbIdType w = uk →
  trend_inv svc sp uk (collection w) done ids →
  consistent svc [item] →
  ∃ ids' w',
    CatalogSyncer.trendingItem svc sp ids item w = (Return ids', w')
    ∧ uniqueTmdbIdType w' = uk
    ∧ trend_inv svc sp uk (collection w') (done ++ [item]) ids'.
Proof.
  intros Huk Hinv Hcons. rewrite trendingItem_run.
  destruct (lookup_key (collection w) (Summary.tmdbId item) (Summary.type item))
    as [[i x]|] eqn:Hl.
  { (* an active record exists *)
    eexists _, _. split; [reflexivity|]. split; [exact Huk|].
    destruct Hinv as (H2 & H3 & H1). split; [|split; [|exact H1]].
    - intros id. rewrite matched_snoc, elem_of_app, H2, list_elem_of_singleton.
      split; (intros [H|H]; [left; exact H | right]).
      + subst id. eauto.
      + destruct H as [m Hm]. congruence.
    - intros it Hi. apply elem_of_app in Hi as [Hi|Hi]; [apply H3, Hi|].
      apply list_elem_of_singleton in Hi. subst it. left. rewrite Hl. eauto. }
  cbv zeta.
  destruct (details_of svc (Summary.type item) (Summary.tmdbId item)) as [d|] eqn:Hd.
  2: { (* the detail call fails *)
    eexists _, _. split; [reflexivity|]. split; [exact Huk|].
    apply trend_inv_same; [exact Hinv | exact Hl | right; left; exact Hd]. }
  destruct (refused sp (uniqueTmdbIdType w) (collection w) d) eqn:Hr.
  { (* the record is refused *)
    eexists _, _. split; [reflexivity|]. split; [exact Huk|].
    apply trend_inv_same; [exact Hinv | exact Hl |].
    right. right. exists d. rewrite <- Huk. auto. }
  (* the record is added *)
  eexists _, _. split; [reflexivity|]. split; [exact Huk|].
  destruct Hinv as (H2 & H3 & H1).
  set (cand := candidate sp (clock w) d).
  change (collection (added (details_call (Summary.type item) (Summary.tmdbId item))
                            cand w))
    with (collection w ++ [cand])%list.
  assert (Hkey : key cand = (Summary.tmdbId item, Summary.type item)).
  { destruct (Hcons item d) as [E1 E2]; [left | exact Hd |].
    unfold key, cand. simpl. rewrite E1, E2. reflexivity. }
  assert (Hold : ∀ it id m, it ∈ done →
            lookup_key (collection w ++ [cand]) (Summary.tmdbId it) (Summary.type it)
            = Some (id, m) → id ∈ ids).
  { intros it id m Hi Hm.
    destruct (lookup_key (collection w) (Summary.tmdbId it) (Summary.type it))
      as [y|] eqn:Hy.
    - unfold lookup_key in Hm. rewrite (findOne_in_app _ _ [cand] _ Hy) in Hm.
      apply H2. exists it, m. split; [exact Hi|]. rewrite Hy. exact Hm.
    - exfalso. destruct (lookup_key_new _ _ _ _ _ Hy Hm) as [_ Hk].
      rewrite Hkey in Hk. injection Hk as E1 E2.
      destruct (H3 it Hi) as [[y' Hy'] | [Hf | (d' & Hd' & Hr')]].
      + congruence.
      + rewrite <- E1, <- E2 in Hf. congruence.
      + rewrite <- E1, <- E2 in Hd'. rewrite Huk in Hr. congruence. }
  split; [|split].
  - intros id. rewrite matched_snoc. split.
    + intros Hin.
      destruct (lookup_key (collection w ++ [cand]) (Summary.tmdbId item)
                  (Summary.type item)) as [[i x]|] eqn:Hn.
      * apply elem_of_app in Hin as [Hin|Hin].
        -- left. apply matched_app, H2, Hin.
        -- apply list_elem_of_singleton in Hin. subst id. right. eauto.
      * left. apply matched_app, H2, Hin.
    + intros [(it & m & Hi & Hm) | (m & Hm)].
      * pose proof (Hold it id m Hi Hm) as Hin.
        destruct (lookup_key (collection w ++ [cand]) (Summary.tmdbId item)
                    (Summary.type item)) as [[i x]|];
          [apply elem_of_app; left|]; exact Hin.
      * rewrite Hm. apply elem_of_app. right. left.
  - intros it Hi. apply elem_of_app in Hi as [Hi|Hi].
    + apply settled_app, H3, Hi.
    + apply list_elem_of_singleton in Hi. subst it. right. right. exists d.
      split; [exact Hd | apply refused_own].
  - intros id m Hm. apply lookup_app_Some in Hm as [Hm | [_ Hm]].
    + apply (H1 id m Hm).
    + destruct (id - length (collection w))%nat; simpl in Hm; [|discriminate].
      injection Hm as <-. reflexivity.
Qed.

Lemma consistent_cons item items :
  consistent svc (item :: items) → consistent svc [item] ∧ consistent svc items.
Proof.
  intros H. split; intros it d Hi; apply H.
  - apply list_elem_of_singleton in Hi. subst it. left.
  - right. exact Hi.
Qed.

Lemma trending_loop items done ids uk w :
  uniqueTmdbIdType w = uk →
  trend_inv svc sp uk (collection w) done ids →
  consistent svc items →
  ∃ ids' w',
    for_of items ids (CatalogSyncer.trendingItem svc sp) w = (Return ids', w')
    ∧ trend_inv svc sp uk (collection w') (done ++ items) ids'.
Proof.
  revert done ids w. induction items as [|item items IH]; intros done ids w Huk Hinv Hc.
  - exists ids, w. rewrite app_nil_r. split; [reflexivity | exact Hinv].
  - apply consistent_cons in Hc as [Hc1 Hc2].
    destruct (trendingItem_step uk done ids item w Huk Hinv Hc1)
      as (ids1 & w1 & Hrun & Huk1 & Hinv1).
    destruct (IH (done ++ [item])%list ids1 w1 Huk1 Hinv1 Hc2) as (ids' & w' & Hrun' & Hinv').
    exists ids', w'. split.
    + simpl. unfold bind. rewrite Hrun. exact Hrun'.
    + rewrite <- app_assoc in Hinv'. exact Hinv'.
Qed.

End TrendingLoop.

(** ** Updates of flags do not change what is found or refused *)

Lemma find_from_imap g (h : nat → Doc → Doc) from c :
  (∀ id m, Media.matches g id (h id m) = Media.matches g id m) →
  Media.find_from g from (imap (λ i, h (from + i)%nat) c)
  = (λ e, (fst e, h (fst e) (snd e))) <$> Media.find_from g from c.
Proof.
  intros Hh. revert from. induction c as [|m c IH]; intros from; [reflexivity|].
  rewrite imap_cons. cbn [Media.find_from]. rewrite Nat.add_0_r, Hh.
  rewrite (imap_ext _ (λ i, h (S from + i)%nat)).
  2: { intros i x _. simpl. f_equal. lia. }
  rewrite IH. destruct (Media.matches g from m); reflexivity.
Qed.

Lemma findOne_in_updateMany g f set c :
  (∀ id m, Media.matches g id (set m) = Media.matches g id m) →
  Media.findOne_in g (Media.updateMany_in f set c)
  = (λ e, (fst e, if Media.matches f (fst e) (snd e) then set (snd e) else snd e))
      <$> Media.findOne_in g c.
Proof.
  intros Hs. unfold Media.findOne_in, Media.find_in, Media.updateMany_in.
  rewrite (find_from_imap g (λ id m, if Media.matches f id m then set m else m) 0).
  - destruct (Media.find_from g 0 c); reflexivity.
  - intros id m. destruct (Media.matches f id m); [apply Hs | reflexivity].
Qed.

Lemma conflict_updateMany uk m f set c :
  (∀ m', slug (set m') = slug m') → (∀ m', key (set m') = key m') →
  Media.conflict uk None m (Media.updateMany_in f set c) = Media.conflict uk None m c.
Proof.
  intros Hs Hk.
  assert (Hc : ∀ id m', Media.clashes uk m (if Media.matches f id m' then set m' else m')
                        = Media.clashes uk m m').
  { intros id m'. destruct (Media.matches f id m'); [|reflexivity].
    unfold Media.clashes. rewrite Hs, Hk. reflexivity. }
  apply eq_true_iff_eq. rewrite !conflict_true. split.
  - intros (j & m' & Hj & Hn & Hcl). rewrite updateMany_in_lookup in Hj.
    destruct (c !! j) as [m0|] eqn:Hm0; simpl in Hj; [|discriminate].
    injection Hj as <-. rewrite Hc in Hcl. eauto.
  - intros (j & m' & Hj & Hn & Hcl). eexists j, _. rewrite updateMany_in_lookup, Hj.
    split; [reflexivity|]. split; [exact Hn|]. rewrite Hc. exact Hcl.
Qed.

Section TrendingPass.

Variable svc : tmdbService.t.
Variable sp : string → string.

Lemma settled_updateMany uk c f set ty n :
  (∀ m, slug (set m) = slug m) → (∀ m, key (set m) = key m) →
  (∀ id m, Media.matches [Media.tmdbId_is n; Media.type_is ty; Media.isActive_is true]
             id (set m)
           = Media.matches [Media.tmdbId_is n; Media.type_is ty; Media.isActive_is true]
               id m) →
  settled svc sp uk c ty n → settled svc sp uk (Media.updateMany_in f set c) ty n.
Proof.
  intros Hs Hk Hm [[x Hx] | [H | (d & Hd & Hr)]].
  - left. unfold lookup_key in *. rewrite findOne_in_updateMany, Hx by exact Hm. eauto.
  - right. left. exact H.
  - right. right. exists d. split; [exact Hd|]. unfold refused in *.
    rewrite conflict_updateMany by assumption. exact Hr.
Qed.

Lemma syncTrendingContent_run w listing ids w2 :
  tmdbService.getTrending svc "all" "week" = Some listing →
  for_of (take 50 listing) [] (CatalogSyncer.trendingItem svc sp)
    (log_call (Trending "all" "week")
       (set_collection (Media.updateMany_in [] (set_trending false) (collection w)) w))
  = (Return ids, w2) →
  exec (CatalogSyncer.syncTrendingContent svc sp) w
  = set_collection
      (Media.updateMany_in [Media.id_in ids] (set_trending_at true (clock w2))
         (collection w2)) w2.
Proof.
  intros Hl Hloop.
  unfold exec, CatalogSyncer.syncTrendingContent, try_catch, Await.getTrending, Await.call.
  unfold bind at 1 2. unfold Media.updateMany at 1. unfold modify at 1.
  unfold bind at 1 2. unfold modify at 1. rewrite Hl. unfold await, ret at 1.
  unfold bind at 1. rewrite Hloop. reflexivity.
Qed.

End TrendingPass.

Lemma scripts_trending_keys svc ks :
  preserves (λ w, key <$> collection w = ks) (Scripts.syncTrendingContent svc).
Proof.
  unfold Scripts.syncTrendingContent, Media.updateMany,
    Await.getPopularMovies, Await.getPopularTVShows, now.
  split_job ltac:(first
    [ apply preserves_modify; intros w0 H0; simpl;
      first [ exact H0 | rewrite updateMany_in_fmap; [exact H0 | reflexivity] ]
    | apply preserves_call; intros w0 H0; exact H0 ]).
Qed.

(** C5, as the code has it.  When the listing call of the trending pass
    of [CatalogSyncer] succeeds and the detail calls answer for the keys
    they are asked for, then after the pass a document is flagged
    [trending] exactly when it is the active document that
    [findByTmdbId] returns for one of the first 50 listed entries; and
    every such entry either has an active document, or its detail call
    failed, or its document was refused.  The pass of
    [scripts/syncCatalog.js] never adds a document. *)
Theorem trending_pass_flags (svc : tmdbService.t) (sp : string → string)
        (w : World) (listing : list Summary.t) :
  tmdbService.getTrending svc "all" "week" = Some listing →
  consistent svc (take 50 listing) →
  let w' := exec (CatalogSyncer.syncTrendingContent svc sp) w in
  (∀ id m', collection w' !! id = Some m' →
     (trending m' = true ↔ matched (collection w') (take 50 listing) id))
  ∧ (∀ item, item ∈ take 50 listing →
       settled svc sp (uniqueTmdbIdType w) (collection w')
               (Summary.type item) (Summary.tmdbId item))
  ∧ key <$> collection (exec (Scripts.syncTrendingContent svc) w)
    = key <$> collection w.
Proof.
  intros Hl Hc w'.
  pose (w1 := log_call (Trending "all" "week")
                (set_collection
                   (Media.updateMany_in [] (set_trending false) (collection w)) w)).
  destruct (trending_loop svc sp (take 50 listing) [] [] (uniqueTmdbIdType w) w1)
    as (ids & w2 & Hloop & Hids & Hset & Hun).
  { reflexivity. }
  { split; [|split].
    - intros id. split; [intros H; inversion H|].
      intros (item & m & Hi & _). inversion Hi.
    - intros item Hi. inversion Hi.
    - intros id m Hm. simpl in Hm. rewrite updateMany_in_lookup in Hm.
      destruct (collection w !! id) as [m0|]; simpl in Hm; [|discriminate].
      injection Hm as <-. reflexivity. }
  { exact Hc. }
  simpl in Hids, Hset.
  assert (Hw' : w' = set_collection
                       (Media.updateMany_in [Media.id_in ids]
                          (set_trending_at true (clock w2)) (collection w2)) w2).
  { apply syncTrendingContent_run with (listing := listing); assumption. }
  rewrite Hw'. cbn [collection set_collection].
  split; [|split].
  - intros id m' Hm'. rewrite updateMany_in_lookup in Hm'.
    destruct (collection w2 !! id) as [m2|] eqn:Hm2;
      cbn [fmap option_fmap option_map] in Hm'; [|discriminate].
    injection Hm' as <-.
    rewrite andb_true_r.
    assert (Hmat : matched
                     (Media.updateMany_in [Media.id_in ids]
                        (set_trending_at true (clock w2)) (collection w2))
                     (take 50 listing) id
                   ↔ matched (collection w2) (take 50 listing) id).
    { unfold matched, lookup_key. split.
      - intros (item & m & Hi & Hf).
        rewrite findOne_in_updateMany in Hf by reflexivity.
        destruct (Media.findOne_in _ (collection w2)) as [[i m0]|] eqn:Hf0;
          simpl in Hf; [|discriminate].
        injection Hf as -> _. eauto.
      - intros (item & m & Hi & Hf). exists item. eexists. split; [exact Hi|].
        rewrite findOne_in_updateMany by reflexivity. rewrite Hf. reflexivity. }
    rewrite Hmat, <- Hids.
    destruct (bool_decide (id ∈ ids)) eqn:Hd.
    + apply bool_decide_eq_true in Hd. split; [intros _; exact Hd | reflexivity].
    + apply bool_decide_eq_false in Hd. rewrite (Hun _ _ Hm2).
      split; [discriminate | intros H; destruct (Hd H)].
  - intros item Hi. apply settled_updateMany; try reflexivity.
    apply Hset, Hi.
  - apply (scripts_trending_keys svc (key <$> collection w) w). reflexivity.
Qed.

Lemma trending_pass_flags_witness :
  let listing := [Sample.summary 550 "Fight Club" (75 # 10);
                  Sample.summary 7 "Lost" (75 # 10)] in
  let w := Sample.world 0 [Sample.stored 1 "Foo" (75 # 10) true] true in
  let w' := exec (CatalogSyncer.syncTrendingContent Sample.weekly generateSlug) w in
  (∀ id m', collection w' !! id = Some m' →
     (trending m' = true ↔ matched (collection w') (take 50 listing) id))
  ∧ (∀ item, item ∈ take 50 listing →
       settled Sample.weekly generateSlug true (collection w')
               (Summary.type item) (Summary.tmdbId item))
  ∧ key <$> collection (exec (Scripts.syncTrendingContent Sample.weekly) w)
    = key <$> collection w.
Proof.
  intros listing w.
  apply (trending_pass_flags Sample.weekly generateSlug w listing).
  - reflexivity.
  - intros item d Hi Hd. simpl in Hi.
    apply elem_of_cons in Hi as [-> | Hi].
    + vm_compute in Hd. injection Hd as <-. split; reflexivity.
    + apply elem_of_cons in Hi as [-> | Hi]; [vm_compute in Hd; discriminate|].
      inversion Hi.
Defined.

(** The weekly listing has movies number 550 and 7.  After the pass of
    [CatalogSyncer] on an empty collection movie number 550 is stored and
    flagged, and movie number 7, whose detail call fails, has no
    document; after the pass of [scripts/syncCatalog.js], whose listing
    has movie number 550, the collection is still empty. *)
Lemma trending_pass_counterexample :
  let w := Sample.world 0 [] true in
  let w' := exec (CatalogSyncer.syncTrendingContent Sample.weekly generateSlug) w in
  tmdbService.getTrending Sample.weekly "all" "week"
  = Some [Sample.summary 550 "Fight Club" (75 # 10); Sample.summary 7 "Lost" (75 # 10)]
  ∧ (λ m, (key m, trending m)) <$> collection w' = [((550, movie), true)]
  ∧ lookup_key (collection w') 7 movie = None
  ∧ tmdbService.getPopularMovies Sample.weekly 1
    = Some [Sample.summary 550 "Fight Club" (75 # 10)]
  ∧ collection (exec (Scripts.syncTrendingContent Sample.weekly) w) = [].
Proof. vm_compute. repeat split; reflexivity. Qed.

(** * Further properties *)

Section Batch.

Variable svc : tmdbService.t.
Variable sp : string → string.

(** What one turn of [processBatch] does to the count, the collection
    and the error counter. *)
Lemma processItem_counts ty p item w :
  ∃ n (l : list Doc),
    CatalogSyncer.processItem svc sp ty p item w
    = (Return (p + n), exec (CatalogSyncer.processItem svc sp ty 0 item) w)
    ∧ collection (exec (CatalogSyncer.processItem svc sp ty 0 item) w)
      = (collection w ++ l)%list
    ∧ Z.of_nat (length l) = n
    ∧ 0 <= errors (stats (exec (CatalogSyncer.processItem svc sp ty 0 item) w))
           - errors (stats w)
    ∧ n + (errors (stats (exec (CatalogSyncer.processItem svc sp ty 0 item) w))
           - errors (stats w)) <= 1.
Proof.
  unfold exec. rewrite !processItem_run.
  destruct (lookup_key (collection w) (Summary.tmdbId item) ty) as [x|].
  { exists 0, []. simpl. rewrite Z.add_0_r, app_nil_r. repeat split; lia. }
  cbv zeta. destruct (details_of svc ty (Summary.tmdbId item)) as [d|].
  2: { exists 0, []. simpl. rewrite Z.add_0_r, app_nil_r. repeat split; lia. }
  destruct (refused sp (uniqueTmdbIdType w) (collection w) d).
  - exists 0, []. simpl. rewrite Z.add_0_r, app_nil_r. repeat split; lia.
  - exists 1, [candidate sp (clock w) d]. simpl. repeat split; lia.
Qed.

Lemma for_of_processItem_counts ty items p w :
  ∃ n (l : list Doc),
    for_of items p (CatalogSyncer.processItem svc sp ty) w
    = (Return (p + n), exec (CatalogSyncer.processBatch svc sp items ty) w)
    ∧ collection (exec (CatalogSyncer.processBatch svc sp items ty) w)
      = (collection w ++ l)%list
    ∧ Z.of_nat (length l) = n
    ∧ 0 <= errors (stats (exec (CatalogSyncer.processBatch svc sp items ty) w))
           - errors (stats w)
    ∧ n + (errors (stats (exec (CatalogSyncer.processBatch svc sp items ty) w))
           - errors (stats w)) <= Z.of_nat (length items).
Proof.
  unfold CatalogSyncer.processBatch.
  revert p w. induction items as [|item items IH]; intros p w.
  { exists 0, []. simpl. unfold ret, exec. simpl.
    rewrite Z.add_0_r, app_nil_r. repeat split; lia. }
  destruct (processItem_counts ty p item w) as (n1 & l1 & H1 & Hc1 & Hl1 & He1 & Hb1).
  destruct (processItem_counts ty 0 item w) as (n0 & l0 & H0 & Hc0 & Hl0 & _).
  set (w1 := exec (CatalogSyncer.processItem svc sp ty 0 item) w) in *.
  assert (n0 = n1) as ->.
  { rewrite <- Hl0, <- Hl1. f_equal. f_equal.
    rewrite Hc1 in Hc0. apply app_inv_head in Hc0. congruence. }
  destruct (IH (p + n1) w1) as (n2 & l2 & H2 & Hc2 & Hl2 & He2 & Hb2).
  destruct (IH (0 + n1) w1) as (n3 & l3 & H3 & Hc3 & Hl3 & _).
  set (w2 := exec (for_of items 0 (CatalogSyncer.processItem svc sp ty)) w1) in *.
  assert (Hex : exec (for_of (item :: items) 0 (CatalogSyncer.processItem svc sp ty)) w = w2).
  { unfold exec at 1. simpl. unfold bind. rewrite H0, H3. reflexivity. }
  exists (n1 + n2), (l1 ++ l2)%list. rewrite Hex.
  split; [|split; [|split; [|split]]].
  - simpl. unfold bind. rewrite H1, H2. f_equal. f_equal. lia.
  - rewrite Hc2, Hc1, app_assoc. reflexivity.
  - rewrite length_app. lia.
  - lia.
  - simpl length. lia.
Qed.

Lemma processBatch_run ty items w :
  ∃ n (l : list Doc),
    (∀ p, for_of items p (CatalogSyncer.processItem svc sp ty) w
          = (Return (p + n), exec (CatalogSyncer.processBatch svc sp items ty) w))
    ∧ collection (exec (CatalogSyncer.processBatch svc sp items ty) w)
      = (collection w ++ l)%list
    ∧ Z.of_nat (length l) = n
    ∧ 0 <= errors (stats (exec (CatalogSyncer.processBatch svc sp items ty) w))
           - errors (stats w)
    ∧ n + (errors (stats (exec (CatalogSyncer.processBatch svc sp items ty) w))
           - errors (stats w)) <= Z.of_nat (length items).
Proof.
  destruct (for_of_processItem_counts ty items 0 w) as (n & l & H0 & Hc & Hl & He).
  exists n, l. split; [|split; [exact Hc | split; [exact Hl | exact He]]].
  intros p.
  destruct (for_of_processItem_counts ty items p w) as (n' & l' & Hp & Hc' & Hl' & _).
  rewrite Hp. f_equal. f_equal. f_equal.
  rewrite <- Hl, <- Hl'. f_equal. f_equal.
  rewrite Hc in Hc'. apply app_inv_head in Hc'. congruence.
Qed.

Lemma processBatch_app_run ty a b w :
  ∃ n m,
    CatalogSyncer.processBatch svc sp a ty w
    = (Return n, exec (CatalogSyncer.processBatch svc sp a ty) w)
    ∧ CatalogSyncer.processBatch svc sp b ty
        (exec (CatalogSyncer.processBatch svc sp a ty) w)
      = (Return m, exec (CatalogSyncer.processBatch svc sp b ty)
                     (exec (CatalogSyncer.processBatch svc sp a ty) w))
    ∧ CatalogSyncer.processBatch svc sp (a ++ b) ty w
      = (Return (n + m), exec (CatalogSyncer.processBatch svc sp b ty)
                           (exec (CatalogSyncer.processBatch svc sp a ty) w)).
Proof.
  destruct (processBatch_run ty a w) as (n & l & Ha & _).
  destruct (processBatch_run ty b (exec (CatalogSyncer.processBatch svc sp a ty) w))
    as (m & l' & Hb & _).
  exists n, m. split; [apply (Ha 0)|]. split; [apply (Hb 0)|].
  unfold CatalogSyncer.processBatch at 1. rewrite for_of_app. unfold bind.
  rewrite (Ha 0). apply Hb.
Qed.

(** X1.  [processBatch] never rejects.  The number it returns is the
    number of documents it added, all at the end of the collection; the
    documents added and the errors counted are together at most the
    entries of the batch. *)
Theorem processBatch_returns_what_it_added (items : list Summary.t) (ty : MediaType)
        (w : World) :
  let w' := exec (CatalogSyncer.processBatch svc sp items ty) w in
  ∃ n (l : list Doc),
    CatalogSyncer.processBatch svc sp items ty w = (Return n, w')
    ∧ collection w' = (collection w ++ l)%list
    ∧ Z.of_nat (length l) = n
    ∧ 0 <= errors (stats w') - errors (stats w)
    ∧ n + (errors (stats w') - errors (stats w)) <= Z.of_nat (length items).
Proof.
  intros w'. destruct (processBatch_run ty items w) as (n & l & H & Hrest).
  exists n, l. split; [apply (H 0) | exact Hrest].
Qed.

(** X2.  [processBatch] on a list in two parts does what [processBatch]
    on the first part followed by [processBatch] on the second does,
    and returns the sum of what the two return. *)
Theorem processBatch_of_two_parts (a b : list Summary.t) (ty : MediaType) (w : World) :
  let w1 := exec (CatalogSyncer.processBatch svc sp a ty) w in
  exec (CatalogSyncer.processBatch svc sp (a ++ b) ty) w
  = exec (CatalogSyncer.processBatch svc sp b ty) w1
  ∧ ∃ n m,
      result (CatalogSyncer.processBatch svc sp a ty) w = Return n
      ∧ result (CatalogSyncer.processBatch svc sp b ty) w1 = Return m
      ∧ result (CatalogSyncer.processBatch svc sp (a ++ b) ty) w = Return (n + m).
Proof.
  intros w1. destruct (processBatch_app_run ty a b w) as (n & m & Ha & Hb & Hab).
  fold w1 in Ha, Hb, Hab. unfold exec at 1, result.
  rewrite Hab. split; [reflexivity|].
  exists n, m. rewrite Ha, Hb. repeat split.
Qed.

End Batch.

Lemma for_of_ext {A S} (xs : list A) (f g : S → A → M S) s w :
  (∀ s x w, f s x w = g s x w) → for_of xs s f w = for_of xs s g w.
Proof.
  intros H. revert s w. induction xs as [|x xs IH]; intros s w; [reflexivity|].
  simpl. unfold bind. rewrite H. destruct (g s x w) as [[s'|e] w']; [apply IH | reflexivity].
Qed.

Section Pages.

Variable svc : tmdbService.t.
Variable sp : string → string.

Lemma page_in_batches (keep : Summary.t → bool) ty (results batch : list Summary.t) (added : Z) w :
  (length batch < CatalogSyncer.batchSize)%nat →
  (r <- for_of results (batch, added) (λ st item,
          let batch := if keep item then (fst st ++ [item])%list else fst st in
          if (CatalogSyncer.batchSize <=? length batch)%nat
          then (processed <- CatalogSyncer.processBatch svc sp batch ty ;;
                ret ([], snd st + processed))
          else ret (batch, snd st)) ;;
   if (0 <? length (fst r))%nat
   then (processed <- CatalogSyncer.processBatch svc sp (fst r) ty ;;
         ret (snd r + processed))
   else ret (snd r)) w
  = (processed <- CatalogSyncer.processBatch svc sp
                    (batch ++ List.filter keep results)%list ty ;;
     ret (added + processed)) w.
Proof.
  revert batch added w. induction results as [|item results IH]; intros batch added w Hlen.
  - simpl. rewrite app_nil_r. unfold bind at 1. unfold ret at 1. simpl.
    destruct batch as [|x batch]; simpl; [|reflexivity].
    unfold bind, ret. simpl. rewrite Z.add_0_r. reflexivity.
  - cbn [for_of List.filter]. cbv zeta. cbn [fst snd].
    destruct (keep item) eqn:Hk.
    + destruct (Nat.leb_spec CatalogSyncer.batchSize (length (batch ++ [item]))) as [Hfull|Hroom].
      * destruct (processBatch_app_run svc sp ty (batch ++ [item]) (List.filter keep results) w)
          as (n & m & Ha & Hb & Hab).
        replace (batch ++ item :: List.filter keep results)%list
          with ((batch ++ [item]) ++ List.filter keep results)%list
          by (rewrite <- app_assoc; reflexivity).
        unfold bind at 1 2 3. rewrite Ha. unfold ret at 1.
        specialize (IH [] (added + n) (exec (CatalogSyncer.processBatch svc sp (batch ++ [item]) ty) w)).
        unfold bind at 1 in IH. rewrite IH by (unfold CatalogSyncer.batchSize; simpl; lia).
        simpl. unfold bind. rewrite Hb, Hab. unfold ret. f_equal. f_equal. lia.
      * unfold bind at 1 2. unfold ret at 1.
        specialize (IH (batch ++ [item])%list added w Hroom).
        unfold bind at 1 in IH. rewrite IH.
        rewrite <- app_assoc. reflexivity.
    + destruct (Nat.leb_spec CatalogSyncer.batchSize (length batch)) as [Hfull|Hroom]; [lia|].
      unfold bind at 1 2. unfold ret at 1.
      specialize (IH batch added w Hlen). unfold bind at 1 in IH. rewrite IH. reflexivity.
Qed.

Lemma bind_assoc {A B C} (m : M A) (f : A → M B) (g : B → M C) w :
  bind (bind m f) g w = bind m (λ x, bind (f x) g) w.
Proof. unfold bind. destruct (m w) as [[a|e] w']; reflexivity. Qed.

Lemma bind_congr {A B} (m m' : M A) (k : A → M B) w :
  m w = m' w → bind m k w = bind m' k w.
Proof. unfold bind. intros ->. reflexivity. Qed.

Lemma bind_ext {A B} (m : M A) (k k' : A → M B) w :
  (∀ a w', k a w' = k' a w') → bind m k w = bind m k' w.
Proof. intros H. unfold bind. destruct (m w) as [[a|e] w']; [apply H | reflexivity]. Qed.

(** X3.  The batches of ten of the page loop of [syncPopularMovies] and
    [syncPopularSeries] change nothing: the loop does what the loop
    that runs one [processBatch] per page, on the entries of the page
    that pass the test, does. *)
Theorem syncPages_batches_are_transparent (getPage : Z → M (list Summary.t))
        (keep : Summary.t → bool) (ty : MediaType) (w : World) :
  CatalogSyncer.syncPages svc sp getPage keep ty w
  = syncPages_unbatched svc sp getPage keep ty w.
Proof.
  unfold CatalogSyncer.syncPages, syncPages_unbatched. apply for_of_ext.
  clear w. intros added page w. apply bind_ext. clear w. intros results w1.
  rewrite <- bind_assoc.
  rewrite (bind_congr _ _ _ _ (page_in_batches keep ty results [] added w1
                                 ltac:(unfold CatalogSyncer.batchSize; simpl; lia))).
  rewrite bind_assoc. reflexivity.
Qed.

End Pages.

Section Releases.

Variable svc : tmdbService.t.
Variable sp : string → string.

(** X4.  [syncNewReleases] never rejects, adds at most 30 documents,
    all at the end of the collection, and changes no stored document. *)
Theorem syncNewReleases_adds_at_most_30 (w : World) :
  result (CatalogSyncer.syncNewReleases svc sp) w = Return tt
  ∧ ∃ l, collection (exec (CatalogSyncer.syncNewReleases svc sp) w)
         = (collection w ++ l)%list
         ∧ (length l <= 30)%nat.
Proof.
  cut (∃ w' l, CatalogSyncer.syncNewReleases svc sp w = (Return tt, w')
               ∧ collection w' = (collection w ++ l)%list ∧ (length l <= 30)%nat).
  { intros (w' & l & Hrun & Hc & Hl). unfold result, exec. rewrite Hrun.
    split; [reflexivity|]. exists l. split; assumption. }
  unfold CatalogSyncer.syncNewReleases.
  unfold bind at 1. unfold gets at 1.
  destruct (isRunning w) eqn:Hrun.
  { exists w, []. rewrite app_nil_r. split; [reflexivity|]. split; [reflexivity | simpl; lia]. }
  unfold bind at 1. unfold modify at 1.
  unfold try_finally, try_catch, Await.getUpcomingMovies, Await.getNowPlayingMovies,
    Await.call.
  unfold bind at 1 2. unfold modify at 1.
  destruct (tmdbService.getUpcomingMovies svc) as [up|]; unfold await at 1.
  2: { eexists _, []. rewrite app_nil_r. split; [reflexivity|].
       split; [reflexivity | simpl; lia]. }
  unfold bind at 1 2. unfold modify at 1.
  destruct (tmdbService.getNowPlayingMovies svc) as [np|]; unfold await at 1.
  2: { eexists _, []. rewrite app_nil_r. split; [reflexivity|].
       split; [reflexivity | simpl; lia]. }
  unfold ret at 1 2. cbv beta iota.
  set (w1 := log_call NowPlayingMovies (log_call UpcomingMovies (set_isRunning true w))).
  set (b1 := take 20 (List.filter (λ m, geq (average (Summary.rating m)) 6) np)).
  set (b2 := take 10 (List.filter (λ m, geq (average (Summary.rating m)) 7) up)).
  destruct (processBatch_run svc sp movie b1 w1) as (n1 & l1 & H1 & Hc1 & Hl1 & He1 & Hb1).
  set (w2 := exec (CatalogSyncer.processBatch svc sp b1 movie) w1) in *.
  destruct (processBatch_run svc sp movie b2 w2) as (n2 & l2 & H2 & Hc2 & Hl2 & He2 & Hb2).
  unfold bind at 1. unfold CatalogSyncer.processBatch at 1. rewrite (H1 0).
  unfold bind at 1. unfold CatalogSyncer.processBatch at 1. rewrite (H2 0).
  unfold ret, modify. eexists _, (l1 ++ l2)%list. split; [reflexivity|].
  cbn [collection set_isRunning].
  rewrite Hc2, Hc1, <- app_assoc. split; [reflexivity|].
  rewrite length_app.
  assert (length b1 <= 20)%nat by (unfold b1; rewrite length_take; lia).
  assert (length b2 <= 10)%nat by (unfold b2; rewrite length_take; lia).
  lia.
Qed.

End Releases.

Lemma try_catch_returns (m : M unit) (h : Error → M unit) w :
  (∀ e w1, ∃ w2, h e w1 = (Return tt, w2)) →
  ∃ w', try_catch m h w = (Return tt, w').
Proof.
  intros Hh. unfold try_catch. destruct (m w) as [[[]|e] w1]; [eauto|]. apply Hh.
Qed.

Lemma guarded_returns (body : M unit) w :
  (∀ w1, ∃ w2, body w1 = (Return tt, w2)) →
  ∃ w', (running <- gets isRunning ;;
         if running then ret tt
         else modify (set_isRunning true) ;;;
              try_finally body (modify (set_isRunning false))) w = (Return tt, w')
        ∧ (isRunning w = true → w' = w)
        ∧ isRunning w' = isRunning w.
Proof.
  intros Hbody. unfold bind at 1, gets at 1.
  destruct (isRunning w) eqn:Hrun.
  - exists w. split; [reflexivity|]. split; [reflexivity | exact Hrun].
  - unfold bind, modify at 1, try_finally.
    destruct (Hbody (set_isRunning true w)) as [w2 ->].
    eexists. split; [reflexivity|]. split; [discriminate | reflexivity].
Qed.

Section Lock.

Variable svc : tmdbService.t.
Variable sp : string → string.

(** X5.  [fullSync] and [syncNewReleases] never reject.  Started while
    [isRunning] is set they return at once and change nothing; started
    otherwise they leave [isRunning] cleared, whatever happened in
    between. *)
Theorem sync_jobs_hold_the_lock (w : World) :
  (isRunning w = true →
     CatalogSyncer.fullSync svc sp w = (Return tt, w)
     ∧ CatalogSyncer.syncNewReleases svc sp w = (Return tt, w))
  ∧ result (CatalogSyncer.fullSync svc sp) w = Return tt
  ∧ result (CatalogSyncer.syncNewReleases svc sp) w = Return tt
  ∧ isRunning (exec (CatalogSyncer.fullSync svc sp) w) = isRunning w
  ∧ isRunning (exec (CatalogSyncer.syncNewReleases svc sp) w) = isRunning w.
Proof.
  assert (Hc : ∀ (e : Error) w1, ∃ w2, count_error w1 = (Return tt, w2)).
  { intros _ w1. eexists. reflexivity. }
  assert (Hr : ∀ (e : Error) w1, ∃ w2, ret tt w1 = (Return tt, w2)).
  { intros _ w1. eexists. reflexivity. }
  assert (N : ∃ w', CatalogSyncer.syncNewReleases svc sp w = (Return tt, w')
                    ∧ (isRunning w = true → w' = w) ∧ isRunning w' = isRunning w).
  { unfold CatalogSyncer.syncNewReleases. apply guarded_returns.
    intros w1. apply try_catch_returns, Hr. }
  assert (F : ∃ w', CatalogSyncer.fullSync svc sp w = (Return tt, w')
                    ∧ (isRunning w = true → w' = w) ∧ isRunning w' = isRunning w).
  { unfold CatalogSyncer.fullSync. unfold bind at 1, gets at 1.
    destruct (isRunning w) eqn:Hrun.
    - exists w. split; [reflexivity|]. split; [reflexivity | exact Hrun].
    - unfold bind at 1. unfold modify at 1. unfold bind at 1.
      unfold CatalogSyncer.resetStats at 1. unfold bind at 1. unfold now, gets at 1.
      unfold modify at 1. unfold try_finally.
      match goal with
      | |- context [try_catch ?m ?h ?w1] =>
          destruct (try_catch_returns m h w1 Hc) as [w2 ->]
      end.
      eexists. split; [reflexivity|]. split; [discriminate | reflexivity]. }
  destruct N as (wn & N1 & N2 & N3), F as (wf & F1 & F2 & F3).
  unfold result, exec. rewrite N1, F1.
  split; [|repeat split; assumption].
  intros H. rewrite (N2 H), (F2 H). split; reflexivity.
Qed.

End Lock.

(** X6.  [cleanupObsoleteContent] of the backend removes nothing: every
    document keeps its place, its key, title, slug, ratings, analytics
    and dates; a document that was inactive, or is active afterwards, is
    exactly as it was.  Running the cleanup again at once changes
    nothing more. *)
Theorem cleanup_is_a_soft_delete (w : World) :
  let w1 := exec CatalogSyncer.cleanupObsoleteContent w in
  length (collection w1) = length (collection w)
  ∧ (∀ id m, collection w !! id = Some m →
       ∃ m', collection w1 !! id = Some m' ∧ same_content m m'
             ∧ (isActive m = false ∨ isActive m' = true → m' = m))
  ∧ collection (exec CatalogSyncer.cleanupObsoleteContent w1) = collection w1.
Proof.
  intros w1.
  assert (Hlen : length (collection w1) = length (collection w)).
  { change (collection w1)
      with (Media.updateMany_in (CatalogSyncer.obsolete (clock w))
              (set_isActive_at false (clock w)) (collection w)).
    apply updateMany_in_length. }
  split; [exact Hlen|]. split.
  - intros id m Hm. unfold w1. rewrite (job_cleanup_exact w id m Hm).
    eexists. split; [reflexivity|].
    destruct (obsolete_at (clock w) m) eqn:Ho.
    + split; [repeat split|]. intros [Hi|Hi].
      * unfold obsolete_at in Ho. rewrite Hi in Ho. discriminate.
      * discriminate.
    + split; [repeat split | reflexivity].
  - apply list_eq. intros id.
    destruct (collection w1 !! id) as [m1|] eqn:Hm1.
    + rewrite (job_cleanup_exact w1 id m1 Hm1).
      destruct (collection w !! id) as [m|] eqn:Hm.
      * unfold w1 in Hm1. rewrite (job_cleanup_exact w id m Hm) in Hm1.
        injection Hm1 as <-. change (clock w1) with (clock w).
        destruct (obsolete_at (clock w) m) eqn:Ho; [reflexivity|].
        rewrite Ho. reflexivity.
      * apply lookup_lt_Some in Hm1. apply lookup_ge_None in Hm. lia.
    + apply lookup_ge_None. apply lookup_ge_None in Hm1.
      change (collection (exec CatalogSyncer.cleanupObsoleteContent w1))
        with (Media.updateMany_in (CatalogSyncer.obsolete (clock w1))
                (set_isActive_at false (clock w1)) (collection w1)).
      rewrite updateMany_in_length. exact Hm1.
Qed.

(** ** A refresh leaves recent items alone *)

Section Recent.

Variable svc : tmdbService.t.

Ltac recent_leaf :=
  first
    [ apply call_kept
    | apply modify_kept; intros; reflexivity
    | apply preserves_convert; intros
    | apply preserves_convert_aggregator; intros ].

Lemma stale_entry cutoff c id media n :
  (id, media) ∈ take n (Media.find_in [Media.tmdbId_exists; Media.lastSyncAt_lt cutoff] c) →
  c !! id = Some media ∧ ∀ x, untouched_if_recent cutoff media x.
Proof.
  intros Hin. apply elem_of_take in Hin as (i & Hin & _).
  apply list_elem_of_lookup_2 in Hin. apply find_in_lookup in Hin as [Hin Hm].
  split; [exact Hin|]. intros x Hx. unfold Media.matches in Hm. simpl in Hm.
  rewrite andb_true_r in Hm. apply Z.ltb_lt in Hm. lia.
Qed.

Lemma job_updateItem_recent cutoff c0 p id media :
  c0 !! id = Some media → (∀ x, untouched_if_recent cutoff media x) →
  preserves (kept (untouched_if_recent cutoff) c0) (CatalogSyncer.updateItem svc p (id, media)).
Proof.
  intros H0 Hx. unfold CatalogSyncer.updateItem, CatalogSyncer.fetchDetails,
    Await.getMovieDetails, Await.getTVDetails, now.
  split_job recent_leaf.
  all: eapply findByIdAndUpdate_kept; [exact H0|]; intros cur _; apply Hx.
Qed.

Lemma aggregator_updateItem_recent cutoff c0 p id media :
  c0 !! id = Some media → (∀ x, untouched_if_recent cutoff media x) →
  preserves (kept (untouched_if_recent cutoff) c0)
            (ContentAggregator.updateItem svc p (id, media)).
Proof.
  intros H0 Hx. unfold ContentAggregator.updateItem, ContentAggregator.fetchDetails,
    Await.getMovieDetails, Await.getTVDetails, delay.
  split_job recent_leaf.
  all: eapply findByIdAndUpdate_kept; [exact H0|]; intros cur _; apply Hx.
Qed.

(** X7.  A document that was synchronised within the last seven days is
    left exactly as it is by [updateExistingContent], in the job of the
    backend and in the aggregator. *)
Theorem refresh_leaves_recent_items (w : World) (id : nat) (m : Doc) :
  collection w !! id = Some m →
  clock w - 7 * day <= lastSyncAt m →
  collection (exec (CatalogSyncer.updateExistingContent svc) w) !! id = Some m
  ∧ collection (exec (ContentAggregator.updateExistingContent svc) w) !! id = Some m.
Proof.
  intros Hm Hrecent.
  cut (kept (untouched_if_recent (clock w - 7 * day)) (collection w)
            (exec (CatalogSyncer.updateExistingContent svc) w)
       ∧ kept (untouched_if_recent (clock w - 7 * day)) (collection w)
              (exec (ContentAggregator.updateExistingContent svc) w)).
  { intros [H1 H2]. split.
    - destruct (H1 id m Hm) as (m' & Hm' & HR). rewrite Hm', (HR Hrecent). reflexivity.
    - destruct (H2 id m Hm) as (m' & Hm' & HR). rewrite Hm', (HR Hrecent). reflexivity. }
  split.
  - set (existingMedia :=
           take 200 (Media.find_in
             [Media.tmdbId_exists; Media.lastSyncAt_lt (clock w - 7 * day)] (collection w))).
    change (exec (CatalogSyncer.updateExistingContent svc) w)
      with (exec (try_catch
        (updated <- for_of (slices (length existingMedia) CatalogSyncer.batchSize existingMedia) 0
                      (λ updated batch,
                         updated' <- for_of batch updated (CatalogSyncer.updateItem svc) ;;
                         delay (CatalogSyncer.apiDelay * Z.of_nat CatalogSyncer.batchSize) ;;;
                         ret updated') ;;
         modify (λ w, set_stats (add_stats 0 0 0 updated 0 (stats w)) w))
        (λ _, count_error)) w).
    cut (preserves (kept (untouched_if_recent (clock w - 7 * day)) (collection w))
      (try_catch
        (updated <- for_of (slices (length existingMedia) CatalogSyncer.batchSize existingMedia) 0
                      (λ updated batch,
                         updated' <- for_of batch updated (CatalogSyncer.updateItem svc) ;;
                         delay (CatalogSyncer.apiDelay * Z.of_nat CatalogSyncer.batchSize) ;;;
                         ret updated') ;;
         modify (λ w, set_stats (add_stats 0 0 0 updated 0 (stats w)) w))
        (λ _, count_error))).
    { intros H. apply H, kept_start. intros x _. reflexivity. }
    unfold count_error, delay. split_job recent_leaf.
    match goal with
    | Hb : ?b ∈ slices _ _ _, Hx : ?x ∈ ?b |- _ =>
        pose proof (slices_elem _ _ _ _ _ Hb Hx) as Hin; destruct x as [i media]
    end.
    destruct (stale_entry _ _ _ _ _ Hin). apply job_updateItem_recent; assumption.
  - set (existingMedia :=
           take 100 (Media.find_in
             [Media.tmdbId_exists; Media.lastSyncAt_lt (clock w - 7 * day)] (collection w))).
    change (exec (ContentAggregator.updateExistingContent svc) w)
      with (exec (for_of existingMedia 0 (ContentAggregator.updateItem svc)) w).
    cut (preserves (kept (untouched_if_recent (clock w - 7 * day)) (collection w))
           (for_of existingMedia 0 (ContentAggregator.updateItem svc))).
    { intros H. apply H, kept_start. intros x _. reflexivity. }
    split_job recent_leaf.
    match goal with
    | Hx : ?x ∈ existingMedia |- _ => destruct x as [i media]; rename Hx into Hin
    end.
    destruct (stale_entry _ _ _ _ _ Hin). apply aggregator_updateItem_recent; assumption.
Qed.

End Recent.

Lemma refresh_leaves_recent_items_witness :
  let m := Sample.stored 1 "Foo" (75 # 10) true in
  let w := Sample.world (1 * day) [m] true in
  collection (exec (CatalogSyncer.updateExistingContent Sample.renamed) w) !! 0%nat = Some m
  ∧ collection (exec (ContentAggregator.updateExistingContent Sample.renamed) w) !! 0%nat
    = Some m.
Proof.
  intros m w. apply (refresh_leaves_recent_items Sample.renamed w 0%nat m).
  - reflexivity.
  - vm_compute. discriminate.
Defined.

(** ** What a computation adds to the collection *)

Lemma grows_weaken {A} (m : M A) (P Q : A → nat → Prop) :
  grows m P → (∀ a n, P a n → Q a n) → grows m Q.
Proof.
  intros Hm HPQ w. destruct (Hm w) as (l & Hc & Hp). exists l. split; [exact Hc|].
  intros a Ha. apply HPQ, Hp, Ha.
Qed.

Lemma grows_ret {A} (a : A) (P : A → nat → Prop) : P a 0%nat → grows (ret a) P.
Proof.
  intros HP w. exists []. rewrite app_nil_r. split; [reflexivity|].
  intros a' [= <-]. exact HP.
Qed.

Lemma grows_bind {A B} (m : M A) (k : A → M B) (P : A → nat → Prop)
      (Q : A → B → nat → Prop) :
  grows m P → (∀ a, grows (k a) (Q a)) →
  grows (bind m k) (λ b n, ∃ a n1 n2, n = (n1 + n2)%nat ∧ P a n1 ∧ Q a b n2).
Proof.
  intros Hm Hk w. destruct (Hm w) as (l1 & Hc1 & Hp1).
  unfold exec, result, bind in *. destruct (m w) as [[a|e] w1]; simpl in *.
  - destruct (Hk a w1) as (l2 & Hc2 & Hp2). unfold exec, result in *.
    exists (l1 ++ l2)%list. rewrite Hc2, Hc1, app_assoc. split; [reflexivity|].
    intros b Hb. exists a, (length l1), (length l2). rewrite length_app.
    split; [reflexivity|]. split; [apply Hp1; reflexivity | apply Hp2, Hb].
  - exists l1. split; [exact Hc1 | discriminate].
Qed.

Lemma grows_same {A} (m : M A) :
  (∀ w, collection (exec m w) = collection w) → grows m (λ _ n, n = 0%nat).
Proof.
  intros H w. exists []. rewrite app_nil_r. split; [apply H | reflexivity].
Qed.

(** A loop whose turns add at most what they count adds at most what
    it counts. *)
Lemma grows_for_of {A} (xs : list A) (body : Z → A → M Z) (s : Z) :
  (∀ s x, grows (body s x) (λ s' n, Z.of_nat n <= s' - s)) →
  grows (for_of xs s body) (λ s' n, Z.of_nat n <= s' - s).
Proof.
  intros Hb. revert s. induction xs as [|x xs IH]; intros s; simpl.
  - apply grows_ret. lia.
  - eapply grows_weaken; [apply grows_bind; [apply Hb | intros a; apply IH]|].
    intros s' n (a & n1 & n2 & -> & H1 & H2). simpl in *. lia.
Qed.

Section Growth.

Variable svc : tmdbService.t.
Variable sp : string → string.

Lemma grows_call {A} c (answer : option A) :
  grows (Await.call c answer) (λ _ n, n = 0%nat).
Proof. apply grows_same. intros w. unfold Await.call, exec, bind, modify, await.
  destruct answer; reflexivity. Qed.

Lemma grows_delay ms : grows (delay ms) (λ _ n, n = 0%nat).
Proof. apply grows_same. reflexivity. Qed.

Lemma grows_processAndSave ty id :
  grows (ContentAggregator.processAndSave svc sp ty id) (λ _ n, (n <= 1)%nat).
Proof.
  intros w. unfold exec, result. rewrite processAndSave_run.
  destruct (Media.findOne_in _ (collection w)) as [[i x]|].
  { exists []. rewrite app_nil_r. split; [reflexivity | simpl; lia]. }
  cbv zeta. destruct (details_of svc ty id) as [d|].
  2: { exists []. rewrite app_nil_r. split; [reflexivity | simpl; lia]. }
  destruct (_ && _).
  - eexists [_]. split; [reflexivity | simpl; lia].
  - exists []. rewrite app_nil_r. split; [reflexivity | simpl; lia].
Qed.

Lemma grows_counted ty id (total : Z) :
  grows (_ <- ContentAggregator.processAndSave svc sp ty id ;; ret (total + 1))
        (λ s' n, Z.of_nat n <= s' - total).
Proof.
  eapply grows_weaken.
  - apply grows_bind; [apply grows_processAndSave|]. intros a. apply grows_ret.
    instantiate (1 := λ _ b n, b = total + 1 ∧ n = 0%nat). split; reflexivity.
  - intros s' n (a & n1 & n2 & -> & H1 & H2 & H3). simpl in *. subst. lia.
Qed.

Lemma grows_then_delay (m : M Z) (s : Z) :
  grows m (λ s' n, Z.of_nat n <= s' - s) →
  grows (total' <- m ;; delay 200 ;;; ret total') (λ s' n, Z.of_nat n <= s' - s).
Proof.
  intros Hm. eapply grows_weaken.
  - apply (grows_bind m _ _ (λ a b n, b = a ∧ n = 0%nat) Hm). intros a.
    eapply grows_weaken.
    + apply (grows_bind _ _ (λ _ n, n = 0%nat) (λ _ b n, b = a ∧ n = 0%nat)).
      * apply grows_delay.
      * intros _. apply grows_ret. split; reflexivity.
    + intros b n (u & n1 & n2 & -> & -> & -> & ->). split; reflexivity.
  - intros s' n (a & n1 & n2 & -> & H1 & H2 & H3). simpl in *. subst. lia.
Qed.

Lemma grows_listing {A} (m : M A) (k : A → M Z) (s : Z) :
  grows m (λ _ n, n = 0%nat) →
  (∀ a, grows (k a) (λ s' n, Z.of_nat n <= s' - s)) →
  grows (bind m k) (λ s' n, Z.of_nat n <= s' - s).
Proof.
  intros Hm Hk. eapply grows_weaken; [apply grows_bind; [exact Hm | exact Hk]|].
  intros s' n (a & n1 & n2 & -> & H1 & H2). simpl in *. subst. simpl. exact H2.
Qed.

Lemma grows_syncListings ty getPopular discover maxPages genres minRating :
  (∀ page, grows (getPopular page) (λ _ n, n = 0%nat)) →
  (∀ options, grows (discover options) (λ _ n, n = 0%nat)) →
  grows (ContentAggregatorSync.syncListings svc sp ty getPopular discover
           maxPages genres minRating)
        (λ total n, Z.of_nat n <= total).
Proof.
  intros Hp Hd. unfold ContentAggregatorSync.syncListings.
  eapply grows_weaken.
  - apply grows_bind.
    + apply grows_for_of. intros s page. apply grows_listing; [apply Hp|].
      intros popular. apply grows_then_delay. apply grows_for_of. intros s' item.
      destruct (geq _ _); [apply grows_counted | apply grows_ret; lia].
    + intros total. instantiate (1 := λ total s' n, Z.of_nat n <= s' - total).
      simpl. destruct (0 <? length genres)%nat; [|apply grows_ret; lia].
      apply grows_for_of. intros s genreId. apply grows_listing; [apply Hd|].
      intros listing. apply grows_then_delay. apply grows_for_of. intros s' item.
      apply grows_counted.
  - intros total n (a & n1 & n2 & -> & H1 & H2). simpl in *. lia.
Qed.

End Growth.

Lemma grows_for_of_bounded {A} (xs : list A) (body : Z → A → M Z) (s : Z) :
  (∀ s x, grows (body s x) (λ s' n, Z.of_nat n <= s' - s <= 1)) →
  grows (for_of xs s body) (λ s' n, Z.of_nat n <= s' - s <= Z.of_nat (length xs)).
Proof.
  intros Hb. revert s. induction xs as [|x xs IH]; intros s; simpl.
  - apply grows_ret. simpl. lia.
  - eapply grows_weaken; [apply grows_bind; [apply Hb | intros a; apply IH]|].
    intros s' n (a & n1 & n2 & -> & H1 & H2). simpl in *. lia.
Qed.

Section Sync.

Variable svc : tmdbService.t.
Variable sp : string → string.

(** X8.  [syncCatalog] of the aggregator only adds documents at the end
    of the collection, and the [totalSynced] it returns counts the
    entries it handed to [processAndSaveMovie] and
    [processAndSaveTVShow], stored or not: it is at least the number of
    documents added. *)
Theorem aggregator_sync_counts_attempts (includeMovies includeTVShows : bool)
        (maxPages : Z) (genres : list Z) (minRating : Q) (w : World) :
  ∃ l, collection (exec (ContentAggregatorSync.syncCatalog svc sp includeMovies
                           includeTVShows maxPages genres minRating) w)
       = (collection w ++ l)%list
       ∧ ∀ totalSynced,
           result (ContentAggregatorSync.syncCatalog svc sp includeMovies
                     includeTVShows maxPages genres minRating) w = Return totalSynced →
           Z.of_nat (length l) <= totalSynced.
Proof.
  revert w. change (grows (ContentAggregatorSync.syncCatalog svc sp includeMovies
                             includeTVShows maxPages genres minRating)
                          (λ total n, Z.of_nat n <= total)).
  assert (Hm : grows (ContentAggregatorSync.syncMovies svc sp maxPages genres minRating)
                     (λ total n, Z.of_nat n <= total)).
  { apply grows_syncListings; intros; apply grows_call. }
  assert (Ht : grows (ContentAggregatorSync.syncTVShows svc sp maxPages genres minRating)
                     (λ total n, Z.of_nat n <= total)).
  { apply grows_syncListings; intros; apply grows_call. }
  unfold ContentAggregatorSync.syncCatalog.
  eapply grows_weaken.
  - apply (grows_bind _ _ (λ total n, Z.of_nat n <= total)
             (λ total s' n, Z.of_nat n <= s' - total)).
    + destruct includeMovies; [|apply grows_ret; simpl; lia].
      eapply grows_weaken.
      * apply (grows_bind _ _ _ (λ a b n, b = 0 + a ∧ n = 0%nat) Hm).
        intros a. apply grows_ret. split; reflexivity.
      * intros b n (a & n1 & n2 & -> & H1 & -> & ->). simpl in *. lia.
    + intros total. destruct includeTVShows; [|apply grows_ret; simpl; lia].
      eapply grows_weaken.
      * apply (grows_bind _ _ _ (λ a b n, b = total + a ∧ n = 0%nat) Ht).
        intros a. apply grows_ret. split; reflexivity.
      * intros b n (a & n1 & n2 & -> & H1 & -> & ->). simpl in *. lia.
  - intros total n (a & n1 & n2 & -> & H1 & H2). simpl in *. lia.
Qed.

Lemma grows_releaseItem threshold s item :
  grows (ContentAggregatorSync.releaseItem svc sp threshold s item)
        (λ s' n, Z.of_nat n <= s' - s <= 1).
Proof.
  unfold ContentAggregatorSync.releaseItem. eapply grows_weaken.
  - apply (grows_bind _ _ (λ _ n, n = 0%nat) (λ _ s' n, Z.of_nat n <= s' - s <= 1)).
    + apply grows_same. reflexivity.
    + intros existing. eapply grows_weaken.
      * apply (grows_bind _ _ (λ s' n, Z.of_nat n <= s' - s <= 1)
                 (λ a b n, b = a ∧ n = 0%nat)).
        -- destruct (_ && _); [|apply grows_ret; simpl; lia].
           eapply grows_weaken.
           ++ apply (grows_bind _ _ _ (λ _ b n, b = s + 1 ∧ n = 0%nat)
                       (grows_processAndSave svc sp movie (Summary.tmdbId item))).
              intros a. apply grows_ret. split; reflexivity.
           ++ intros b n (a & n1 & n2 & -> & H1 & -> & ->). simpl in *. lia.
        -- intros a. eapply grows_weaken.
           ++ apply (grows_bind _ _ (λ _ n, n = 0%nat) (λ _ b n, b = a ∧ n = 0%nat)).
              ** apply grows_delay.
              ** intros _. apply grows_ret. split; reflexivity.
           ++ intros b n (u & n1 & n2 & -> & -> & -> & ->). split; reflexivity.
      * intros b n (a & n1 & n2 & -> & H1 & -> & ->). simpl in *. lia.
  - intros b n (a & n1 & n2 & -> & -> & H2). simpl in *. exact H2.
Qed.

(** X9.  [syncNewReleases] of the aggregator only adds documents at the
    end of the collection; the number it returns is at most 30 and at
    least the number of documents added. *)
Theorem aggregator_new_releases_bounded (w : World) :
  ∃ l, collection (exec (ContentAggregatorSync.syncNewReleases svc sp) w)
       = (collection w ++ l)%list
       ∧ ∀ newReleases,
           result (ContentAggregatorSync.syncNewReleases svc sp) w = Return newReleases →
           Z.of_nat (length l) <= newReleases <= 30.
Proof.
  revert w. change (grows (ContentAggregatorSync.syncNewReleases svc sp)
                          (λ total n, Z.of_nat n <= total <= 30)).
  unfold ContentAggregatorSync.syncNewReleases.
  eapply grows_weaken.
  - apply (grows_bind _ _ (λ _ n, n = 0%nat) (λ _ total n, Z.of_nat n <= total <= 30)).
    { apply grows_call. }
    intros up. eapply grows_weaken.
    + apply (grows_bind _ _ (λ _ n, n = 0%nat) (λ _ total n, Z.of_nat n <= total <= 30)).
      { apply grows_call. }
      intros np. eapply grows_weaken.
      * apply grows_bind.
        -- apply (grows_for_of_bounded (take 20 np)). apply grows_releaseItem.
        -- intros a. apply (grows_for_of_bounded (take 10 up)). apply grows_releaseItem.
      * intros total n (a & n1 & n2 & -> & H1 & H2). simpl in *.
        rewrite length_take in H1, H2. lia.
    + intros total n (a & n1 & n2 & -> & -> & H2). exact H2.
  - intros total n (a & n1 & n2 & -> & -> & H2). exact H2.
Qed.

End Sync.

Section Unique.

Variable svc : tmdbService.t.
Variable sp : string → string.
Hypothesis Hsvc : answers_for_id svc.

Lemma key_absent c n ty :
  Media.findOne_in [Media.tmdbId_is n; Media.type_is ty] c = None →
  (n, ty) ∉ key <$> c.
Proof.
  intros H Hin. apply list_elem_of_fmap in Hin as (m & Hk & Hm).
  apply list_elem_of_lookup in Hm as [i Hi].
  rewrite findOne_in_None in H. specialize (H i m Hi).
  unfold Media.matches, key in *. simpl in H. injection Hk as -> ->.
  rewrite Z.eqb_refl in H. unfold type_eqb in H.
  rewrite bool_decide_eq_true_2 in H by reflexivity. discriminate.
Qed.

Lemma processAndSave_unique ty id :
  preserves unique_keys (ContentAggregator.processAndSave svc sp ty id).
Proof.
  intros w Hu. unfold exec. rewrite processAndSave_run.
  destruct (Media.findOne_in _ (collection w)) as [[i x]|] eqn:Hf; [exact Hu|].
  cbv zeta. destruct (details_of svc ty id) as [d|] eqn:Hd; [|exact Hu].
  destruct (_ && _); [|exact Hu].
  unfold unique_keys in *. cbn [snd collection set_collection].
  rewrite fmap_app. apply NoDup_app. split; [exact Hu|].
  split; [|apply NoDup_singleton].
  intros k Hk Hk'. apply list_elem_of_singleton in Hk'. subst k.
  apply (key_absent _ _ _ Hf). unfold key in Hk. simpl in Hk.
  rewrite (Hsvc _ _ _ Hd) in Hk. exact Hk.
Qed.

Ltac unique_leaf :=
  first
    [ apply processAndSave_unique
    | apply preserves_call; intros w0 H0; exact H0
    | apply preserves_modify; intros w0 H0; exact H0 ].

(** X10.  When the detail calls answer with the identifier they were
    asked for, [syncCatalog] and [syncNewReleases] of the aggregator
    keep [(tmdbId, type)] unique, with or without the unique index and
    also for deactivated documents: their existence check does not look
    at [isActive]. *)
Theorem aggregator_sync_keeps_keys_unique (includeMovies includeTVShows : bool)
        (maxPages : Z) (genres : list Z) (minRating : Q) (w : World) :
  unique_keys w →
  unique_keys (exec (ContentAggregatorSync.syncCatalog svc sp includeMovies
                       includeTVShows maxPages genres minRating) w)
  ∧ unique_keys (exec (ContentAggregatorSync.syncNewReleases svc sp) w).
Proof.
  intros Hu. split.
  - revert w Hu. change (preserves unique_keys
      (ContentAggregatorSync.syncCatalog svc sp includeMovies includeTVShows
         maxPages genres minRating)).
    unfold ContentAggregatorSync.syncCatalog, ContentAggregatorSync.syncMovies,
      ContentAggregatorSync.syncTVShows, ContentAggregatorSync.syncListings,
      Await.getPopularMovies, Await.getPopularTVShows, Await.discoverMovies,
      Await.discoverTVShows, delay.
    split_job unique_leaf.
  - revert w Hu. change (preserves unique_keys (ContentAggregatorSync.syncNewReleases svc sp)).
    unfold ContentAggregatorSync.syncNewReleases, ContentAggregatorSync.releaseItem,
      Await.getUpcomingMovies, Await.getNowPlayingMovies, delay,
      ContentAggregator.processAndSaveMovie, Media.findOne.
    split_job unique_leaf.
Qed.

End Unique.

Lemma fight_club_answers_for_id : answers_for_id Sample.fight_club.
Proof.
  intros ty id d. unfold details_of. destruct (type_eqb ty movie); [|discriminate].
  simpl. destruct (Z.eqb_spec id 550) as [->|_]; [|discriminate].
  intros [= <-]. reflexivity.
Qed.

Lemma aggregator_sync_keeps_keys_unique_witness :
  let w := Sample.world 1000 [Sample.stored 1 "Foo" (75 # 10) false] false in
  unique_keys w
  ∧ unique_keys (exec (ContentAggregatorSync.syncCatalog Sample.fight_club generateSlug
                         true true 1 [28] 6) w)
  ∧ unique_keys (exec (ContentAggregatorSync.syncNewReleases Sample.fight_club generateSlug) w).
Proof.
  intros w.
  assert (Hu : unique_keys w) by (apply (bool_decide_unpack _); vm_compute; exact I).
  split; [exact Hu|].
  apply (aggregator_sync_keeps_keys_unique Sample.fight_club generateSlug
           fight_club_answers_for_id true true 1 [28] 6 w Hu).
Defined.

Lemma keep_alnum_space_chars s : all_chars word_char (keep_alnum_space s) = true.
Proof.
  induction s as [|c r IH]; [reflexivity|]. simpl.
  destruct (is_lower c || is_digit c || is_space c) eqn:Hc; [|exact IH].
  simpl. unfold word_char at 1. rewrite Hc. exact IH.
Qed.

Lemma word_char_cases c :
  word_char c = true →
  (is_space c = true ∧ Ascii.eqb c "-" = false)
  ∨ (is_space c = false ∧ Ascii.eqb c "-" = false ∧ slug_char c = true).
Proof.
  destruct c as [[] [] [] [] [] [] [] []]; vm_compute; intros H;
    first [discriminate | left; split; reflexivity | right; repeat split; reflexivity].
Qed.

Lemma slug_char_no_space c : slug_char c = true → is_space c = false.
Proof. destruct c as [[] [] [] [] [] [] [] []]; vm_compute; intros H; congruence. Qed.

Lemma spaces_to_hyphen_chars run s :
  all_chars word_char s = true →
  all_chars slug_char (spaces_to_hyphen run s) = true
  ∧ single_hyphens run (spaces_to_hyphen run s) = true.
Proof.
  revert run. induction s as [|c r IH]; intros run H; [split; reflexivity|].
  simpl in H. apply andb_true_iff in H as [Hc Hr]. simpl.
  destruct (word_char_cases c Hc) as [[Hs Hh] | (Hs & Hh & Hk)]; rewrite Hs.
  - destruct (IH true Hr) as [H1 H2]. destruct run; [split; assumption|].
    simpl. split; [exact H1 | exact H2].
  - destruct (IH false Hr) as [H1 H2]. simpl. rewrite Hk, Hh. split; assumption.
Qed.

Lemma squeeze_hyphens_same run s :
  single_hyphens run s = true → squeeze_hyphens run s = s.
Proof.
  revert run. induction s as [|c r IH]; intros run H; [reflexivity|].
  simpl in *. destruct (Ascii.eqb c "-") eqn:Hc.
  - apply andb_true_iff in H as [Hp Hr]. destruct run; [discriminate|].
    apply Ascii.eqb_eq in Hc. subst c. rewrite (IH true Hr). reflexivity.
  - rewrite (IH false H). reflexivity.
Qed.

Lemma trim_left_same s : all_chars slug_char s = true → trim_left s = s.
Proof.
  destruct s as [|c r]; [reflexivity|]. simpl. intros H.
  apply andb_true_iff in H as [Hc _]. rewrite (slug_char_no_space c Hc). reflexivity.
Qed.

Lemma trim_right_same s : all_chars slug_char s = true → trim_right s = s.
Proof.
  induction s as [|c r IH]; [reflexivity|]. simpl. intros H.
  apply andb_true_iff in H as [Hc Hr]. rewrite (IH Hr).
  destruct r; [rewrite (slug_char_no_space c Hc)|]; reflexivity.
Qed.

(** The last two steps of [generateSlug] never change the string. *)
Lemma generateSlug_steps title :
  generateSlug title = spaces_to_hyphen false (keep_alnum_space (toLowerCase title)).
Proof.
  unfold generateSlug, trim.
  destruct (spaces_to_hyphen_chars false _ (keep_alnum_space_chars (toLowerCase title)))
    as [H1 H2].
  rewrite (squeeze_hyphens_same _ _ H2), (trim_left_same _ H1), (trim_right_same _ H1).
  reflexivity.
Qed.

(** X11.  A slug that [generateSlug] returns consists of lower-case
    letters, digits and hyphens, and no two hyphens stand side by side. *)
Theorem generateSlug_is_url_safe (title : string) :
  all_chars slug_char (generateSlug title) = true
  ∧ single_hyphens false (generateSlug title) = true.
Proof.
  rewrite generateSlug_steps.
  apply spaces_to_hyphen_chars, keep_alnum_space_chars.
Qed.

Lemma is_space_lower c : is_space c = true → lower c = c.
Proof. destruct c as [[] [] [] [] [] [] [] []]; vm_compute; intros H; congruence. Qed.

Lemma toLowerCase_app s t : toLowerCase (s +:+ t) = toLowerCase s +:+ toLowerCase t.
Proof. induction s as [|c r IH]; [reflexivity|]. simpl. rewrite IH. reflexivity. Qed.

Lemma keep_alnum_space_app s t :
  keep_alnum_space (s +:+ t) = keep_alnum_space s +:+ keep_alnum_space t.
Proof.
  induction s as [|c r IH]; [reflexivity|]. simpl. rewrite IH.
  destruct (is_lower c || is_digit c || is_space c); reflexivity.
Qed.

Lemma spaces_to_hyphen_end run s c :
  is_space c = true →
  (∃ body, spaces_to_hyphen run (s +:+ String c "") = body +:+ "-")
  ∨ (run = true ∧ spaces_to_hyphen run (s +:+ String c "") = "").
Proof.
  intros Hc. revert run. induction s as [|x r IH]; intros run.
  - simpl. rewrite Hc. destruct run; [right; split; reflexivity|].
    left. exists "". reflexivity.
  - simpl. destruct (is_space x).
    + destruct (IH true) as [[body Hb] | [_ He]].
      * left. destruct run; [exists body; exact Hb|].
        exists (String "-" body). rewrite Hb. reflexivity.
      * destruct run; [right; split; [reflexivity | exact He]|].
        left. exists "". rewrite He. reflexivity.
    + destruct (IH false) as [[body Hb] | [Hr _]]; [|discriminate].
      left. exists (String x body). rewrite Hb. reflexivity.
Qed.

(** X12.  White space at the start or at the end of a title is not
    trimmed away by [generateSlug]: it has become a hyphen by the time
    [trim()] runs, so the slug starts, or ends, with a hyphen. *)
Theorem generateSlug_does_not_trim (c : ascii) (title : string) :
  is_space c = true →
  (∃ rest, generateSlug (String c title) = String "-" rest)
  ∧ (∃ body, generateSlug (title +:+ String c "") = body +:+ "-").
Proof.
  intros Hc. rewrite !generateSlug_steps. split.
  - simpl. rewrite (is_space_lower c Hc), Hc, !orb_true_r. simpl. rewrite Hc. eauto.
  - rewrite toLowerCase_app, keep_alnum_space_app. simpl.
    rewrite (is_space_lower c Hc), Hc, !orb_true_r.
    destruct (spaces_to_hyphen_end false (keep_alnum_space (toLowerCase title)) c Hc)
      as [H | [Hr _]]; [exact H | discriminate].
Qed.

Lemma generateSlug_does_not_trim_witness :
  (∃ rest, generateSlug " Fight Club" = String "-" rest)
  ∧ (∃ body, generateSlug "Fight Club " = body +:+ "-").
Proof. apply (generateSlug_does_not_trim " " "Fight Club"). reflexivity. Defined.

(** ** Age rating *)

(** X13.  [getAgeRating] never returns the empty string, and returns
    ["L"] when no release is listed for Brazil. *)
Theorem getAgeRating_is_never_empty (releaseDates : option (list (string * list string))) :
  TMDBService.getAgeRating releaseDates ≠ ""
  ∧ (∀ rs, releaseDates = Some rs →
       List.find (λ r, String.eqb (fst r) "BR") rs = None →
       TMDBService.getAgeRating releaseDates = "L").
Proof.
  split.
  - unfold TMDBService.getAgeRating. destruct releaseDates as [rs|]; [|discriminate].
    destruct (List.find _ rs) as [[country [|certification dates]]|]; try discriminate.
    destruct certification; simpl; discriminate.
  - intros rs -> Hf. unfold TMDBService.getAgeRating. rewrite Hf. reflexivity.
Qed.

(** ** Search listings *)

(** X14.  [formatSearchResponse] keeps the entries whose [media_type] is
    ["movie"] or ["tv"], in their order and under their identifiers, and
    drops every other entry; what it returns is a movie, a series or an
    anime. *)
Theorem formatSearchResponse_drops_other_kinds (results : list TMDBService.Raw) :
  ∃ out, TMDBService.formatSearchResponse (TMDBService.Listing results) = Some out
         ∧ Summary.tmdbId <$> out = TMDBService.id <$> List.filter listed_kind results
         ∧ ∀ s, s ∈ out →
             Summary.type s = movie ∨ Summary.type s = series ∨ Summary.type s = anime.
Proof.
  eexists. split; [reflexivity|]. split.
  - induction results as [|item results IH]; [reflexivity|].
    simpl in *. unfold listed_kind at 1.
    destruct (String.eqb (TMDBService.media_type item) "movie"); simpl.
    + f_equal. exact IH.
    + destruct (String.eqb (TMDBService.media_type item) "tv"); simpl;
        [f_equal; exact IH | exact IH].
  - intros s Hs. apply list_elem_of_omap in Hs as (item & _ & Hs).
    destruct (String.eqb (TMDBService.media_type item) "movie").
    + injection Hs as <-. left. reflexivity.
    + destruct (String.eqb (TMDBService.media_type item) "tv"); [|discriminate].
      injection Hs as <-. simpl. destruct (TMDBService.isAnime item); auto.
Qed.

(** ** Options of a discover call *)

Lemma param_assign k base k1 v1 :
  param k (TMDBService.assign base k1 v1)
  = if String.eqb k1 k then Some v1 else param k base.
Proof.
  unfold param. induction base as [|[k' v'] base IH]; simpl.
  - destruct (String.eqb k1 k); reflexivity.
  - destruct (String.eqb_spec k' k1) as [->|Hne]; simpl.
    + destruct (String.eqb k1 k); reflexivity.
    + destruct (String.eqb_spec k' k) as [->|Hne']; simpl.
      * destruct (String.eqb_spec k1 k) as [->|_]; [congruence | reflexivity].
      * exact IH.
Qed.

Lemma param_snoc k (ps : Params) k1 v1 :
  param k (ps ++ [(k1, v1)])%list
  = match param k ps with
    | Some v => Some v
    | None => if String.eqb k1 k then Some v1 else None
    end.
Proof.
  unfold param. induction ps as [|[k' v'] ps IH]; simpl.
  - destruct (String.eqb k1 k); reflexivity.
  - destruct (String.eqb k' k); [reflexivity | exact IH].
Qed.

(** X15.  In the parameters that [discoverMovies] and [discoverTVShows]
    build with [{ ...defaults, ...options }], a key has the value that
    [options] gives it last and, when [options] does not give it, the
    value of the defaults. *)
Theorem spread_lets_the_later_value_win (base extra : Params) (k : string) :
  param k (TMDBService.spread base extra)
  = match param k (rev extra) with
    | Some v => Some v
    | None => param k base
    end.
Proof.
  unfold TMDBService.spread. revert base.
  induction extra as [|[k1 v1] extra IH]; intros base; [reflexivity|].
  simpl. rewrite IH, param_snoc, param_assign.
  destruct (param k (rev extra)); [reflexivity|].
  destruct (String.eqb k1 k); reflexivity.
Qed.

(** ** Calls made together *)

Lemma drain_answers api queue s :
  fst (TMDBService.drain api queue s) = answer_of api <$> queue.
Proof.
  revert s. induction queue as [|r rest IH]; intros s; [reflexivity|].
  simpl. unfold answer_of at 1.
  destruct (TMDBService.axios_get api (TMDBService.endpoint r) (TMDBService.params r))
    as [answer took].
  match goal with |- context [TMDBService.drain api rest ?s4] =>
    specialize (IH s4); destruct (TMDBService.drain api rest s4) as [settled s5]
  end.
  simpl in *. rewrite IH. reflexivity.
Qed.

Lemma misses_cons s e p calls :
  misses s ((e, p) :: calls)
  = match TMDBService.cache_get (TMDBService.cacheKey e p) s with
    | Some _ => misses s calls
    | None => {| TMDBService.endpoint := e; TMDBService.params := p;
                 TMDBService.key := TMDBService.cacheKey e p |} :: misses s calls
    end.
Proof.
  unfold misses. cbn [omap list_omap fst snd].
  destruct (TMDBService.cache_get (TMDBService.cacheKey e p) s); reflexivity.
Qed.

Lemma makeRequests_cons e p calls s :
  TMDBService.makeRequests ((e, p) :: calls) s
  = (fst (TMDBService.makeRequest e p s)
       :: fst (TMDBService.makeRequests calls (snd (TMDBService.makeRequest e p s))),
     snd (TMDBService.makeRequests calls (snd (TMDBService.makeRequest e p s)))).
Proof.
  cbn [TMDBService.makeRequests]. destruct (TMDBService.makeRequest e p s) as [pr s1].
  cbn [fst snd]. destruct (TMDBService.makeRequests calls s1); reflexivity.
Qed.

Lemma makeRequests_settle api calls s pre rest :
  length pre = length (TMDBService.requestQueue s) →
  TMDBService.settle (pre ++ (answer_of api <$> misses s calls) ++ rest)%list
    <$> fst (TMDBService.makeRequests calls s)
  = expected api s <$> calls.
Proof.
  revert s pre. induction calls as [|[e p] calls IH]; intros s pre Hlen; [reflexivity|].
  rewrite makeRequests_cons, misses_cons. cbn [fst]. rewrite !fmap_cons.
  unfold expected at 1. cbn [fst snd]. unfold TMDBService.makeRequest.
  destruct (TMDBService.cache_get (TMDBService.cacheKey e p) s) as [v|] eqn:Hc.
  - cbn [fst snd TMDBService.settle]. rewrite (IH s pre Hlen). reflexivity.
  - cbn [fst snd]. set (r := {| TMDBService.endpoint := e; TMDBService.params := p;
                                TMDBService.key := TMDBService.cacheKey e p |}).
    set (s1 := TMDBService.set_queue (TMDBService.requestQueue s ++ [r])%list
                 (TMDBService.isProcessingQueue s) s).
    rewrite ?fmap_cons, <- app_comm_cons.
    specialize (IH s1 (pre ++ [answer_of api r])%list).
    rewrite <- app_assoc in IH. cbn [app] in IH.
    change (misses s1 calls) with (misses s calls) in IH.
    assert (Hex : expected api s1 <$> calls = expected api s <$> calls) by reflexivity.
    rewrite Hex in IH. rewrite IH.
    + f_equal. cbn [TMDBService.settle]. rewrite <- Hlen.
      rewrite lookup_app_r by lia. rewrite Nat.sub_diag. reflexivity.
    + unfold s1. cbn [TMDBService.requestQueue TMDBService.set_queue].
      rewrite !length_app. simpl. lia.
Qed.

(** X16.  Calls made together on an idle client all settle, each to its
    own answer and in the order in which they were made: the cached
    answer when the cache has one, the answer of the remote API
    otherwise.  The client is idle again afterwards. *)
Theorem calls_made_together_get_their_answers (api : TMDBService.Remote)
        (calls : list (string * Params)) (s : TMDBService.State) :
  idle s →
  fst (TMDBService.settle_all api calls s) = expected api s <$> calls
  ∧ idle (snd (TMDBService.settle_all api calls s)).
Proof.
  intros Hidle. split.
  - pose proof (makeRequests_settle api calls s [] []) as Hs.
    pose proof (makeRequests_state calls s) as Hst.
    destruct Hidle as [Hq Hb]. unfold TMDBService.settle_all.
    destruct (TMDBService.makeRequests calls s) as [promises s1]. simpl in Hs, Hst.
    subst s1. rewrite Hq, Hb, app_nil_l. unfold TMDBService.processQueue.
    cbn [TMDBService.isProcessingQueue TMDBService.requestQueue TMDBService.set_queue orb].
    rewrite app_nil_r in Hs.
    destruct (misses s calls) as [|r queue] eqn:Hm.
    + rewrite bool_decide_eq_true_2 by reflexivity. simpl. apply Hs. rewrite Hq. reflexivity.
    + rewrite bool_decide_eq_false_2 by discriminate.
      match goal with |- context [TMDBService.drain api (r :: queue) ?s0] =>
        pose proof (drain_answers api (r :: queue) s0) as Hd;
        destruct (TMDBService.drain api (r :: queue) s0) as [settled s']
      end.
      cbn [fst] in Hd. subst settled. cbn [fst]. apply Hs. rewrite Hq. reflexivity.
  - rewrite (settle_all_state api calls s Hidle).
    destruct (misses s calls); [exact Hidle | split; reflexivity].
Qed.

(** ** Expiry of a cached answer *)

(** X17.  A cached answer is not used once more than the time to live
    (3600 s) has passed since it was stored: the same request then
    leaves for the remote API again. *)
Theorem cached_answer_expires (api : TMDBService.Remote) (e : string) (p : Params)
        (s : TMDBService.State) (data : TMDBService.Response) (dt : Z) :
  idle s →
  TMDBService.cache_get (TMDBService.cacheKey e p) s = None →
  fst (TMDBService.axios_get api e p) = Some data →
  TMDBService.stdTTL * 1000 < dt →
  let s1 := TMDBService.tick dt (snd (TMDBService.request api e p s)) in
  TMDBService.cache_get (TMDBService.cacheKey e p) s1 = None
  ∧ TMDBService.outbound (snd (TMDBService.request api e p s1))
    = (e, TMDBService.clock s1) :: TMDBService.outbound s1.
Proof.
  intros Hidle Hmiss Hdata Hdt s1.
  assert (Hs1 : s1 = TMDBService.tick dt (after_request api e p s)).
  { unfold s1. rewrite (request_miss api e p s Hidle Hmiss). reflexivity. }
  assert (Hexp : TMDBService.cache_get (TMDBService.cacheKey e p) s1 = None).
  { rewrite Hs1. unfold after_request. rewrite Hdata. unfold TMDBService.cache_get.
    cbn [TMDBService.cache TMDBService.tick TMDBService.set_queue TMDBService.cache_set
         TMDBService.clock TMDBService.log_outbound].
    rewrite lookup_insert_eq.
    destruct (Z.ltb_spec
      (TMDBService.clock s + snd (TMDBService.axios_get api e p) + TMDBService.stdTTL * 1000)
      (TMDBService.clock s + snd (TMDBService.axios_get api e p) + dt)); [reflexivity | lia]. }
  split; [exact Hexp|].
  rewrite (request_miss api e p s1); [|rewrite Hs1; apply idle_after_request | exact Hexp].
  unfold after_request. destruct (fst (TMDBService.axios_get api e p)); reflexivity.
Qed.

Lemma calls_made_together_get_their_answers_witness :
  fst (TMDBService.settle_all Sample.flaky (TMDBService.movie_calls 2) TMDBService.cold)
  = expected Sample.flaky TMDBService.cold <$> TMDBService.movie_calls 2
  ∧ idle (snd (TMDBService.settle_all Sample.flaky (TMDBService.movie_calls 2)
                 TMDBService.cold)).
Proof.
  apply (calls_made_together_get_their_answers Sample.flaky (TMDBService.movie_calls 2)
           TMDBService.cold).
  split; reflexivity.
Defined.

Lemma cached_answer_expires_witness :
  let s1 := TMDBService.tick 3600001
              (snd (TMDBService.request Sample.flaky "/movie/1" [] TMDBService.cold)) in
  TMDBService.cache_get (TMDBService.cacheKey "/movie/1" []) s1 = None
  ∧ TMDBService.outbound (snd (TMDBService.request Sample.flaky "/movie/1" [] s1))
    = ("/movie/1", TMDBService.clock s1) :: TMDBService.outbound s1.
Proof.
  apply (cached_answer_expires Sample.flaky "/movie/1" [] TMDBService.cold
           (TMDBService.Object (Sample.raw 1 "Foo")) 3600001).
  - split; reflexivity.
  - reflexivity.
  - reflexivity.
  - reflexivity.
Defined.

(** ** Ratings *)






Lemma Set_spread_spec seen xs :
  NoDup (WatchProviders.Set_spread seen xs)
  ∧ ∀ x, x ∈ WatchProviders.Set_spread seen xs ↔ x ∈ xs ∧ x ∉ seen.
Proof.
  revert seen. induction xs as [|y xs IH]; intros seen; simpl.
  - split; [apply NoDup_nil_2|]. intros x. split; [intros H; inversion H|].
    intros [H _]. inversion H.
  - destruct (decide (y ∈ seen)) as [Hy|Hy].
    + rewrite bool_decide_eq_true_2 by exact Hy. destruct (IH seen) as [H1 H2].
      split; [exact H1|]. intros x. rewrite H2, elem_of_cons. split.
      * intros [Hx Hn]. auto.
      * intros [[->|Hx] Hn]; [contradiction | auto].
    + rewrite bool_decide_eq_false_2 by exact Hy.
      destruct (IH (y :: seen)) as [H1 H2]. split.
      * apply NoDup_cons. split; [|exact H1]. rewrite H2.
        intros [_ Hn]. apply Hn. left.
      * intros x. rewrite !elem_of_cons, H2, elem_of_cons. split.
        -- intros [->|[Hx Hn]]; [auto|]. split; [auto|].
           intros Hs. apply Hn. auto.
        -- intros [[->|Hx] Hn]; [auto|].
           destruct (decide (x = y)) as [->|Hne]; [auto|]. right. split; [exact Hx|].
           intros [?|?]; [contradiction | contradiction].
Qed.

(** X22.  [formatWatchProviders] lists no provider twice, and lists
    exactly the names of the providers offered for streaming, for rent
    or for sale; without providers the list is empty. *)
Theorem formatWatchProviders_lists_each_once (providers : option WatchProviders.t) :
  NoDup (WatchProviders.formatWatchProviders providers)
  ∧ (providers = None → WatchProviders.formatWatchProviders providers = [])
  ∧ ∀ p x, providers = Some p →
      (x ∈ WatchProviders.formatWatchProviders providers
       ↔ ∃ q, q ∈ WatchProviders.allProviders p ∧ WatchProviders.label q = x).
Proof.
  destruct providers as [p|]; simpl.
  - destruct (Set_spread_spec [] (WatchProviders.label <$> WatchProviders.allProviders p))
      as [H1 H2].
    split; [exact H1|]. split; [discriminate|].
    intros p' x [= <-]. rewrite H2, list_elem_of_fmap. split.
    + intros [(q & -> & Hq) _]. eauto.
    + intros (q & Hq & <-). split; [eauto|]. intros H. inversion H.
  - split; [apply NoDup_nil_2|]. split; [reflexivity | discriminate].
Qed.

(** ** Saving, then looking up *)

Section RoundTrip.

Variable sp : string → string.

(** X23.  After [save()] succeeds the document stands at the end of the
    collection.  [findByTmdbId] on its key then returns it when it is
    active and no active document had the key; it returns nothing when
    the document is inactive, and the older document when an active one
    had the key. *)
Theorem saved_item_is_found (data : Doc) (w : World) (id : nat) :
  result (Media.save sp data) w = Return id →
  let w' := exec (Media.save sp data) w in
  let m := Media.pre_save sp (clock w) data in
  id = length (collection w)
  ∧ collection w' = (collection w ++ [m])%list
  ∧ (lookup_key (collection w) (tmdbId data) (type data) = None →
     result (Media.findByTmdbId (tmdbId data) (type data)) w'
     = Return (if isActive data then Some (id, m) else None))
  ∧ (∀ old, lookup_key (collection w) (tmdbId data) (type data) = Some old →
     result (Media.findByTmdbId (tmdbId data) (type data)) w' = Return (Some old)).
Proof.
  unfold result, exec. rewrite save_run.
  destruct (Media.valid data); [|discriminate].
  destruct (Media.conflict _ _ _ _); [discriminate|].
  intros [= <-]. cbn [fst snd collection set_collection].
  split; [reflexivity|]. split; [reflexivity|].
  unfold Media.findByTmdbId, Media.findOne, gets. cbn [fst collection set_collection].
  fold (lookup_key (collection w ++ [Media.pre_save sp (clock w) data])
          (tmdbId data) (type data)).
  split.
  - intros Hn. unfold lookup_key in *. rewrite (findOne_in_app_None _ _ _ Hn).
    unfold Media.findOne_in, Media.find_in. cbn [Media.find_from].
    rewrite key_filter_matches.
    cbn [key Media.pre_save tmdbId type isActive].
    rewrite bool_decide_eq_true_2 by reflexivity.
    destruct (isActive data); reflexivity.
  - intros old Ho. unfold lookup_key in *. rewrite (findOne_in_app _ _ _ _ Ho). reflexivity.
Qed.

End RoundTrip.

Lemma saved_item_is_found_witness :
  let data := Sample.stored 1 "Foo" (75 # 10) true in
  let w := Sample.world 1000 [] true in
  result (Media.findByTmdbId 1 movie) (exec (Media.save generateSlug data) w)
  = Return (Some (0%nat, Media.pre_save generateSlug 1000 data)).
Proof.
  intros data w.
  destruct (saved_item_is_found generateSlug data w 0%nat eq_refl) as (_ & _ & H & _).
  apply H. reflexivity.
Defined.

(** ** Search listings of the service of the scripts; providers *)

Lemma formatSearchItem_type item :
  RootTMDBService.type (RootTMDBService.formatSearchItem item)
  = if String.eqb (TMDBService.media_type item) "tv" then "series"
    else TMDBService.media_type item.
Proof.
  unfold RootTMDBService.formatSearchItem.
  destruct (String.eqb_spec (TMDBService.media_type item) "movie") as [He|_].
  - cbn [RootTMDBService.type RootTMDBService.baseItem]. rewrite He. reflexivity.
  - destruct (String.eqb (TMDBService.media_type item) "tv"); reflexivity.
Qed.

(** X24.  [formatSearchResponse] of the service of the scripts drops the
    persons and nothing else: the other entries come back in their
    order and under their identifiers, and none of them is typed
    ["person"] or ["tv"], a show being typed ["series"]. *)
Theorem root_formatSearchResponse_drops_persons_only (results : list TMDBService.Raw) :
  ∃ out, RootTMDBService.formatSearchResponse (TMDBService.Listing results) = Some out
         ∧ RootTMDBService.tmdbId <$> out
           = TMDBService.id <$> List.filter not_a_person results
         ∧ ∀ x, x ∈ out →
             RootTMDBService.type x ≠ "person" ∧ RootTMDBService.type x ≠ "tv".
Proof.
  eexists. split; [reflexivity|]. split.
  - induction results as [|item results IH]; [reflexivity|].
    rewrite fmap_cons. cbn [List.filter]. unfold not_a_person at 1.
    rewrite formatSearchItem_type.
    destruct (String.eqb_spec (TMDBService.media_type item) "tv") as [He|_].
    + rewrite He. cbn [negb String.eqb Ascii.eqb Bool.eqb andb]. rewrite fmap_cons, IH.
      f_equal. unfold RootTMDBService.formatSearchItem. rewrite He. reflexivity.
    + destruct (String.eqb (TMDBService.media_type item) "person") eqn:Hp;
        cbn [negb]; [exact IH|].
      rewrite fmap_cons, IH. f_equal. unfold RootTMDBService.formatSearchItem.
      destruct (String.eqb (TMDBService.media_type item) "movie");
        [reflexivity|].
      destruct (String.eqb (TMDBService.media_type item) "tv"); reflexivity.
  - intros x Hx. apply list_elem_of_In, filter_In in Hx as [Hin Hx].
    apply list_elem_of_In, list_elem_of_fmap in Hin as (item & -> & _).
    apply negb_true_iff in Hx. split.
    + intros H. rewrite H in Hx. discriminate.
    + rewrite formatSearchItem_type.
      destruct (String.eqb_spec (TMDBService.media_type item) "tv") as [_|Hne];
        [discriminate | exact Hne].
Qed.

Lemma pushRent_fold ps providers :
  ∃ rented,
    fold_left AvailableProviders.pushRent ps providers = (providers ++ rented)%list
    ∧ (∀ x, x ∈ rented →
         ∃ q, q ∈ ps ∧ x = AvailableProviders.providerName_of q +:+ " (Aluguel)"
              ∧ AvailableProviders.providerName_of q ∉ providers)
    ∧ (∀ q, q ∈ ps →
         AvailableProviders.providerName_of q ∈ (providers ++ rented)%list
         ∨ AvailableProviders.providerName_of q +:+ " (Aluguel)" ∈ rented).
Proof.
  revert providers. induction ps as [|p ps IH]; intros providers.
  - exists []. rewrite app_nil_r. split; [reflexivity|].
    split; intros x Hx; inversion Hx.
  - cbn [fold_left]. unfold AvailableProviders.pushRent at 2.
    destruct (decide (AvailableProviders.providerName_of p ∈ providers)) as [Hin|Hout].
    + rewrite bool_decide_eq_true_2 by exact Hin.
      destruct (IH providers) as (rented & H1 & H2 & H3).
      exists rented. split; [exact H1|]. split.
      * intros x Hx. destruct (H2 x Hx) as (q & Hq & Hx' & Hn).
        exists q. split; [right; exact Hq | auto].
      * intros q Hq. apply elem_of_cons in Hq as [->|Hq]; [|apply H3, Hq].
        left. apply elem_of_app. left. exact Hin.
    + rewrite bool_decide_eq_false_2 by exact Hout.
      destruct (IH (providers
                    ++ [AvailableProviders.providerName_of p +:+ " (Aluguel)"])%list)
        as (rented & H1 & H2 & H3).
      exists ((AvailableProviders.providerName_of p +:+ " (Aluguel)") :: rented).
      split; [rewrite H1, <- app_assoc; reflexivity|]. split.
      * intros x Hx. apply elem_of_cons in Hx as [->|Hx].
        -- exists p. split; [left|]. split; [reflexivity | exact Hout].
        -- destruct (H2 x Hx) as (q & Hq & Hx' & Hn).
           exists q. split; [right; exact Hq|]. split; [exact Hx'|].
           intros Hp. apply Hn, elem_of_app. left. exact Hp.
      * intros q Hq. apply elem_of_cons in Hq as [->|Hq].
        -- right. left.
        -- destruct (H3 q Hq) as [H|H].
           ++ left. rewrite <- app_assoc in H. exact H.
           ++ right. right. exact H.
Qed.

(** X25.  [extractAvailableProviders] lists the streaming providers
    first, as they come.  What follows are rent offers, each marked
    ["(Aluguel)"] and each of a provider that does not stream the title;
    and every provider that rents the title out is in the list, under
    its name or with the mark. *)
Theorem extractAvailableProviders_marks_rent_only (wp : AvailableProviders.t) :
  let streaming := AvailableProviders.providerName_of
                     <$> default [] (AvailableProviders.flatrate wp) in
  let renting := default [] (AvailableProviders.rent wp) in
  ∃ rented,
    AvailableProviders.extractAvailableProviders (Some wp) = (streaming ++ rented)%list
    ∧ (∀ x, x ∈ rented →
         ∃ q, q ∈ renting ∧ x = AvailableProviders.providerName_of q +:+ " (Aluguel)"
              ∧ AvailableProviders.providerName_of q ∉ streaming)
    ∧ (∀ q, q ∈ renting →
         AvailableProviders.providerName_of q ∈ (streaming ++ rented)%list
         ∨ AvailableProviders.providerName_of q +:+ " (Aluguel)" ∈ rented).
Proof.
  intros streaming renting. unfold AvailableProviders.extractAvailableProviders.
  assert (Hs : match AvailableProviders.flatrate wp with
               | Some ps => AvailableProviders.providerName_of <$> ps
               | None => []
               end = streaming).
  { unfold streaming. destruct (AvailableProviders.flatrate wp); reflexivity. }
  rewrite Hs. unfold renting. destruct (AvailableProviders.rent wp) as [ps|]; simpl.
  - apply pushRent_fold.
  - exists []. rewrite app_nil_r. split; [reflexivity|].
    split; intros x Hx; inversion Hx.
Qed.
